(** * Lutra CSS-variable completion: symbol index and completion resolver

    A shallow embedding of [src/extension.ts]: the three extraction
    patterns, the rebuild of the variable table ([updateVariables]) and the
    completion request ([provideCompletionItems]), followed by the
    properties of the specification that were checked against them.

    Conventions of the embedding:
    - a JavaScript string is a [string]; an [ascii] stands for one code
      unit in the range 0..255;
    - [undefined] and [null] are [None];
    - a [Map] is an association list in insertion order;
    - the sequential behaviour of one awaited call is modelled, not the
      interleaving of overlapping rebuilds; the host (configuration, glob
      search, file reads, the open document) is a record of functions;
    - calls to [log] are left out: they write to the output channel only;
    - [path] is the POSIX variant of the Node.js module. *)

From Stdlib Require Import List String Ascii Bool Arith Lia.
Import ListNotations.
Open Scope string_scope.

(** ** JavaScript string primitives *)

Module Js.

(** Code units matched by [\s] and removed by [trim]: TAB, LF, VT, FF,
    CR, SPACE and NBSP (the members of the class below 256). *)
Definition is_space (c : ascii) : bool :=
  let n := nat_of_ascii c in
  (((9 <=? n) && (n <=? 13)) || (n =? 32) || (n =? 160))%nat.

(** [\w] is [A-Za-z0-9_]. *)
Definition is_word (c : ascii) : bool :=
  let n := nat_of_ascii c in
  (((48 <=? n) && (n <=? 57)) || ((65 <=? n) && (n <=? 90))
   || (n =? 95) || ((97 <=? n) && (n <=? 122)))%nat.

(** [[\w-]] *)
Definition is_word_or_dash (c : ascii) : bool :=
  is_word c || Ascii.eqb c "-".

(** [[^x]] *)
Definition not_char (x : ascii) (c : ascii) : bool := negb (Ascii.eqb c x).

(** The class of the two quote characters, single (39) and double (34). *)
Definition is_quote (c : ascii) : bool :=
  Ascii.eqb c "039" || Ascii.eqb c "034".

(** The complement of the quote class. *)
Definition not_quote (c : ascii) : bool := negb (is_quote c).

Fixpoint trimStart (s : string) : string :=
  match s with
  | String c s' => if is_space c then trimStart s' else s
  | EmptyString => EmptyString
  end.

Fixpoint trimEnd (s : string) : string :=
  match s with
  | EmptyString => EmptyString
  | String c s' =>
      match trimEnd s' with
      | EmptyString => if is_space c then EmptyString else String c EmptyString
      | t => String c t
      end
  end.

(** [s.trim()] *)
Definition trim (s : string) : string := trimEnd (trimStart s).

(** [s.includes(sub)] *)
Fixpoint includes (sub s : string) : bool :=
  prefix sub s ||
  match s with
  | EmptyString => false
  | String _ s' => includes sub s'
  end.

(** [s.endsWith(suf)] *)
Fixpoint endsWith (suf s : string) : bool :=
  (s =? suf) ||
  match s with
  | EmptyString => false
  | String _ s' => endsWith suf s'
  end.

(** [s.substring(n)] *)
Fixpoint substringFrom (n : nat) (s : string) : string :=
  match n, s with
  | S n', String _ s' => substringFrom n' s'
  | _, _ => s
  end.

(** [s.substring(0, n)] *)
Fixpoint substringTo (n : nat) (s : string) : string :=
  match n, s with
  | S n', String c s' => String c (substringTo n' s')
  | _, _ => EmptyString
  end.

(** [s.split(sep)] for a one-character separator. *)
Fixpoint split (sep : ascii) (s : string) : list string :=
  match s with
  | EmptyString => [EmptyString]
  | String c s' =>
      if Ascii.eqb c sep then EmptyString :: split sep s'
      else match split sep s' with
           | x :: xs => String c x :: xs
           | [] => [String c EmptyString]
           end
  end.

(** [xs.join(sep)] *)
Fixpoint join (sep : string) (xs : list string) : string :=
  match xs with
  | [] => EmptyString
  | [x] => x
  | x :: rest => x ++ sep ++ join sep rest
  end.

(** Truthiness of an optional string: [undefined], [null] and the empty
    string are falsy. *)
Definition truthy (o : option string) : bool :=
  match o with
  | Some (String _ _) => true
  | _ => false
  end.

(** [xs.filter(Boolean)] on an array of strings and [null]s. *)
Fixpoint filterBoolean (xs : list (option string)) : list string :=
  match xs with
  | [] => []
  | Some (String c s) :: rest => String c s :: filterBoolean rest
  | _ :: rest => filterBoolean rest
  end.

(** Every character of [s] is in the class. *)
Fixpoint all (cls : ascii -> bool) (s : string) : bool :=
  match s with
  | EmptyString => true
  | String a s' => cls a && all cls s'
  end.

(** [rest] is empty or begins outside the class. *)
Definition stops (cls : ascii -> bool) (rest : string) : Prop :=
  match rest with
  | EmptyString => True
  | String a _ => cls a = false
  end.

(** [s] begins with a character of the class. *)
Definition starts (cls : ascii -> bool) (s : string) : Prop :=
  match s with
  | EmptyString => False
  | String a _ => cls a = true
  end.

End Js.

(** ** Backtracking regular expressions

    The fragment of ECMAScript regular expressions used by the extension:
    literals, character classes, greedy and lazy repetition of a class,
    sequence, alternation, optional groups, capture groups and the end
    anchor.  Matching is the usual backtracking search written with
    continuations, so greedy/lazy choices and capture values are those an
    ECMAScript engine returns. *)

Module Regex.

Inductive regex : Type :=
| Lit (l : string)                                   (* literal text *)
| Cls (cls : ascii -> bool)                          (* one character of a class *)
| Rep (cls : ascii -> bool) (min : nat) (greedy : bool)
                                                     (* cls{min,} or cls{min,}? *)
| Seq (r1 r2 : regex)
| Alt (r1 r2 : regex)
| Opt (r : regex)                                    (* (?:r)? *)
| Group (n : nat) (r : regex)                        (* n-th capture group *)
| Eoi.                                               (* $ without the m flag *)

Declare Scope regex_scope.
Delimit Scope regex_scope with re.
Bind Scope regex_scope with regex.
Notation "r1 ++ r2" := (Seq r1 r2) (at level 60, right associativity) : regex_scope.

Definition star (cls : ascii -> bool) : regex := Rep cls 0 true.
Definition plus (cls : ascii -> bool) : regex := Rep cls 1 true.
Definition lazy_star (cls : ascii -> bool) : regex := Rep cls 0 false.

(** Capture values, most recent binding first. *)
Definition captures := list (nat * string).

Fixpoint capture (c : captures) (n : nat) : option string :=
  match c with
  | [] => None
  | (m, s) :: c' => if (m =? n)%nat then Some s else capture c' n
  end.

(** The text consumed between input [s] and its suffix [s']. *)
Definition consumed (s s' : string) : string :=
  Js.substringTo (String.length s - String.length s') s.

Definition orElse {A} (x y : option A) : option A :=
  match x with
  | Some r => Some r
  | None => y
  end.

Section Matcher.
Context {R : Type}.

Definition cont := string -> captures -> option R.

Fixpoint lit (l : string) (k : cont) (s : string) (c : captures) : option R :=
  match l with
  | EmptyString => k s c
  | String a l' =>
      match s with
      | String b s' => if Ascii.eqb a b then lit l' k s' c else None
      | EmptyString => None
      end
  end.

Fixpoint rep (cls : ascii -> bool) (greedy : bool) (min : nat) (k : cont)
         (s : string) (c : captures) {struct s} : option R :=
  let stop := match min with 0 => k s c | S _ => None end in
  let more :=
    match s with
    | String a s' => if cls a then rep cls greedy (pred min) k s' c else None
    | EmptyString => None
    end in
  if greedy then orElse more stop else orElse stop more.

Fixpoint run (r : regex) (k : cont) (s : string) (c : captures) : option R :=
  match r with
  | Lit l => lit l k s c
  | Cls cls =>
      match s with
      | String a s' => if cls a then k s' c else None
      | EmptyString => None
      end
  | Rep cls min greedy => rep cls greedy min k s c
  | Seq r1 r2 => run r1 (run r2 k) s c
  | Alt r1 r2 => orElse (run r1 k s c) (run r2 k s c)
  | Opt r1 =>
      orElse
        (run r1 (fun s' c' =>
                   if (String.length s' =? String.length s)%nat then None
                   else k s' c') s c)
        (k s c)
  | Group n r1 => run r1 (fun s' c' => k s' ((n, consumed s s') :: c')) s c
  | Eoi =>
      match s with
      | EmptyString => k s c
      | String _ _ => None
      end
  end.
End Matcher.

(** One match: the matched text ([match[0]]) and the capture groups. *)
Record match_result : Type := MkMatch {
  matched : string;
  groups : captures
}.

Definition group (m : match_result) (n : nat) : option string :=
  capture (groups m) n.

(** A match anchored at the start of [s]. *)
Definition match_at (r : regex) (s : string) : option match_result :=
  run r (fun s' c => Some (MkMatch (consumed s s') c)) s [].

(** [s.match(r)] / [r.exec(s)] for a pattern without the g flag: the
    leftmost match. *)
Fixpoint exec (r : regex) (s : string) : option match_result :=
  match match_at r s with
  | Some m => Some m
  | None =>
      match s with
      | EmptyString => None
      | String _ s' => exec r s'
      end
  end.

(** [r.test(s)] *)
Definition test (r : regex) (s : string) : bool :=
  match exec r s with
  | Some _ => true
  | None => false
  end.

(** [s.matchAll(r)] for a pattern with the g flag: successive leftmost
    matches, each search starting where the previous match ended (one
    position further after an empty match).  [skip] counts the
    positions still covered by the previous match. *)
Fixpoint matchAll_from (r : regex) (skip : nat) (s : string) : list match_result :=
  match skip with
  | S k =>
      match s with
      | EmptyString => []
      | String _ s' => matchAll_from r k s'
      end
  | 0 =>
      match match_at r s with
      | Some m =>
          m :: match s with
               | EmptyString => []
               | String _ s' => matchAll_from r (pred (String.length (matched m))) s'
               end
      | None =>
          match s with
          | EmptyString => []
          | String _ s' => matchAll_from r 0 s'
          end
      end
  end.

Definition matchAll (r : regex) (s : string) : list match_result :=
  matchAll_from r 0 s.

(** [binds n r]: group [n] takes part in every match of [r]. *)
Fixpoint binds (n : nat) (r : regex) : bool :=
  match r with
  | Group k r1 => (k =? n)%nat || binds n r1
  | Seq r1 r2 => binds n r1 || binds n r2
  | Alt r1 r2 => binds n r1 && binds n r2
  | _ => false
  end.

(** The texts a pattern matches, read off the pattern. *)
Inductive Matches : regex -> string -> Prop :=
| MatchLit (l : string) : Matches (Lit l) l
| MatchCls (cls : ascii -> bool) (a : ascii) :
    cls a = true -> Matches (Cls cls) (String a EmptyString)
| MatchRep (cls : ascii -> bool) (min : nat) (greedy : bool) (w : string) :
    Js.all cls w = true -> min <= String.length w -> Matches (Rep cls min greedy) w
| MatchSeq (r1 r2 : regex) (x y : string) :
    Matches r1 x -> Matches r2 y -> Matches (Seq r1 r2) (x ++ y)
| MatchAltLeft (r1 r2 : regex) (x : string) : Matches r1 x -> Matches (Alt r1 r2) x
| MatchAltRight (r1 r2 : regex) (x : string) : Matches r2 x -> Matches (Alt r1 r2) x
| MatchOptNone (r : regex) : Matches (Opt r) EmptyString
| MatchOptSome (r : regex) (x : string) : Matches r x -> Matches (Opt r) x
| MatchGroup (n : nat) (r : regex) (x : string) : Matches r x -> Matches (Group n r) x
| MatchEoi : Matches Eoi EmptyString.

(** [g] is the body of a group numbered [n] inside [r]. *)
Fixpoint groupOf (n : nat) (g r : regex) : Prop :=
  match r with
  | Group k r1 => (k = n /\ g = r1) \/ groupOf n g r1
  | Seq r1 r2 => groupOf n g r1 \/ groupOf n g r2
  | Alt r1 r2 => groupOf n g r1 \/ groupOf n g r2
  | Opt r1 => groupOf n g r1
  | _ => False
  end.

(** Captures that are old or hold a text matched by their group. *)
Definition captured_in (r : regex) (c c' : captures) : Prop :=
  forall n y, capture c' n = Some y ->
              capture c n = Some y \/ exists g, groupOf n g r /\ Matches g y.

End Regex.

Import Regex.

(** ** The patterns of the extension

    Each pattern is quoted from the source with a blank inserted between a
    star and a closing parenthesis; Q stands for the class of the two quote
    characters. *)

(** [/(?:\/\*([^*]* )\*\/\s* )?([^}]*?--[\w-]+:\s*[^;]+;)/g] *)
Definition CSS_VAR_PATTERN : regex :=
  (Opt (Lit "/*" ++ Group 1 (star (Js.not_char "*")) ++ Lit "*/" ++ star Js.is_space) ++
   Group 2 (lazy_star (Js.not_char "}") ++ Lit "--" ++ plus Js.is_word_or_dash ++
            Lit ":" ++ star Js.is_space ++ plus (Js.not_char ";") ++ Lit ";"))%re.

(** [/@cssprop\s+(--[\w-]+)\s*-\s*([^\n]+)/g] *)
Definition CSSPROP_DOC_PATTERN : regex :=
  (Lit "@cssprop" ++ plus Js.is_space ++
   Group 1 (Lit "--" ++ plus Js.is_word_or_dash) ++
   star Js.is_space ++ Lit "-" ++ star Js.is_space ++
   Group 2 (plus (Js.not_char "010")))%re.

(** [/\/\*\*([^*]*? )\*\/\s*@property\s+(--[\w-]+)\s*{([^}]+)}/gs] *)
Definition PROPERTY_RULE_PATTERN : regex :=
  (Lit "/**" ++ Group 1 (lazy_star (Js.not_char "*")) ++ Lit "*/" ++
   star Js.is_space ++ Lit "@property" ++ plus Js.is_space ++
   Group 2 (Lit "--" ++ plus Js.is_word_or_dash) ++
   star Js.is_space ++ Lit "{" ++ Group 3 (plus (Js.not_char "}")) ++ Lit "}")%re.

(** [/syntax:\s*Q([^Q]+)Q/] *)
Definition SYNTAX_PATTERN : regex :=
  (Lit "syntax:" ++ star Js.is_space ++ Cls Js.is_quote ++
   Group 1 (plus Js.not_quote) ++ Cls Js.is_quote)%re.

(** [/inherits:\s*(true|false)/] *)
Definition INHERITS_PATTERN : regex :=
  (Lit "inherits:" ++ star Js.is_space ++ Group 1 (Alt (Lit "true") (Lit "false")))%re.

(** [/initial-value:\s*([^;]+)/] *)
Definition INITIAL_VALUE_PATTERN : regex :=
  (Lit "initial-value:" ++ star Js.is_space ++ Group 1 (plus (Js.not_char ";")))%re.

(** [/--[\w-]+/] *)
Definition VAR_NAME_PATTERN : regex :=
  (Lit "--" ++ plus Js.is_word_or_dash)%re.

(** [/import\s+{([^}]+)}\s+from\s+QlutraQ;?/g] *)
Definition importPattern : regex :=
  (Lit "import" ++ plus Js.is_space ++ Lit "{" ++ Group 1 (plus (Js.not_char "}")) ++
   Lit "}" ++ plus Js.is_space ++ Lit "from" ++ plus Js.is_space ++
   Cls Js.is_quote ++ Lit "lutra" ++ Cls Js.is_quote ++ Opt (Lit ";"))%re.

(** [/\s--$/] *)
Definition SVELTE_ATTRIBUTE_PATTERN : regex :=
  (Cls Js.is_space ++ Lit "--" ++ Eoi)%re.

Definition nl : string := String "010" EmptyString.

(** A name captured or found by the patterns is two dashes followed by
    word characters and dashes. *)
Definition is_variable_name (nm : string) : Prop :=
  exists w, nm = "--" ++ w /\ Js.all Js.is_word_or_dash w = true /\ w <> EmptyString.


(** ** The variable table

    [Map<string, CSSVariable>]: iteration follows insertion order and
    [set] on an existing key keeps the key's position. *)

Inductive Source : Type := global | component.

Record CSSVariable : Type := MkVariable {
  name : string;
  description : option string;
  source : Source;
  componentName : option string;
  filePath : string
}.

Module JsMap.

Definition t : Type := list (string * CSSVariable).

Definition clear (_ : t) : t := [].

Fixpoint set (k : string) (v : CSSVariable) (m : t) : t :=
  match m with
  | [] => [(k, v)]
  | (k', v') :: m' =>
      if String.eqb k' k then (k', v) :: m' else (k', v') :: set k v m'
  end.

Fixpoint get (k : string) (m : t) : option CSSVariable :=
  match m with
  | [] => None
  | (k', v') :: m' => if String.eqb k' k then Some v' else get k m'
  end.

Definition has (k : string) (m : t) : bool :=
  match get k m with
  | Some _ => true
  | None => false
  end.

Definition values (m : t) : list CSSVariable := map snd m.

Definition keys (m : t) : list string := map fst m.

Definition size (m : t) : nat := List.length m.

End JsMap.

(** ** [path.basename(p, suffix)]

    The POSIX variant of the Node.js library function, loop for loop. *)

Module Path.

Record scan : Type := MkScan {
  start : nat;
  stop : option nat;
  matchedSlash : bool;
  extIdx : option nat;
  firstNonSlashEnd : option nat
}.

Definition is_slash (c : option ascii) : bool :=
  match c with
  | Some a => Ascii.eqb a "/"
  | None => false
  end.

Definition same_char (a b : option ascii) : bool :=
  match a, b with
  | Some x, Some y => Ascii.eqb x y
  | _, _ => false
  end.

(** The loop that also strips [suffix]; [n] is [i + 1]. *)
Fixpoint scan_suffix (p suffix : string) (n : nat) (st : scan) : scan :=
  match n with
  | 0 => st
  | S i =>
      let code := String.get i p in
      if is_slash code then
        if matchedSlash st then scan_suffix p suffix i st
        else MkScan (i + 1) (stop st) (matchedSlash st) (extIdx st) (firstNonSlashEnd st)
      else
        let st1 :=
          match firstNonSlashEnd st with
          | None => MkScan (start st) (stop st) false (extIdx st) (Some (i + 1))
          | Some _ => st
          end in
        let st2 :=
          match extIdx st1 with
          | Some e =>
              if same_char code (String.get e suffix) then
                match e with
                | 0 => MkScan (start st1) (Some i) (matchedSlash st1) None
                              (firstNonSlashEnd st1)
                | S e' => MkScan (start st1) (stop st1) (matchedSlash st1) (Some e')
                                 (firstNonSlashEnd st1)
                end
              else MkScan (start st1) (firstNonSlashEnd st1) (matchedSlash st1) None
                          (firstNonSlashEnd st1)
          | None => st1
          end in
        scan_suffix p suffix i st2
  end.

(** The loop without a suffix. *)
Fixpoint scan_plain (p : string) (n : nat) (st : scan) : scan :=
  match n with
  | 0 => st
  | S i =>
      if is_slash (String.get i p) then
        if matchedSlash st then scan_plain p i st
        else MkScan (i + 1) (stop st) (matchedSlash st) (extIdx st) (firstNonSlashEnd st)
      else
        match stop st with
        | None => scan_plain p i (MkScan (start st) (Some (i + 1)) false (extIdx st)
                                         (firstNonSlashEnd st))
        | Some _ => scan_plain p i st
        end
  end.

Definition slice (p : string) (from : nat) (to : nat) : string :=
  String.substring from (to - from) p.

Definition basename (p suffix : string) : string :=
  let len := String.length p in
  if negb (String.length suffix =? 0)%nat && (String.length suffix <=? len)%nat then
    if String.eqb suffix p then EmptyString
    else
      let st := scan_suffix p suffix len
                  (MkScan 0 None true (Some (String.length suffix - 1)) None) in
      let last :=
        match stop st, firstNonSlashEnd st with
        | Some e, Some f => if (start st =? e)%nat then f else e
        | Some e, None => e
        | None, _ => len
        end in
      slice p (start st) last
  else
    let st := scan_plain p len (MkScan 0 None true None None) in
    match stop st with
    | None => EmptyString
    | Some e => slice p (start st) e
    end.

End Path.

(** ** Effects: the mutable table and exceptions

    A computation reads and writes [this.variables] and either returns or
    throws; what was written before a throw stays written, as in
    JavaScript. *)

Inductive outcome (A : Type) : Type :=
| Returned (a : A)
| Thrown (error : string).
Arguments Returned {A} a.
Arguments Thrown {A} error.

Definition Eff (A : Type) : Type := JsMap.t -> outcome A * JsMap.t.

Definition ret {A} (a : A) : Eff A := fun m => (Returned a, m).

Definition throw {A} (e : string) : Eff A := fun m => (Thrown e, m).

Definition bind {A B} (c : Eff A) (k : A -> Eff B) : Eff B :=
  fun m =>
    match c m with
    | (Returned a, m') => k a m'
    | (Thrown e, m') => (Thrown e, m')
    end.

Notation "x <- c ;; k" := (bind c (fun x => k))
  (at level 61, c at next level, right associativity).
Notation "c ;; k" := (bind c (fun _ => k))
  (at level 61, right associativity).

(** [try { body } catch (error) { handler }] *)
Definition tryCatch {A} (body : Eff A) (handler : string -> Eff A) : Eff A :=
  fun m =>
    match body m with
    | (Returned a, m') => (Returned a, m')
    | (Thrown e, m') => handler e m'
    end.

(** [for (const x of xs) { body }] *)
Fixpoint forEach {A} (xs : list A) (body : A -> Eff unit) : Eff unit :=
  match xs with
  | [] => ret tt
  | x :: rest => body x ;; forEach rest body
  end.

(** A capture group that the source uses as a string.  On [undefined] the
    method call on it raises a TypeError; a name would be stored under the
    key [undefined] instead, a case that [property_groups] and
    [cssprop_groups] exclude. *)
Definition defined {A} (o : option A) : Eff A :=
  match o with
  | Some a => ret a
  | None => throw "TypeError"
  end.

Definition variables_clear : Eff unit := fun m => (Returned tt, JsMap.clear m).
Definition variables_set (k : string) (v : CSSVariable) : Eff unit :=
  fun m => (Returned tt, JsMap.set k v m).
Definition variables_has (k : string) : Eff bool :=
  fun m => (Returned (JsMap.has k m), m).

(** ** The host: configuration, glob search and file reads *)

Record Host : Type := MkHost {
  (** [config.get('cssGlobPatterns', ...)] *)
  cssGlobPatterns : list string;
  (** [config.get('svelteGlobPatterns', ...)] *)
  svelteGlobPatterns : list string;
  (** [config.get('excludePatterns', ...)] *)
  excludePatterns : list string;
  (** [vscode.workspace.findFiles(include, exclude)], as a list of
      [fsPath]s; [None] is an omitted exclude argument. *)
  findFiles : string -> option string -> list string;
  (** [fs.promises.readFile(path, 'utf-8')]; a rejection is [Thrown]. *)
  readFile : string -> outcome string;
  (** The path shown for a file: relative to its workspace folder when it
      has one, the path itself otherwise. *)
  relativePath : string -> string
}.

Definition awaitReadFile (h : Host) (file : string) : Eff string :=
  fun m => (readFile h file, m).

(** ** Symbol index: [updateVariables] *)

Definition IMPORTANT_CSS : string := "**/node_modules/lutra/**/*.css".
Definition IMPORTANT_SVELTE : string := "**/node_modules/lutra/**/*.svelte".

(** [array.includes(x)] *)
Definition array_includes (x : string) (xs : list string) : bool :=
  existsb (String.eqb x) xs.

Definition importantCssIncludes (h : Host) : list string :=
  if array_includes IMPORTANT_CSS (cssGlobPatterns h) then [IMPORTANT_CSS] else [].

Definition importantSvelteIncludes (h : Host) : list string :=
  if array_includes IMPORTANT_SVELTE (svelteGlobPatterns h) then [IMPORTANT_SVELTE] else [].

(** The exclude glob built from the configured patterns. *)
Definition excludeGlob (h : Host) : string :=
  "{" ++ Js.join "," (excludePatterns h) ++ "}".

(** The files of one pattern: the search result followed by the files of
    every important include. *)
Definition filesOf (h : Host) (important : list string) (pattern : string) : list string :=
  (findFiles h pattern (Some (excludeGlob h))
   ++ flat_map (fun importantPattern => findFiles h importantPattern None) important)%list.

(** [body.match(pattern)?.[1]] *)
Definition field (pattern : regex) (body : string) : option string :=
  match exec pattern body with
  | Some m => group m 1
  | None => None
  end.

(** The description of a formal property declaration. *)
Definition propertyDescription (comment body : string) : string :=
  let syntax := field SYNTAX_PATTERN body in
  let inherits := field INHERITS_PATTERN body in
  let initialValue := field INITIAL_VALUE_PATTERN body in
  Js.join nl
    (Js.filterBoolean
       [ Some (Js.trim comment);
         Some EmptyString;
         Some "```css";
         (if Js.truthy syntax then option_map (append "syntax: ") syntax else None);
         (if Js.truthy inherits then option_map (append "inherits: ") inherits else None);
         (if Js.truthy initialValue
          then option_map (append "initial-value: ") initialValue else None);
         Some "```" ]).

(** Body of the loop over [content.matchAll(PROPERTY_RULE_PATTERN)]. *)
Definition processPropertyMatch (file : string) (m : match_result) : Eff unit :=
  comment <- defined (group m 1) ;;
  name <- defined (group m 2) ;;
  body <- defined (group m 3) ;;
  variables_set name
    (MkVariable name (Some (propertyDescription comment body)) global None file).

(** Body of the loop over [content.matchAll(CSS_VAR_PATTERN)]. *)
Definition processVarMatch (file : string) (m : match_result) : Eff unit :=
  let comment := group m 1 in
  declaration <- defined (group m 2) ;;
  let name := option_map matched (exec VAR_NAME_PATTERN declaration) in
  if Js.truthy name then
    match name with
    | Some name =>
        present <- variables_has name ;;
        if negb present then
          variables_set name
            (MkVariable name (option_map Js.trim comment) global None file)
        else ret tt
    | None => ret tt
    end
  else ret tt.

(** Body of the loop over the files of a stylesheet pattern. *)
Definition processCssFile (h : Host) (file : string) : Eff unit :=
  tryCatch
    (content <- awaitReadFile h file ;;
     forEach (matchAll PROPERTY_RULE_PATTERN content) (processPropertyMatch file) ;;
     forEach (matchAll CSS_VAR_PATTERN content) (processVarMatch file))
    (fun _error => ret tt).

(** Body of the loop over [content.matchAll(CSSPROP_DOC_PATTERN)]. *)
Definition processCsspropMatch (file componentName : string) (m : match_result) : Eff unit :=
  name <- defined (group m 1) ;;
  description <- defined (group m 2) ;;
  variables_set name
    (MkVariable name (Some (Js.trim description)) component (Some componentName) file).

(** Body of the loop over the files of a component pattern. *)
Definition processSvelteFile (h : Host) (file : string) : Eff unit :=
  tryCatch
    (content <- awaitReadFile h file ;;
     let componentName := Path.basename file ".svelte" in
     forEach (matchAll CSSPROP_DOC_PATTERN content) (processCsspropMatch file componentName))
    (fun _error => ret tt).

Definition updateVariables (h : Host) : Eff unit :=
  variables_clear ;;
  forEach (cssGlobPatterns h)
    (fun pattern => forEach (filesOf h (importantCssIncludes h) pattern) (processCssFile h)) ;;
  forEach (svelteGlobPatterns h)
    (fun pattern => forEach (filesOf h (importantSvelteIncludes h) pattern)
                      (processSvelteFile h)).

(** The table after a rebuild that started from table [m]. *)
Definition rebuilt (h : Host) (m : JsMap.t) : JsMap.t := snd (updateVariables h m).

(** ** Completion resolver *)

Record Position : Type := MkPosition {
  line : nat;
  character : nat
}.

Record TextDocument : Type := MkDocument {
  (** [document.getText()] *)
  getText : string;
  (** [document.lineAt(position).text] *)
  lineAt : Position -> string
}.

Inductive CompletionItemKind : Type := KindVariable.

Record CompletionItem : Type := MkItem {
  label : string;
  kind : option CompletionItemKind;
  detail : option string;
  documentation : option string;
  insertText : option string
}.

(** The text the editor inserts for an item: [insertText], and the label
    when [insertText] is not set. *)
Definition insertedText (item : CompletionItem) : string :=
  match insertText item with
  | Some text => text
  | None => label item
  end.

(** [Set<string>] *)
Module JsSet.
Definition t : Type := list string.
Definition has (x : string) (s : t) : bool := existsb (String.eqb x) s.
Definition add (x : string) (s : t) : t := if has x s then s else (s ++ [x])%list.
End JsSet.

(** [getCurrentComponentImports]; it touches no state and throws only if a
    match lacks its first group. *)
Fixpoint collectImports (matches : list match_result) (components : JsSet.t)
  : outcome JsSet.t :=
  match matches with
  | [] => Returned components
  | m :: rest =>
      match group m 1 with
      | Some inner =>
          let imports := map Js.trim (Js.split "," inner) in
          collectImports rest (fold_left (fun acc imp => JsSet.add imp acc) imports components)
      | None => Thrown "TypeError"
      end
  end.

Definition getCurrentComponentImports (document : TextDocument) : outcome JsSet.t :=
  collectImports (matchAll importPattern (getText document)) [].

Definition linePrefixOf (document : TextDocument) (position : Position) : string :=
  Js.substringTo (character position) (lineAt document position).

Definition isVarPattern (linePrefix : string) : bool :=
  Js.includes "var(-" linePrefix && Js.endsWith "-" linePrefix.

Definition isDirectPattern (linePrefix : string) : bool :=
  Js.endsWith "--" linePrefix.

Definition isSvelteAttributePattern (linePrefix : string) : bool :=
  test SVELTE_ATTRIBUTE_PATTERN linePrefix.

(** The filter callback. *)
Definition eligible (importedComponents : JsSet.t) (variable : CSSVariable) : bool :=
  match source variable with
  | global => true
  | component =>
      match componentName variable with
      | Some c => Js.truthy (Some c) && JsSet.has c importedComponents
      | None => false
      end
  end.

(** U+2022 lies outside the modelled range of code units and is kept as
    its three UTF-8 bytes; nothing below depends on it. *)
Definition bullet : string := String "226" (String "128" (String "162" EmptyString)).

(** A template-literal hole holding an optional string. *)
Definition interpolate (o : option string) : string :=
  match o with
  | Some s => s
  | None => "undefined"
  end.

Definition documentationOf (variable : CSSVariable) (rel : string) : option string :=
  if Js.truthy (description variable) then
    Some (Js.join nl [interpolate (description variable); EmptyString; "```";
                      "Source: " ++ rel; "```"])
  else None.

(** The map callback. *)
Definition toCompletionItem (h : Host) (linePrefix : string) (variable : CSSVariable)
  : CompletionItem :=
  let rel := relativePath h (filePath variable) in
  let detailText :=
    match source variable with
    | component =>
        "Lutra " ++ bullet ++ " " ++ interpolate (componentName variable)
        ++ " " ++ bullet ++ " " ++ rel
    | global => "Lutra " ++ bullet ++ " " ++ rel
    end in
  MkItem (name variable) (Some KindVariable) (Some detailText)
    (documentationOf variable rel)
    (if isVarPattern linePrefix then Some (Js.substringFrom 2 (name variable) ++ ")")
     else if isSvelteAttributePattern linePrefix
          then Some (Js.substringFrom 2 (name variable))
          else None).

Definition provideCompletionItems (h : Host) (document : TextDocument) (position : Position)
  : Eff (list CompletionItem) :=
  fun variables =>
    let linePrefix := linePrefixOf document position in
    if negb (isVarPattern linePrefix) && negb (isDirectPattern linePrefix)
       && negb (isSvelteAttributePattern linePrefix)
    then (Returned [], variables)
    else
      match getCurrentComponentImports document with
      | Thrown e => (Thrown e, variables)
      | Returned importedComponents =>
          (Returned
             (map (toCompletionItem h linePrefix)
                (filter (eligible importedComponents) (JsMap.values variables))),
           variables)
      end.

(** ** The rebuild seen as a sequence of writes

    Every statement of [updateVariables] that touches the table is either
    an unconditional [set] (formal property declarations, documentation
    tags) or a [set] guarded by [!has] (plain declarations).  The
    definitions below name the variable each match stores and list the
    writes in traversal order; [updateVariables_writes] proves that the
    rebuild is exactly the fold of these writes. *)

Inductive write : Type :=
| Put (v : CSSVariable)             (* this.variables.set(name, v) *)
| PutIfAbsent (v : CSSVariable).    (* if (!this.variables.has(name)) set(name, v) *)

Definition applyWrite (m : JsMap.t) (w : write) : JsMap.t :=
  match w with
  | Put v => JsMap.set (name v) v m
  | PutIfAbsent v => if JsMap.has (name v) m then m else JsMap.set (name v) v m
  end.

Definition listOf {A} (o : option A) : list A :=
  match o with
  | Some a => [a]
  | None => []
  end.

Definition collect {A} (f : match_result -> option A) (ms : list match_result) : list A :=
  flat_map (fun m => listOf (f m)) ms.

(** The variable stored for one match of [PROPERTY_RULE_PATTERN]. *)
Definition propertyVariable (file : string) (m : match_result) : option CSSVariable :=
  match group m 1, group m 2, group m 3 with
  | Some comment, Some nm, Some body =>
      Some (MkVariable nm (Some (propertyDescription comment body)) global None file)
  | _, _, _ => None
  end.

(** The variable a match of [CSS_VAR_PATTERN] stores when its name is not
    in the table yet. *)
Definition plainVariable (file : string) (m : match_result) : option CSSVariable :=
  match group m 2 with
  | Some declaration =>
      match exec VAR_NAME_PATTERN declaration with
      | Some found =>
          if Js.truthy (Some (matched found))
          then Some (MkVariable (matched found) (option_map Js.trim (group m 1))
                       global None file)
          else None
      | None => None
      end
  | None => None
  end.

(** The variable stored for one match of [CSSPROP_DOC_PATTERN]. *)
Definition tagVariable (file : string) (m : match_result) : option CSSVariable :=
  match group m 1, group m 2 with
  | Some nm, Some text =>
      Some (MkVariable nm (Some (Js.trim text)) component
              (Some (Path.basename file ".svelte")) file)
  | _, _ => None
  end.

Definition formalVariables (file content : string) : list CSSVariable :=
  collect (propertyVariable file) (matchAll PROPERTY_RULE_PATTERN content).

Definition plainVariables (file content : string) : list CSSVariable :=
  collect (plainVariable file) (matchAll CSS_VAR_PATTERN content).

Definition tagVariables (file content : string) : list CSSVariable :=
  collect (tagVariable file) (matchAll CSSPROP_DOC_PATTERN content).

(** Stylesheet files in the order the rebuild visits them (a file found
    by several patterns is visited several times). *)
Definition cssFiles (h : Host) : list string :=
  flat_map (filesOf h (importantCssIncludes h)) (cssGlobPatterns h).

(** Component files in the order the rebuild visits them. *)
Definition svelteFiles (h : Host) : list string :=
  flat_map (filesOf h (importantSvelteIncludes h)) (svelteGlobPatterns h).

(** What a file contributes, given what reading it yields. *)
Definition whenRead {A} (h : Host) (file : string) (f : string -> list A) : list A :=
  match readFile h file with
  | Returned content => f content
  | Thrown _ => []
  end.

Definition cssFileWrites (h : Host) (file : string) : list write :=
  whenRead h file (fun content =>
    map Put (formalVariables file content)
    ++ map PutIfAbsent (plainVariables file content))%list.

Definition svelteFileWrites (h : Host) (file : string) : list write :=
  whenRead h file (fun content => map Put (tagVariables file content)).

Definition allWrites (h : Host) : list write :=
  (flat_map (cssFileWrites h) (cssFiles h)
   ++ flat_map (svelteFileWrites h) (svelteFiles h))%list.

(** Formal property declarations of all stylesheets, in traversal order. *)
Definition formalWrites (h : Host) : list CSSVariable :=
  flat_map (fun file => whenRead h file (formalVariables file)) (cssFiles h).

(** Plain declarations of all stylesheets, in traversal order. *)
Definition plainWrites (h : Host) : list CSSVariable :=
  flat_map (fun file => whenRead h file (plainVariables file)) (cssFiles h).

(** Documentation tags of all component files, in traversal order. *)
Definition tagWrites (h : Host) : list CSSVariable :=
  flat_map (fun file => whenRead h file (tagVariables file)) (svelteFiles h).

(** The unconditional writes of a rebuild, in the order they happen. *)
Definition unconditionalWrites (h : Host) : list CSSVariable :=
  (formalWrites h ++ tagWrites h)%list.

(** The last variable named [nm] in a list. *)
Definition lastNamed (nm : string) (vs : list CSSVariable) : option CSSVariable :=
  fold_left (fun acc v => if String.eqb (name v) nm then Some v else acc) vs None.

(** The first variable named [nm] in a list. *)
Definition firstNamed (nm : string) (vs : list CSSVariable) : option CSSVariable :=
  find (fun v => String.eqb (name v) nm) vs.

Definition conditional (ws : list write) : list CSSVariable :=
  flat_map (fun w => match w with Put _ => [] | PutIfAbsent v => [v] end) ws.

Definition unconditional (ws : list write) : list CSSVariable :=
  flat_map (fun w => match w with Put v => [v] | PutIfAbsent _ => [] end) ws.

Definition writeStep (nm : string) (acc : option CSSVariable) (w : write)
  : option CSSVariable :=
  match w with
  | Put v => if String.eqb (name v) nm then Some v else acc
  | PutIfAbsent v =>
      if String.eqb (name v) nm
      then match acc with Some _ => acc | None => Some v end
      else acc
  end.

(** ** Notions used in the statements *)

(** The table invariant of the data model: a component variable carries the
    (non-empty) name of its component. *)
Definition table_wf (m : JsMap.t) : Prop :=
  forall v, In v (JsMap.values m) -> source v = component ->
            exists c, componentName v = Some c /\ c <> EmptyString.

(** The same workspace with file [bad] absent from every search result. *)
Definition withoutFile (bad : string) (h : Host) : Host :=
  MkHost (cssGlobPatterns h) (svelteGlobPatterns h) (excludePatterns h)
    (fun include exclude =>
       filter (fun f => negb (String.eqb f bad)) (findFiles h include exclude))
    (readFile h) (relativePath h).

(** The variable behind a write, and every declaration of a rebuild in
    traversal order, plain ones included. *)
Definition written (w : write) : CSSVariable :=
  match w with
  | Put v => v
  | PutIfAbsent v => v
  end.

Definition declarations (h : Host) : list CSSVariable := map written (allWrites h).

(** Last writer wins, as the specification words it: the entry of a name
    is the variable of its last declaration of any kind. *)
Definition lastDeclarationWins (h : Host) : Prop :=
  forall nm v, lastNamed nm (declarations h) = Some v ->
               JsMap.get nm (rebuilt h []) = Some v.

(** The description of a formal declaration none of whose fields is
    present: the trimmed comment and an empty fenced block. *)
Definition emptyFence (comment : string) : string :=
  match Js.trim comment with
  | EmptyString => "```css" ++ nl ++ "```"
  | text => text ++ nl ++ "```css" ++ nl ++ "```"
  end.

(** ** Sample workspaces and documents *)

Module Sample.

Definition lookup {A} (default : A) (table : list (string * A)) (key : string) : A :=
  match find (fun entry => String.eqb (fst entry) key) table with
  | Some entry => snd entry
  | None => default
  end.

(** A workspace given by the files each include pattern finds and by the
    contents of the files.  The files of an important include, searched
    without an exclude glob, are listed under the pattern followed by an
    exclamation mark; a file without content cannot be read. *)
Definition workspace (css svelte : list string)
           (found : list (string * list string)) (contents : list (string * string))
  : Host :=
  MkHost css svelte ["**/node_modules/**"; "**/dist/**"; "**/build/**"]
    (fun include exclude =>
       match exclude with
       | Some _ => lookup [] found include
       | None => if String.eqb include IMPORTANT_SVELTE || String.eqb include IMPORTANT_CSS
                 then lookup [] found (include ++ "!") else []
       end)
    (fun file =>
       match find (fun entry => String.eqb (fst entry) file) contents with
       | Some entry => Returned (snd entry)
       | None => Thrown "ENOENT"
       end)
    (fun file => file).

Definition themeCss : string :=
  "/** Brand color */" ++ nl
  ++ "@property --brand { syntax: '<color>'; inherits: false; initial-value: red; }" ++ nl
  ++ ":root { --brand: blue; --gap: 4px; }".

Definition buttonSvelte : string :=
  "<!--" ++ nl ++ "@cssprop --foo - bar baz" ++ nl
  ++ "@cssprop --btn-size - Controls button size" ++ nl ++ "-->".

(** One stylesheet, one stylesheet that cannot be read, one component of
    the library (found through the important include only). *)
Definition project : Host :=
  workspace ["**/*.css"] [IMPORTANT_SVELTE]
    [("**/*.css", ["/w/theme.css"; "/w/gone.css"]);
     (IMPORTANT_SVELTE ++ "!", ["/w/node_modules/lutra/Button.svelte"])]
    [("/w/theme.css", themeCss);
     ("/w/node_modules/lutra/Button.svelte", buttonSvelte)].

(** A formal declaration whose body names none of the three fields. *)
Definition bareCss : string :=
  "/** Brand */" ++ nl ++ "@property --brand { color: red; }".

Definition bareProject : Host :=
  workspace ["**/*.css"] [] [("**/*.css", ["/w/bare.css"])] [("/w/bare.css", bareCss)].

(** Two stylesheets declaring the same name: the first formally, the
    second plainly. *)
Definition firstCss : string :=
  "/** first */" ++ nl ++ "@property --x { syntax: '<length>'; }".

Definition secondCss : string := "/* second */" ++ nl ++ "--x: 2px;".

Definition collidingProject : Host :=
  workspace ["**/*.css"] [] [("**/*.css", ["/w/a.css"; "/w/b.css"])]
    [("/w/a.css", firstCss); ("/w/b.css", secondCss)].

(** A document whose current line is [text], importing Button. *)
Definition documentWithLine (text : string) : TextDocument :=
  MkDocument ("import { Button } from 'lutra';" ++ nl ++ text) (fun _ => text).

Definition endOfLine (text : string) : Position := MkPosition 1 (String.length text).

Definition fooBar : CSSVariable :=
  MkVariable "--foo-bar" (Some "A variable") global None "/w/theme.css".

End Sample.

(** ** Activation: [activate]

    The extension starts only in a workspace one of whose [package.json]
    files names the library or depends on it. *)

(** A value returned by [JSON.parse].  Of a number the code only tests
    the truthiness: [zero] tells whether it is [0] or [-0].  The
    [properties] of an object are its own properties, each key once. *)
#[warnings="-register-all"] Inductive Json : Type :=
| JNull
| JBool (b : bool)
| JNumber (zero : bool)
| JString (s : string)
| JArray (items : list Json)
| JObject (properties : list (string * Json)).

(** Truthiness of a value; [None] is [undefined]. *)
Definition jsonTruthy (v : option Json) : bool :=
  match v with
  | None => false
  | Some JNull => false
  | Some (JBool b) => b
  | Some (JNumber zero) => negb zero
  | Some (JString s) => Js.truthy (Some s)
  | Some (JArray _) => true
  | Some (JObject _) => true
  end.

(** The own property [key] of a parsed object. *)
Fixpoint ownProperty (key : string) (properties : list (string * Json)) : option Json :=
  match properties with
  | [] => None
  | (k, v) :: rest => if String.eqb k key then Some v else ownProperty key rest
  end.

(** [v.key] for the keys the code reads ([name], [dependencies],
    [devDependencies], [lutra]): a TypeError on [null] and [undefined], the
    own property of an object, [undefined] on the other values, whose
    prototypes have none of these keys. *)
Definition getProperty (v : option Json) (key : string) : outcome (option Json) :=
  match v with
  | None => Thrown "TypeError"
  | Some JNull => Thrown "TypeError"
  | Some (JObject properties) => Returned (ownProperty key properties)
  | Some _ => Returned None
  end.

(** [v === 'lutra'] *)
Definition isLutra (v : option Json) : bool :=
  match v with
  | Some (JString s) => String.eqb s "lutra"
  | _ => false
  end.

(** [packageJson.field && packageJson.field.lutra], as its truthiness. *)
Definition dependsOnLutra (packageJson : Json) (field : string) : outcome bool :=
  match getProperty (Some packageJson) field with
  | Thrown e => Thrown e
  | Returned dependencies =>
      if jsonTruthy dependencies then
        match getProperty dependencies "lutra" with
        | Thrown e => Thrown e
        | Returned version => Returned (jsonTruthy version)
        end
      else Returned false
  end.

(** The test of the loop over the package files:
    [packageJson.name === 'lutra' || (dependencies && dependencies.lutra)
     || (devDependencies && devDependencies.lutra)]. *)
Definition declaresLutra (packageJson : Json) : outcome bool :=
  match getProperty (Some packageJson) "name" with
  | Thrown e => Thrown e
  | Returned packageName =>
      if isLutra packageName then Returned true
      else
        match dependsOnLutra packageJson "dependencies" with
        | Thrown e => Thrown e
        | Returned true => Returned true
        | Returned false => dependsOnLutra packageJson "devDependencies"
        end
  end.

(** What [activate] asks of the editor besides the workspace files. *)
Record Editor : Type := MkEditor {
  (** [vscode.workspace.workspaceFolders]: [undefined] or the folders *)
  workspaceFolders : option (list string);
  (** glob search and file reads *)
  workspace : Host;
  (** [JSON.parse(content)] *)
  parseJson : string -> outcome Json;
  (** [new CSSVariableCompletionProvider()], which starts a rebuild and
      creates the file watchers *)
  newProvider : outcome unit;
  (** [vscode.languages.registerCompletionItemProvider(selector, provider, '-')] *)
  registerCompletionItemProvider : outcome unit;
  (** [vscode.commands.registerCommand('lutra.rescanCSSVariables', ...)] *)
  registerCommand : outcome unit
}.

(** What [activate] pushes on [context.subscriptions]. *)
Inductive Subscription : Type :=
| CompletionProvider (selector : list (string * string)) (triggerCharacter : string)
| Command (command : string).

(** The loop over the package files: [hasLutra] when it ends, or the
    error that leaves it. *)
Fixpoint hasLutra (e : Editor) (packageJsonFiles : list string) : outcome bool :=
  match packageJsonFiles with
  | [] => Returned false
  | packageJsonUri :: rest =>
      match readFile (workspace e) packageJsonUri with
      | Thrown error => Thrown error
      | Returned content =>
          match parseJson e content with
          | Thrown error => Thrown error
          | Returned packageJson =>
              match declaresLutra packageJson with
              | Thrown error => Thrown error
              | Returned true => Returned true
              | Returned false => hasLutra e rest
              end
          end
      end
  end.

Definition packageJsonFiles (e : Editor) : list string :=
  findFiles (workspace e) "**/package.json" (Some "**/node_modules/**").

Definition selector : list (string * string) := [("file", "css"); ("file", "svelte")].

(** [activate(context)], on [context.subscriptions]. *)
Definition activate (e : Editor) (subscriptions : list Subscription)
  : outcome unit * list Subscription :=
  match workspaceFolders e with
  | None => (Returned tt, subscriptions)
  | Some [] => (Returned tt, subscriptions)
  | Some (_ :: _) =>
      match hasLutra e (packageJsonFiles e) with
      | Thrown _error => (Returned tt, subscriptions)
      | Returned false => (Returned tt, subscriptions)
      | Returned true =>
          match newProvider e with
          | Thrown error => (Thrown error, subscriptions)
          | Returned _ =>
              match registerCompletionItemProvider e with
              | Thrown error => (Thrown error, subscriptions)
              | Returned _ =>
                  let withProvider :=
                    (subscriptions ++ [CompletionProvider selector "-"])%list in
                  match registerCommand e with
                  | Thrown error => (Thrown error, withProvider)
                  | Returned _ =>
                      (Returned tt,
                       (withProvider ++ [Command "lutra.rescanCSSVariables"])%list)
                  end
              end
          end
      end
  end.

(** ** More notions used in the statements *)

(** The table after the visit of the files [files] by one loop. *)
Definition visited (body : string -> Eff unit) (files : list string) (m : JsMap.t)
  : JsMap.t :=
  snd (forEach files body m).

(** Where a stored variable comes from: a file of this rebuild that could
    be read; a global one from a stylesheet, without component name; a
    component one from a component file, named after the file. *)
Definition provenance (h : Host) (v : CSSVariable) : Prop :=
  (exists content, readFile h (filePath v) = Returned content)
  /\ ((source v = global /\ componentName v = None /\ In (filePath v) (cssFiles h))
      \/ (source v = component
          /\ componentName v = Some (Path.basename (filePath v) ".svelte")
          /\ In (filePath v) (svelteFiles h))).

(** The characters of a lead: neither a closing brace nor a dash. *)
Definition no_brace_no_dash (a : ascii) : bool :=
  Js.not_char "}" a && Js.not_char "-" a.

(** The names a document imports: the trimmed pieces between commas of
    the braces of its import statements from the library. *)
Definition importedNames (text : string) : list string :=
  flat_map (fun m => match group m 1 with
                     | Some inner => map Js.trim (Js.split "," inner)
                     | None => []
                     end)
    (matchAll importPattern text).

(** [variable.source === 'global'] *)
Definition isGlobal (variable : CSSVariable) : bool :=
  match source variable with
  | global => true
  | component => false
  end.

(** C1 as stated, for the files of [h]: a stylesheet that holds a formal
    and a plain declaration of a name has, in the rebuilt table, an entry
    of origin global under the name, described from the formal
    declaration. *)
Definition formalDeclarationIndexed (h : Host) : Prop :=
  forall (file content : string) (pm vm : match_result)
         (comment nm body declaration : string),
    In file (cssFiles h) ->
    readFile h file = Returned content ->
    In pm (matchAll PROPERTY_RULE_PATTERN content) ->
    group pm 1 = Some comment -> group pm 2 = Some nm -> group pm 3 = Some body ->
    In vm (matchAll CSS_VAR_PATTERN content) ->
    group vm 2 = Some declaration ->
    option_map matched (exec VAR_NAME_PATTERN declaration) = Some nm ->
    exists v,
      JsMap.get nm (rebuilt h []) = Some v
      /\ source v = global
      /\ description v = Some (propertyDescription comment body).


(** The host [h] with [found] as the result of every search without an
    exclude glob. *)
Definition withUnexcluded (found : string -> list string) (h : Host) : Host :=
  MkHost (cssGlobPatterns h) (svelteGlobPatterns h) (excludePatterns h)
    (fun include exclude =>
       match exclude with
       | Some _ => findFiles h include exclude
       | None => found include
       end)
    (readFile h) (relativePath h).

(** A package file as the editor sees it: readable, parsed to
    [packageJson]. *)
Definition parsesTo (e : Editor) (file : string) (packageJson : Json) : Prop :=
  exists content,
    readFile (workspace e) file = Returned content
    /\ parseJson e content = Returned packageJson.

(** A package file the loop cannot get past: unreadable, not JSON, or the
    JSON value [null]. *)
Definition unusable (e : Editor) (file : string) : Prop :=
  (exists error, readFile (workspace e) file = Thrown error)
  \/ (exists content error,
         readFile (workspace e) file = Returned content
         /\ parseJson e content = Thrown error)
  \/ parsesTo e file JNull.

(** A package file that is read and parsed and does not declare the
    library. *)
Definition silent (e : Editor) (file : string) : Prop :=
  exists packageJson,
    parsesTo e file packageJson /\ declaresLutra packageJson = Returned false.

(** A package file that is read and parsed and declares the library. *)
Definition declaring (e : Editor) (file : string) : Prop :=
  exists packageJson,
    parsesTo e file packageJson /\ declaresLutra packageJson = Returned true.

(** A dependency table counts when it is an object whose own property
    [lutra] is truthy. *)
Definition lists_lutra (dependencies : option Json) : Prop :=
  exists properties version,
    dependencies = Some (JObject properties)
    /\ ownProperty "lutra" properties = Some version
    /\ jsonTruthy (Some version) = true.

(** ** More samples *)

Module Scenario.

(** A parser for the package files of the samples. *)
Definition parse (content : string) : outcome Json :=
  if String.eqb content "app" then
    Returned (JObject [("name", JString "app");
                       ("devDependencies", JObject [("lutra", JString "^0.1.0")])])
  else if String.eqb content "tool" then
    Returned (JObject [("name", JString "tool"); ("dependencies", JObject [])])
  else Thrown "SyntaxError".

(** A workspace with a tool package, an application that depends on the
    library, and a package file that is not JSON; [construction] is what
    making the provider yields. *)
Definition editor (files : list string) (construction : outcome unit) : Editor :=
  MkEditor (Some ["/w"])
    (Sample.workspace [] [] [("**/package.json", files)]
       [("/w/tool/package.json", "tool"); ("/w/app/package.json", "app");
        ("/w/broken/package.json", "{")])
    parse construction (Returned tt) (Returned tt).

(** A stylesheet whose declaration follows a selector and a comment. *)
Definition rootProject : Host :=
  Sample.workspace ["**/*.css"] [] [("**/*.css", ["/w/root.css"])]
    [("/w/root.css",
      ":root {" ++ nl ++ "  /* Brand color */" ++ nl ++ "  --brand: #123;" ++ nl ++ "}")].

(** A component whose tag has no text on its own line. *)
Definition cardProject : Host :=
  Sample.workspace [] ["**/*.svelte"] [("**/*.svelte", ["/w/Card.svelte"])]
    [("/w/Card.svelte", "<!-- @cssprop --size -" ++ nl ++ "-->")].

(** A component page that imports two components of the library. *)
Definition page : TextDocument :=
  MkDocument ("<script>" ++ nl ++ "  import { Button, Card } from 'lutra';" ++ nl
              ++ "</script>" ++ nl ++ "<Button --")
    (fun _ => "<Button --").

(** A stylesheet, which imports nothing. *)
Definition sheet : TextDocument :=
  MkDocument "a { color: -- }" (fun _ => "a { color: --").


(** Two stylesheets with a plain declaration of one name each. *)
Definition twiceProject : Host :=
  Sample.workspace ["**/*.css"] [] [("**/*.css", ["/w/a.css"; "/w/b.css"])]
    [("/w/a.css", "--x: 1px;"); ("/w/b.css", "--x: 2px;")].

(** The default patterns, with a stylesheet of the library under the
    excluded folder. *)
Definition defaultProject : Host :=
  Sample.workspace ["**/*.css"; IMPORTANT_CSS] [IMPORTANT_SVELTE]
    [("**/*.css", ["/w/app.css"]);
     (IMPORTANT_CSS ++ "!", ["/w/node_modules/lutra/theme.css"])]
    [("/w/app.css", "--app: 1;"); ("/w/node_modules/lutra/theme.css", "--lib: 2;")].

(** The stylesheet of the sample project and a component whose tag
    documents the name the stylesheet declares. *)
Definition shadowedProject : Host :=
  Sample.workspace ["**/*.css"] ["**/*.svelte"]
    [("**/*.css", ["/w/theme.css"]); ("**/*.svelte", ["/w/Badge.svelte"])]
    [("/w/theme.css", Sample.themeCss);
     ("/w/Badge.svelte", "@cssprop --brand - Badge color")].


(** A stylesheet whose declaration follows a reference to another
    variable in the same block. *)
Definition referenceProject : Host :=
  Sample.workspace ["**/*.css"] [] [("**/*.css", ["/w/ref.css"])]
    [("/w/ref.css", ":root { color: var(--other); --brand: blue; }")].

(** A configuration without the library's patterns, in a workspace that
    holds a stylesheet of the library. *)
Definition appOnlyProject : Host :=
  Sample.workspace ["**/*.css"] ["**/*.svelte"] [("**/*.css", ["/w/app.css"])]
    [("/w/app.css", "--app: 1;"); ("/w/node_modules/lutra/theme.css", "--lib: 2;")].

(** The table of the sample project, as a completion request finds it. *)
Definition table : JsMap.t := rebuilt Sample.project [].

End Scenario.

(** * Properties *)

(** ** Regular expressions: groups that every match defines *)

Module RegexFacts.

Lemma lit_reaches {R} (l : string) :
  forall (k : @cont R) s c res,
    lit l k s c = Some res -> exists s', k s' c = Some res.
Proof.
  induction l as [|a l IH]; intros k s c res H; simpl in H.
  - now exists s.
  - destruct s as [|b s]; [discriminate|].
    destruct (Ascii.eqb a b); [|discriminate].
    now apply IH in H.
Qed.

Ltac split_option H :=
  unfold orElse in H;
  repeat match type of H with
         | match ?x with _ => _ end = Some _ =>
             let E := fresh "E" in destruct x eqn:E; try discriminate
         end.

Lemma rep_reaches {R} (cls : ascii -> bool) (greedy : bool) :
  forall s min (k : @cont R) c res,
    rep cls greedy min k s c = Some res -> exists s', k s' c = Some res.
Proof.
  induction s as [|a s IH]; intros min k c res H; simpl in H.
  - destruct greedy, min; simpl in H; split_option H;
      inversion H; subst; now exists EmptyString.
  - destruct (cls a) eqn:Ha.
    + destruct greedy; unfold orElse in H.
      * destruct (rep cls true (pred min) k s c) eqn:E.
        -- inversion H; subst. now apply IH in E.
        -- destruct min; [now exists (String a s)|discriminate].
      * destruct min.
        -- destruct (k (String a s) c) eqn:E.
           ++ inversion H; subst. now exists (String a s).
           ++ now apply IH in H.
        -- now apply IH in H.
    + destruct greedy, min; simpl in H; split_option H;
        inversion H; subst; now exists (String a s).
Qed.

Lemma run_binds {R} (r : regex) :
  forall (k : @cont R) s c res,
    run r k s c = Some res ->
    exists s' c',
      k s' c' = Some res
      /\ (forall n, capture c n <> None -> capture c' n <> None)
      /\ (forall n, binds n r = true -> capture c' n <> None).
Proof.
  induction r as [l|cls|cls min greedy|r1 IH1 r2 IH2|r1 IH1 r2 IH2|r1 IH1|g r1 IH1|];
    intros k s c res H; simpl in H.
  - apply lit_reaches in H as [s' H]. exists s', c. simpl. intuition discriminate.
  - destruct s as [|a s]; [discriminate|]. destruct (cls a); [|discriminate].
    exists s, c. simpl. intuition discriminate.
  - apply rep_reaches in H as [s' H]. exists s', c. simpl. intuition discriminate.
  - apply IH1 in H as (s1 & c1 & H & M1 & B1).
    apply IH2 in H as (s2 & c2 & H & M2 & B2).
    exists s2, c2. split; [assumption|]. split.
    + intros n Hn. auto.
    + intros n Hn. simpl in Hn. apply orb_true_iff in Hn as [Hn|Hn]; auto.
  - unfold orElse in H. destruct (run r1 k s c) eqn:E.
    + inversion H; subst. apply IH1 in E as (s1 & c1 & E & M1 & B1).
      exists s1, c1. repeat split; auto.
      intros n Hn. simpl in Hn. apply andb_true_iff in Hn as [Hn _]. auto.
    + apply IH2 in H as (s2 & c2 & H & M2 & B2).
      exists s2, c2. repeat split; auto.
      intros n Hn. simpl in Hn. apply andb_true_iff in Hn as [_ Hn]. auto.
  - unfold orElse in H.
    match type of H with
    | match ?body with _ => _ end = _ => destruct body eqn:E
    end.
    + inversion H; subst. apply IH1 in E as (s1 & c1 & E & M1 & _).
      destruct (String.length s1 =? String.length s)%nat; [discriminate|].
      exists s1, c1. simpl. intuition discriminate.
    + exists s, c. simpl. intuition discriminate.
  - apply IH1 in H as (s1 & c1 & H & M1 & B1).
    exists s1, ((g, consumed s s1) :: c1). split; [assumption|]. split.
    + intros n Hn. simpl. destruct (g =? n)%nat; [discriminate|auto].
    + intros n Hn. simpl in *. destruct (g =? n)%nat; [discriminate|auto].
  - destruct s; [|discriminate]. exists EmptyString, c. simpl. intuition discriminate.
Qed.

Lemma match_at_binds (r : regex) (s : string) (m : match_result) (n : nat) :
  match_at r s = Some m -> binds n r = true -> group m n <> None.
Proof.
  unfold match_at. intros H Hb.
  apply run_binds in H as (s' & c' & H & _ & B).
  inversion H; subst. unfold group; simpl. auto.
Qed.

(** Every element of [matchAll] is an anchored match at some position. *)
Lemma matchAll_from_anchored (r : regex) (m : match_result) :
  forall s skip, In m (matchAll_from r skip s) -> exists s', match_at r s' = Some m.
Proof.
  induction s as [|a s IH]; intros skip H.
  - destruct skip; simpl in H; [|contradiction].
    destruct (match_at r EmptyString) eqn:E; [|contradiction].
    destruct H as [H|[]]; subst. eauto.
  - destruct skip; simpl in H; [|eauto].
    destruct (match_at r (String a s)) eqn:E; [|eauto].
    destruct H as [H|H]; subst; eauto.
Qed.

Lemma matchAll_binds (r : regex) (s : string) (m : match_result) (n : nat) :
  In m (matchAll r s) -> binds n r = true -> group m n <> None.
Proof.
  intros H Hb. apply matchAll_from_anchored in H as [s' H].
  eapply match_at_binds; eauto.
Qed.

Lemma exec_anchored (r : regex) (m : match_result) :
  forall s, exec r s = Some m -> exists s', match_at r s' = Some m.
Proof.
  induction s as [|a s IH]; simpl; intros H.
  - destruct (match_at r EmptyString) eqn:E; [inversion H; subst; eauto|discriminate].
  - destruct (match_at r (String a s)) eqn:E; [inversion H; subst; eauto|auto].
Qed.

End RegexFacts.

(** ** String primitives and the attribute test *)

Module JsFacts.

Lemma prefix_app (sub s : string) :
  prefix sub s = true <-> exists post, s = sub ++ post.
Proof.
  revert s. induction sub as [|a sub IH]; intros [|b s]; simpl.
  - split; [now exists EmptyString|reflexivity].
  - split; [now exists (String b s)|reflexivity].
  - split; [discriminate|intros [post H]; discriminate].
  - destruct (ascii_dec a b) as [->|Hne].
    + rewrite IH. split; intros [post H]; exists post; [now rewrite H|now inversion H].
    + split; [discriminate|intros [post H]; inversion H; congruence].
Qed.

Lemma includes_spec (sub s : string) :
  Js.includes sub s = true <-> exists pre post, s = pre ++ sub ++ post.
Proof.
  induction s as [|a s IH]; cbn [Js.includes]; rewrite orb_true_iff, prefix_app.
  - split.
    + intros [[post H]|H]; [exists EmptyString, post; exact H|discriminate].
    + intros (pre & post & H). left. destruct pre; [now exists post|discriminate].
  - rewrite IH. split.
    + intros [[post H]|(pre & post & H)].
      * exists EmptyString, post. exact H.
      * exists (String a pre), post. simpl. now rewrite H.
    + intros (pre & post & H). destruct pre as [|b pre]; simpl in H.
      * left. now exists post.
      * right. inversion H. now exists pre, post.
Qed.

Lemma endsWith_spec (suf s : string) :
  Js.endsWith suf s = true <-> exists pre, s = pre ++ suf.
Proof.
  induction s as [|a s IH]; cbn [Js.endsWith]; rewrite orb_true_iff, String.eqb_eq.
  - split.
    + intros [<-|H]; [now exists EmptyString|discriminate].
    + intros (pre & H). left. destruct pre; [exact H|discriminate].
  - rewrite IH. split.
    + intros [<-|(pre & ->)]; [now exists EmptyString|now exists (String a pre)].
    + intros (pre & H). destruct pre as [|b pre]; simpl in H.
      * now left.
      * right. inversion H. now exists pre.
Qed.

(** [trimStart] removes a run of blanks and stops at the first other
    character. *)
Lemma trimStart_spec (s : string) :
  exists blank,
    s = blank ++ Js.trimStart s
    /\ Js.all Js.is_space blank = true
    /\ Js.stops Js.is_space (Js.trimStart s).
Proof.
  induction s as [|a s (blank & Hs & Hblank & Hstop)]; simpl.
  - now exists EmptyString.
  - destruct (Js.is_space a) eqn:Ha.
    + exists (String a blank). simpl. rewrite Ha, Hblank, <- Hs. auto.
    + exists EmptyString. simpl. auto.
Qed.

(** [trimEnd] removes a final run of blanks and nothing else. *)
Lemma trimEnd_spec (s : string) :
  exists blank,
    s = Js.trimEnd s ++ blank
    /\ Js.all Js.is_space blank = true
    /\ (forall pre a, Js.trimEnd s = pre ++ String a EmptyString -> Js.is_space a = false).
Proof.
  induction s as [|a s (blank & Hs & Hblank & Hlast)]; simpl.
  - exists EmptyString. split; [reflexivity|]. split; [reflexivity|].
    intros [|b pre] a H; discriminate.
  - destruct (Js.trimEnd s) as [|b t] eqn:E.
    + simpl in Hs. subst blank. destruct (Js.is_space a) eqn:Ha.
      * exists (String a s). split; [reflexivity|]. split; [simpl; now rewrite Ha|].
        intros [|c pre] d H; discriminate.
      * exists s. split; [reflexivity|]. split; [assumption|].
        intros [|c pre] d H; inversion H; subst; [assumption|].
        destruct pre; discriminate.
    + exists blank. split; [simpl; now rewrite Hs at 1|]. split; [assumption|].
      intros [|c pre] d H; inversion H; subst.
      eapply Hlast; eauto.
Qed.

(** The attribute test: a blank, two dashes, end of the prefix. *)
Lemma match_at_attribute (s : string) (m : match_result) :
  match_at SVELTE_ATTRIBUTE_PATTERN s = Some m ->
  exists c, Js.is_space c = true /\ s = String c "--".
Proof.
  unfold match_at, SVELTE_ATTRIBUTE_PATTERN. cbn -[Ascii.eqb Js.is_space].
  destruct s as [|c s]; [discriminate|].
  destruct (Js.is_space c) eqn:Hc; [|discriminate].
  destruct s as [|d1 s]; [discriminate|].
  destruct (Ascii.eqb_spec "-" d1) as [<-|]; [|discriminate].
  destruct s as [|d2 s]; [discriminate|].
  destruct (Ascii.eqb_spec "-" d2) as [<-|]; [|discriminate].
  destruct s; [|discriminate]. eauto.
Qed.

Lemma isSvelteAttributePattern_spec (s : string) :
  isSvelteAttributePattern s = true <->
  exists pre c, Js.is_space c = true /\ s = pre ++ String c "--".
Proof.
  unfold isSvelteAttributePattern, test. split.
  - destruct (exec SVELTE_ATTRIBUTE_PATTERN s) as [m|] eqn:E; [intros _|discriminate].
    revert E. induction s as [|a s IH]; simpl.
    + destruct (match_at SVELTE_ATTRIBUTE_PATTERN EmptyString) eqn:E; [|discriminate].
      apply match_at_attribute in E as (c & _ & H). discriminate.
    + destruct (match_at SVELTE_ATTRIBUTE_PATTERN (String a s)) eqn:E.
      * apply match_at_attribute in E as (c & Hc & H). intros _.
        exists EmptyString, c. auto.
      * intros H. destruct (IH H) as (pre & c & Hc & ->).
        exists (String a pre), c. auto.
  - intros (pre & c & Hc & ->).
    induction pre as [|a pre IH]; simpl.
    + unfold match_at. cbn -[Ascii.eqb Js.is_space]. rewrite Hc. reflexivity.
    + destruct (match_at SVELTE_ATTRIBUTE_PATTERN (String a (pre ++ String c "--")));
        [reflexivity|exact IH].
Qed.

(** The attribute test implies the direct test. *)
Lemma attribute_implies_direct (s : string) :
  isSvelteAttributePattern s = true -> isDirectPattern s = true.
Proof.
  intros H. apply isSvelteAttributePattern_spec in H as (pre & c & _ & ->).
  apply endsWith_spec. exists (pre ++ String c EmptyString).
  induction pre as [|a pre IH]; simpl; [reflexivity|]. now rewrite IH.
Qed.

End JsFacts.

(** ** The documented syntax is recognised *)

Module SyntaxFacts.

Lemma append_length (x y : string) :
  String.length (x ++ y) = String.length x + String.length y.
Proof.
  induction x as [|a x IH]; simpl; [reflexivity|now rewrite IH].
Qed.

Lemma append_assoc (x y z : string) : (x ++ y) ++ z = x ++ y ++ z.
Proof.
  induction x as [|a x IH]; simpl; [reflexivity|now rewrite IH].
Qed.

Lemma consumed_app (x rest : string) : consumed (x ++ rest) rest = x.
Proof.
  unfold consumed. rewrite append_length.
  replace (String.length x + String.length rest - String.length rest)
    with (String.length x) by lia.
  induction x as [|a x IH]; simpl; [now destruct rest|now rewrite IH].
Qed.

Lemma consumed_eq (s rest x : string) : s = x ++ rest -> consumed s rest = x.
Proof.
  intros ->. apply consumed_app.
Qed.

Lemma lit_app {R} (l : string) (k : @cont R) (s : string) (c : captures) :
  lit l k (l ++ s) c = k s c.
Proof.
  induction l as [|a l IH]; simpl; [reflexivity|].
  now rewrite Ascii.eqb_refl.
Qed.

(** A greedy repetition takes the longest run of the class when what
    follows matches. *)
Lemma rep_greedy_munch {R} (cls : ascii -> bool) (k : @cont R) (rest : string)
      (c : captures) (r : R) :
  Js.stops cls rest -> k rest c = Some r ->
  forall w min, Js.all cls w = true -> min <= String.length w ->
                rep cls true min k (w ++ rest) c = Some r.
Proof.
  intros Hstop Hk. induction w as [|a w IH]; intros min Hall Hmin.
  - simpl in Hmin. assert (min = 0) as -> by lia. simpl.
    destruct rest as [|b rest]; simpl; [now rewrite Hk|].
    simpl in Hstop. now rewrite Hstop, Hk.
  - simpl in Hall. apply andb_true_iff in Hall as [Ha Hall].
    cbn [append rep]. rewrite Ha.
    rewrite (IH (pred min) Hall) by (simpl in Hmin; lia). reflexivity.
Qed.

(** A lazy repetition Js.stops at the first place where what follows
    matches; here what follows cannot start inside the run. *)
Lemma rep_lazy_munch {R} (cls : ascii -> bool) (k : @cont R) (rest : string)
      (c : captures) (r : R) :
  (forall a s, cls a = true -> k (String a s) c = None) ->
  k rest c = Some r ->
  forall w, Js.all cls w = true -> rep cls false 0 k (w ++ rest) c = Some r.
Proof.
  intros Hfail Hk. induction w as [|a w IH]; intros Hall.
  - simpl. destruct rest; simpl; now rewrite Hk.
  - simpl in Hall. apply andb_true_iff in Hall as [Ha Hall].
    cbn [append rep]. rewrite Ha, (Hfail a _ Ha). simpl. now apply IH.
Qed.

Lemma stops_after_blank (cls : ascii -> bool) (blank rest : string) :
  (forall a, Js.is_space a = true -> cls a = false) ->
  Js.all Js.is_space blank = true -> blank <> EmptyString -> Js.stops cls (blank ++ rest).
Proof.
  intros Hcls Hall Hne. destruct blank as [|a blank]; [contradiction|].
  simpl in *. apply andb_true_iff in Hall as [Ha _]. auto.
Qed.

Lemma length_positive (s : string) : s <> EmptyString -> 1 <= String.length s.
Proof.
  destruct s; [contradiction|simpl; lia].
Qed.

Lemma blank_is_no_word (a : ascii) : Js.is_space a = true -> Js.is_word_or_dash a = false.
Proof.
  destruct a as [[] [] [] [] [] [] [] []]; vm_compute; congruence.
Qed.

Lemma starts_length (cls : ascii -> bool) (s : string) : Js.starts cls s -> 1 <= String.length s.
Proof.
  destruct s; simpl; [contradiction|lia].
Qed.

Lemma starts_stops (cls : ascii -> bool) (s rest : string) :
  Js.starts (fun a => negb (cls a)) s -> Js.stops cls (s ++ rest).
Proof.
  destruct s; simpl; [contradiction|]. now intros H%negb_true_iff.
Qed.

(** The documented tag syntax is recognised, with the name and the text
    up to the end of the line as its groups. *)
Lemma cssprop_tag_recognised (blank1 nm blank2 blank3 text rest : string) :
  Js.all Js.is_space blank1 = true -> blank1 <> EmptyString ->
  Js.all Js.is_word_or_dash nm = true -> nm <> EmptyString ->
  Js.all Js.is_space blank2 = true -> blank2 <> EmptyString ->
  Js.all Js.is_space blank3 = true ->
  Js.all (Js.not_char "010") text = true ->
  Js.starts (fun a => negb (Js.is_space a)) text ->
  Js.stops (Js.not_char "010") rest ->
  match_at CSSPROP_DOC_PATTERN
    ("@cssprop" ++ blank1 ++ "--" ++ nm ++ blank2 ++ "-" ++ blank3 ++ text ++ rest)
  = Some (MkMatch ("@cssprop" ++ blank1 ++ "--" ++ nm ++ blank2 ++ "-" ++ blank3 ++ text)
            [(2, text); (1, "--" ++ nm)]).
Proof.
  intros Hb1 Hn1 Hnm Hn2 Hb2 Hn3 Hb3 Htext Hstart Hrest.
  unfold match_at, CSSPROP_DOC_PATTERN, plus, star. cbn [run].
  rewrite lit_app.
  apply rep_greedy_munch;
    [simpl; reflexivity| |assumption|now apply length_positive].
  rewrite lit_app.
  apply rep_greedy_munch;
    [apply stops_after_blank; auto using blank_is_no_word| |assumption
    |now apply length_positive].
  apply rep_greedy_munch; [simpl; reflexivity| |assumption|lia].
  rewrite lit_app.
  apply rep_greedy_munch; [now apply starts_stops| |assumption|lia].
  apply rep_greedy_munch; [assumption| |assumption|eapply starts_length; eauto].
  rewrite (consumed_eq _ rest
             ("@cssprop" ++ blank1 ++ "--" ++ nm ++ blank2 ++ "-" ++ blank3 ++ text))
    by now rewrite !append_assoc.
  rewrite (consumed_eq _ rest text) by reflexivity.
  rewrite (consumed_eq _ (blank2 ++ "-" ++ blank3 ++ text ++ rest) ("--" ++ nm))
    by now rewrite !append_assoc.
  reflexivity.
Qed.

Lemma stops_blank_then (cls : ascii -> bool) (blank rest : string) :
  (forall a, Js.is_space a = true -> cls a = false) ->
  Js.all Js.is_space blank = true -> Js.stops cls rest -> Js.stops cls (blank ++ rest).
Proof.
  intros Hcls Hall Hrest. destruct blank as [|a blank]; [exact Hrest|].
  simpl in *. apply andb_true_iff in Hall as [Ha _]. auto.
Qed.

(** The documented syntax of a formal property declaration is recognised,
    with the comment, the name and the body as its groups. *)
Lemma property_rule_recognised (comment blank0 blank1 nm blank2 body rest : string) :
  Js.all (Js.not_char "*") comment = true ->
  Js.all Js.is_space blank0 = true ->
  Js.all Js.is_space blank1 = true -> blank1 <> EmptyString ->
  Js.all Js.is_word_or_dash nm = true -> nm <> EmptyString ->
  Js.all Js.is_space blank2 = true ->
  Js.all (Js.not_char "}") body = true -> body <> EmptyString ->
  match_at PROPERTY_RULE_PATTERN
    ("/**" ++ comment ++ "*/" ++ blank0 ++ "@property" ++ blank1 ++ "--" ++ nm
     ++ blank2 ++ "{" ++ body ++ "}" ++ rest)
  = Some (MkMatch ("/**" ++ comment ++ "*/" ++ blank0 ++ "@property" ++ blank1 ++ "--"
                   ++ nm ++ blank2 ++ "{" ++ body ++ "}")
            [(3, body); (2, "--" ++ nm); (1, comment)]).
Proof.
  intros Hcomment Hb0 Hb1 Hn1 Hnm Hn2 Hb2 Hbody Hn3.
  unfold match_at, PROPERTY_RULE_PATTERN, plus, star, lazy_star. cbn [run].
  rewrite lit_app.
  apply rep_lazy_munch; [| |assumption].
  { intros a s Ha. unfold Js.not_char in Ha. apply negb_true_iff in Ha.
    cbn [lit]. rewrite Ascii.eqb_sym. now rewrite Ha. }
  rewrite lit_app.
  apply rep_greedy_munch; [simpl; reflexivity| |assumption|lia].
  rewrite lit_app.
  apply rep_greedy_munch;
    [simpl; reflexivity| |assumption|now apply length_positive].
  rewrite lit_app.
  apply rep_greedy_munch;
    [apply stops_blank_then; [exact blank_is_no_word|assumption|simpl; reflexivity]
    | |assumption|now apply length_positive].
  apply rep_greedy_munch; [simpl; reflexivity| |assumption|lia].
  rewrite lit_app.
  apply rep_greedy_munch;
    [simpl; reflexivity| |assumption|now apply length_positive].
  rewrite lit_app.
  rewrite (consumed_eq _ rest
             ("/**" ++ comment ++ "*/" ++ blank0 ++ "@property" ++ blank1 ++ "--" ++ nm
              ++ blank2 ++ "{" ++ body ++ "}"))
    by now rewrite !append_assoc.
  rewrite (consumed_eq _ ("}" ++ rest) body) by reflexivity.
  rewrite (consumed_eq _ (blank2 ++ "{" ++ body ++ "}" ++ rest) ("--" ++ nm))
    by now rewrite !append_assoc.
  rewrite (consumed_eq _ ("*/" ++ blank0 ++ "@property" ++ blank1 ++ "--" ++ nm
                          ++ blank2 ++ "{" ++ body ++ "}" ++ rest) comment)
    by reflexivity.
  reflexivity.
Qed.

Lemma rep_lazy_stop {R} (cls : ascii -> bool) (k : @cont R) (s : string)
      (c : captures) (r : R) :
  k s c = Some r -> rep cls false 0 k s c = Some r.
Proof.
  intros Hk. destruct s; simpl; now rewrite Hk.
Qed.

(** A plain declaration [--name: value;] is recognised where it starts. *)
Lemma plain_declaration_recognised (nm blank value rest : string) :
  Js.all Js.is_word_or_dash nm = true -> nm <> EmptyString ->
  Js.all Js.is_space blank = true ->
  Js.all (Js.not_char ";") value = true ->
  Js.starts (fun a => negb (Js.is_space a)) value ->
  match_at CSS_VAR_PATTERN ("--" ++ nm ++ ":" ++ blank ++ value ++ ";" ++ rest)
  = Some (MkMatch ("--" ++ nm ++ ":" ++ blank ++ value ++ ";")
            [(2, "--" ++ nm ++ ":" ++ blank ++ value ++ ";")]).
Proof.
  intros Hnm Hn Hblank Hvalue Hstart.
  unfold match_at, CSS_VAR_PATTERN, plus, star, lazy_star. cbn [run].
  change (lit "/*" _ ("--" ++ _) []) with (@None match_result).
  cbn [orElse].
  apply rep_lazy_stop.
  rewrite lit_app.
  apply rep_greedy_munch;
    [simpl; reflexivity| |assumption|now apply length_positive].
  rewrite lit_app.
  apply rep_greedy_munch; [now apply starts_stops| |assumption|lia].
  apply rep_greedy_munch;
    [simpl; reflexivity| |assumption|eapply starts_length; eauto].
  rewrite lit_app.
  rewrite (consumed_eq _ rest ("--" ++ nm ++ ":" ++ blank ++ value ++ ";"))
    by now rewrite !append_assoc.
  reflexivity.
Qed.

(** The same after a comment: the comment is the first group. *)
Lemma commented_declaration_recognised (comment blank0 nm blank value rest : string) :
  Js.all (Js.not_char "*") comment = true ->
  Js.all Js.is_space blank0 = true ->
  Js.all Js.is_word_or_dash nm = true -> nm <> EmptyString ->
  Js.all Js.is_space blank = true ->
  Js.all (Js.not_char ";") value = true ->
  Js.starts (fun a => negb (Js.is_space a)) value ->
  match_at CSS_VAR_PATTERN
    ("/*" ++ comment ++ "*/" ++ blank0 ++ "--" ++ nm ++ ":" ++ blank ++ value ++ ";" ++ rest)
  = Some (MkMatch ("/*" ++ comment ++ "*/" ++ blank0 ++ "--" ++ nm ++ ":" ++ blank
                   ++ value ++ ";")
            [(2, "--" ++ nm ++ ":" ++ blank ++ value ++ ";"); (1, comment)]).
Proof.
  intros Hcomment Hb0 Hnm Hn Hblank Hvalue Hstart.
  unfold match_at, CSS_VAR_PATTERN, plus, star, lazy_star. cbn [run].
  match goal with
  | |- orElse ?body _ = ?result => assert (Hbody : body = result)
  end.
  { rewrite lit_app.
    apply rep_greedy_munch; [simpl; reflexivity| |assumption|lia].
    rewrite lit_app.
    apply rep_greedy_munch; [simpl; reflexivity| |assumption|lia].
    match goal with
    | |- (if ?t then _ else _) = _ => replace t with false
    end.
    2:{ symmetry. apply Nat.eqb_neq.
        repeat (progress cbn [append String.length] || rewrite append_length). lia. }
    apply rep_lazy_stop.
    rewrite lit_app.
    apply rep_greedy_munch;
      [simpl; reflexivity| |assumption|now apply length_positive].
    rewrite lit_app.
    apply rep_greedy_munch; [now apply starts_stops| |assumption|lia].
    apply rep_greedy_munch;
      [simpl; reflexivity| |assumption|eapply starts_length; eauto].
    rewrite lit_app.
    rewrite (consumed_eq _ rest
               ("/*" ++ comment ++ "*/" ++ blank0 ++ "--" ++ nm ++ ":" ++ blank ++ value
                ++ ";"))
      by now rewrite !append_assoc.
    rewrite (consumed_eq _ rest ("--" ++ nm ++ ":" ++ blank ++ value ++ ";"))
      by now rewrite !append_assoc.
    rewrite (consumed_eq _ ("*/" ++ blank0 ++ "--" ++ nm ++ ":" ++ blank ++ value ++ ";"
                            ++ rest) comment) by reflexivity.
    reflexivity. }
  now rewrite Hbody.
Qed.

(** The name of a declaration that starts with it. *)
Lemma declaration_name (nm more : string) :
  Js.all Js.is_word_or_dash nm = true -> nm <> EmptyString ->
  Js.stops Js.is_word_or_dash more ->
  option_map matched (exec VAR_NAME_PATTERN ("--" ++ nm ++ more)) = Some ("--" ++ nm).
Proof.
  intros Hnm Hn Hmore.
  assert (H : match_at VAR_NAME_PATTERN ("--" ++ nm ++ more)
              = Some (MkMatch ("--" ++ nm) [])).
  { unfold match_at, VAR_NAME_PATTERN, plus. cbn [run].
    rewrite lit_app.
    apply rep_greedy_munch; [assumption| |assumption|now apply length_positive].
    rewrite (consumed_eq _ more ("--" ++ nm)) by now rewrite !append_assoc.
    reflexivity. }
  cbn [append exec] in *. now rewrite H.
Qed.

(** A search passes over text in which no match can start. *)
Lemma matchAll_from_skip (r : regex) (rest : string) :
  forall pre,
    (forall a s, In a (list_ascii_of_string pre) -> match_at r (String a s) = None) ->
    matchAll_from r 0 (pre ++ rest) = matchAll_from r 0 rest.
Proof.
  induction pre as [|a pre IH]; intros Hnone; [reflexivity|].
  cbn [append matchAll_from].
  rewrite (Hnone a (pre ++ rest)) by now left.
  apply IH. intros b s Hb. apply Hnone. now right.
Qed.

Lemma matchAll_head (r : regex) (s : string) (m : match_result) :
  match_at r s = Some m -> In m (matchAll r s).
Proof.
  intros H. unfold matchAll. destruct s; simpl; rewrite H; now left.
Qed.

Lemma all_In (cls : ascii -> bool) (s : string) (a : ascii) :
  Js.all cls s = true -> In a (list_ascii_of_string s) -> cls a = true.
Proof.
  induction s as [|b s IH]; simpl; [contradiction|].
  intros [Hb Hs]%andb_true_iff [<-|Hin]; auto.
Qed.

Lemma cssprop_needs_at (a : ascii) (s : string) :
  Js.not_char "@" a = true -> match_at CSSPROP_DOC_PATTERN (String a s) = None.
Proof.
  intros Ha. unfold Js.not_char in Ha. apply negb_true_iff in Ha.
  unfold match_at, CSSPROP_DOC_PATTERN. cbn [run lit].
  rewrite Ascii.eqb_sym. now rewrite Ha.
Qed.


End SyntaxFacts.

(** ** The base name of a component file *)

Module PathFacts.

Import Path SyntaxFacts.

Lemma get_inside (s : string) :
  forall i, i < String.length s -> exists a, String.get i s = Some a.
Proof.
  induction s as [|b s IH]; intros i Hi; simpl in Hi; [lia|].
  destruct i; simpl; [eauto|]. apply IH. lia.
Qed.

Lemma get_all (cls : ascii -> bool) (s : string) :
  Js.all cls s = true ->
  forall i a, String.get i s = Some a -> cls a = true.
Proof.
  induction s as [|b s IH]; intros Hall i a Hget; simpl in *; [discriminate|].
  apply andb_true_iff in Hall as [Hb Hs].
  destruct i; [inversion Hget; now subst|eauto].
Qed.

Lemma no_slash (s : string) (i : nat) :
  Js.all (Js.not_char "/") s = true -> i < String.length s ->
  is_slash (String.get i s) = false.
Proof.
  intros Hall Hi. destruct (get_inside s i Hi) as [a Ha]. rewrite Ha.
  apply (get_all _ _ Hall) in Ha. unfold Js.not_char in Ha.
  apply negb_true_iff in Ha. exact Ha.
Qed.

Lemma same_char_refl (s : string) (i : nat) :
  i < String.length s -> same_char (String.get i s) (String.get i s) = true.
Proof.
  intros Hi. destruct (get_inside s i Hi) as [a ->]. apply Ascii.eqb_refl.
Qed.

Lemma get_app_right (a b : string) (i : nat) :
  String.get (String.length a + i) (a ++ b) = String.get i b.
Proof.
  rewrite Nat.add_comm. symmetry. apply append_correct2.
Qed.

Lemma get_app_left (a b : string) (i : nat) :
  i < String.length a -> String.get i (a ++ b) = String.get i a.
Proof.
  intros Hi. symmetry. now apply append_correct1.
Qed.

Lemma substring_middle (a b c : string) :
  String.substring (String.length a) (String.length b) (a ++ b ++ c) = b.
Proof.
  induction a as [|x a IH]; simpl.
  - induction b as [|y b IHb]; simpl; [now destruct c|now rewrite IHb].
  - exact IH.
Qed.

Section Strip.

Variables dir stem suffix : string.
Hypothesis stem_plain : Js.all (Js.not_char "/") stem = true.
Hypothesis stem_given : stem <> EmptyString.
Hypothesis suffix_plain : Js.all (Js.not_char "/") suffix = true.
Hypothesis suffix_given : suffix <> EmptyString.

Let p : string := dir ++ "/" ++ stem ++ suffix.
Let front : nat := String.length dir + 1.
Let base : nat := front + String.length stem.
Let len : nat := base + String.length suffix.

Lemma length_p : String.length p = len.
Proof.
  unfold p, len, base, front.
  repeat (progress cbn [append String.length] || rewrite append_length). lia.
Qed.

Lemma get_suffix (j : nat) : String.get (base + j) p = String.get j suffix.
Proof.
  unfold p. replace (dir ++ "/" ++ stem ++ suffix) with ((dir ++ "/" ++ stem) ++ suffix)
    by (now rewrite !append_assoc).
  replace base with (String.length (dir ++ "/" ++ stem)).
  - apply get_app_right.
  - unfold base, front.
    repeat (progress cbn [append String.length] || rewrite append_length). lia.
Qed.

Lemma get_stem (k : nat) :
  k < String.length stem -> String.get (front + k) p = String.get k stem.
Proof.
  intros Hk. unfold p.
  replace (dir ++ "/" ++ stem ++ suffix) with ((dir ++ "/") ++ stem ++ suffix)
    by (now rewrite !append_assoc).
  replace front with (String.length (dir ++ "/")).
  - rewrite get_app_right. now apply get_app_left.
  - unfold front. rewrite append_length. reflexivity.
Qed.

Lemma get_separator : String.get (String.length dir) p = Some "/"%char.
Proof.
  unfold p. rewrite <- (Nat.add_0_r (String.length dir)), get_app_right. reflexivity.
Qed.

(** The part of the loop that runs over the suffix. *)
Lemma scan_over_suffix :
  forall j ms fe,
    j < String.length suffix ->
    (fe = None /\ base + S j = len) \/ (fe = Some len /\ ms = false) ->
    scan_suffix p suffix (base + S j) (MkScan 0 None ms (Some j) fe)
    = scan_suffix p suffix base (MkScan 0 (Some base) false None (Some len)).
Proof.
  induction j as [|j IH]; intros ms fe Hj Hfe;
    rewrite Nat.add_succ_r; cbn [scan_suffix];
    rewrite get_suffix, (no_slash suffix _ suffix_plain Hj).
  - destruct Hfe as [[-> Hlen]|[-> ->]];
      cbn [firstNonSlashEnd start stop matchedSlash extIdx];
      rewrite (same_char_refl suffix 0 Hj); rewrite ?Nat.add_0_r in *.
    + replace (base + 1) with len by lia. reflexivity.
    + reflexivity.
  - destruct Hfe as [[-> Hlen]|[-> ->]];
      cbn [firstNonSlashEnd start stop matchedSlash extIdx];
      rewrite (same_char_refl suffix (S j) Hj).
    + replace (base + S j + 1) with len by lia.
      apply IH; [lia|now right].
    + apply IH; [lia|now right].
Qed.

(** The part of the loop that runs over the stem. *)
Lemma scan_over_stem :
  forall k, k <= String.length stem ->
            scan_suffix p suffix (front + k) (MkScan 0 (Some base) false None (Some len))
            = scan_suffix p suffix front (MkScan 0 (Some base) false None (Some len)).
Proof.
  induction k as [|k IH]; intros Hk; [now rewrite Nat.add_0_r|].
  rewrite Nat.add_succ_r. cbn [scan_suffix].
  rewrite get_stem by lia. rewrite (no_slash stem k stem_plain) by lia.
  cbn [firstNonSlashEnd extIdx]. apply IH. lia.
Qed.

Lemma scan_whole :
  scan_suffix p suffix len (MkScan 0 None true (Some (String.length suffix - 1)) None)
  = MkScan front (Some base) false None (Some len).
Proof.
  assert (Hs : 1 <= String.length suffix) by now apply length_positive.
  replace len with (base + S (String.length suffix - 1)) at 1 by (unfold len; lia).
  rewrite scan_over_suffix by (lia || (left; split; [reflexivity|unfold len; lia])).
  unfold base at 1. rewrite scan_over_stem by lia.
  unfold front at 1. rewrite Nat.add_1_r. cbn [scan_suffix].
  rewrite get_separator. cbn [is_slash matchedSlash start stop firstNonSlashEnd extIdx].
  rewrite Ascii.eqb_refl. unfold front. reflexivity.
Qed.

(** The base name of a path that ends in a file name with the suffix is
    the file name without it. *)
Lemma basename_strips : basename p suffix = stem.
Proof.
  assert (Hs : 1 <= String.length suffix) by now apply length_positive.
  assert (Ht : 1 <= String.length stem) by now apply length_positive.
  unfold basename. rewrite length_p, scan_whole.
  replace (negb (String.length suffix =? 0)%nat && (String.length suffix <=? len)%nat)
    with true.
  2:{ symmetry. apply andb_true_iff. split.
      - apply negb_true_iff, Nat.eqb_neq. lia.
      - apply Nat.leb_le. unfold len. lia. }
  replace (String.eqb suffix p) with false.
  2:{ symmetry. apply String.eqb_neq. intros Heq.
      pose proof length_p as Hl. rewrite <- Heq in Hl. unfold len, base, front in Hl. lia. }
  cbn [start stop firstNonSlashEnd].
  replace (front =? base)%nat with false
    by (symmetry; apply Nat.eqb_neq; unfold base; lia).
  unfold slice. replace (base - front) with (String.length stem) by (unfold base; lia).
  unfold p. replace (dir ++ "/" ++ stem ++ suffix) with ((dir ++ "/") ++ stem ++ suffix)
    by (now rewrite !append_assoc).
  replace front with (String.length (dir ++ "/"))
    by (rewrite append_length; reflexivity).
  apply substring_middle.
Qed.

End Strip.

(** The component name of a file [dir/Stem.svelte] is [Stem]. *)
Lemma basename_of_component (dir stem : string) :
  Js.all (Js.not_char "/") stem = true -> stem <> EmptyString ->
  basename (dir ++ "/" ++ stem ++ ".svelte") ".svelte" = stem.
Proof.
  intros Hplain Hgiven.
  apply (basename_strips dir stem ".svelte" Hplain Hgiven); [reflexivity|discriminate].
Qed.

End PathFacts.

(** ** The engine reports only what the patterns describe *)

Module EngineFacts.

Import RegexFacts SyntaxFacts.

Lemma lit_sound {R} (l : string) :
  forall (k : @cont R) s c res,
    lit l k s c = Some res -> exists s', s = l ++ s' /\ k s' c = Some res.
Proof.
  induction l as [|a l IH]; intros k s c res H; simpl in H.
  - now exists s.
  - destruct s as [|b s]; [discriminate|].
    destruct (Ascii.eqb_spec a b) as [<-|]; [|discriminate].
    apply IH in H as (s' & -> & H). now exists s'.
Qed.

Lemma rep_sound {R} (cls : ascii -> bool) (greedy : bool) :
  forall s min (k : @cont R) c res,
    rep cls greedy min k s c = Some res ->
    exists w s', s = w ++ s' /\ Js.all cls w = true /\ min <= String.length w
                 /\ k s' c = Some res.
Proof.
  assert (Hstop : forall s (k : @cont R) c res,
             k s c = Some res ->
             exists w s', s = w ++ s' /\ Js.all cls w = true /\ 0 <= String.length w
                          /\ k s' c = Some res).
  { intros s k c res H. exists EmptyString, s. auto. }
  induction s as [|a s IH]; intros min k c res H; simpl in H.
  - destruct greedy, min; simpl in H; split_option H; try discriminate;
      try (injection H as <-); now apply Hstop.
  - assert (Hmore : forall res',
               cls a = true -> rep cls greedy (pred min) k s c = Some res' ->
               exists w s', String a s = w ++ s' /\ Js.all cls w = true
                            /\ min <= String.length w /\ k s' c = Some res').
    { intros res' Ha H'. apply IH in H' as (w & s' & -> & Hall & Hmin & Hk).
      exists (String a w), s'. simpl. rewrite Ha, Hall. repeat split; auto. lia. }
    destruct (cls a) eqn:Ha.
    + destruct greedy; unfold orElse in H.
      * destruct (rep cls true (pred min) k s c) eqn:E.
        -- inversion H; subst. now apply Hmore.
        -- destruct min; [now apply Hstop|discriminate].
      * destruct min.
        -- destruct (k (String a s) c) eqn:E.
           ++ inversion H; subst. now apply Hstop.
           ++ now apply Hmore.
        -- now apply Hmore.
    + destruct greedy, min; simpl in H; split_option H; try discriminate;
        try (injection H as <-); now apply Hstop.
Qed.

Lemma groupOf_captured (r : regex) (c : captures) : captured_in r c c.
Proof.
  intros n y H. now left.
Qed.

(** The engine only reports what the pattern describes: the consumed text
    matches the pattern and each new capture matches its group. *)
Lemma run_sound {R} (r : regex) :
  forall (k : @cont R) s c res,
    run r k s c = Some res ->
    exists x s' c',
      s = x ++ s' /\ Matches r x /\ k s' c' = Some res /\ captured_in r c c'.
Proof.
  induction r as [l|cls|cls min greedy|r1 IH1 r2 IH2|r1 IH1 r2 IH2|r1 IH1|g r1 IH1|];
    intros k s c res H; cbn [run] in H.
  - apply lit_sound in H as (s' & -> & H).
    exists l, s', c. repeat split; [constructor|assumption|apply groupOf_captured].
  - destruct s as [|a s]; [discriminate|]. destruct (cls a) eqn:Ha; [|discriminate].
    exists (String a EmptyString), s, c.
    repeat split; [now constructor|assumption|apply groupOf_captured].
  - apply rep_sound in H as (w & s' & -> & Hall & Hmin & H).
    exists w, s', c. repeat split; [now constructor|assumption|apply groupOf_captured].
  - apply IH1 in H as (x & s1 & c1 & -> & M1 & H & C1).
    apply IH2 in H as (y & s2 & c2 & -> & M2 & H & C2).
    exists (x ++ y), s2, c2. split; [now rewrite append_assoc|].
    split; [now constructor|]. split; [assumption|].
    intros n z Hz. destruct (C2 n z Hz) as [Hz1|(g & Hg & Mg)].
    + destruct (C1 n z Hz1) as [Hz0|(g & Hg & Mg)]; [now left|].
      right. exists g. simpl. auto.
    + right. exists g. simpl. auto.
  - unfold orElse in H. destruct (run r1 k s c) eqn:E.
    + inversion H; subst. apply IH1 in E as (x & s1 & c1 & -> & M1 & E & C1).
      exists x, s1, c1. repeat split; [now apply MatchAltLeft|assumption|].
      intros n z Hz. destruct (C1 n z Hz) as [|(g & Hg & Mg)]; [now left|].
      right. exists g. simpl. auto.
    + apply IH2 in H as (x & s1 & c1 & -> & M1 & H & C1).
      exists x, s1, c1. repeat split; [now apply MatchAltRight|assumption|].
      intros n z Hz. destruct (C1 n z Hz) as [|(g & Hg & Mg)]; [now left|].
      right. exists g. simpl. auto.
  - unfold orElse in H.
    match type of H with
    | match ?body with _ => _ end = _ => destruct body eqn:E
    end.
    + inversion H; subst. apply IH1 in E as (x & s1 & c1 & -> & M1 & E & C1).
      destruct (String.length s1 =? String.length (x ++ s1))%nat; [discriminate|].
      exists x, s1, c1. repeat split; [now apply MatchOptSome|assumption|].
      intros n z Hz. destruct (C1 n z Hz) as [|(g & Hg & Mg)]; [now left|].
      right. exists g. simpl. auto.
    + exists EmptyString, s, c.
      repeat split; [apply MatchOptNone|assumption|apply groupOf_captured].
  - apply IH1 in H as (x & s1 & c1 & -> & M1 & H & C1).
    rewrite consumed_app in H.
    exists x, s1, ((g, x) :: c1). repeat split; [now constructor|assumption|].
    intros n z Hz. simpl in Hz. destruct (Nat.eqb_spec g n) as [<-|Hne].
    + inversion Hz; subst. right. exists r1. simpl. auto.
    + destruct (C1 n z Hz) as [|(g' & Hg & Mg)]; [now left|].
      right. exists g'. simpl. auto.
  - destruct s; [|discriminate].
    exists EmptyString, EmptyString, c.
    repeat split; [constructor|assumption|apply groupOf_captured].
Qed.

Lemma match_at_sound (r : regex) (s : string) (m : match_result) :
  match_at r s = Some m ->
  Matches r (matched m)
  /\ (exists rest, s = matched m ++ rest)
  /\ (forall n y, group m n = Some y -> exists g, groupOf n g r /\ Matches g y).
Proof.
  unfold match_at. intros H.
  apply run_sound in H as (x & s' & c' & -> & M & H & C).
  inversion H; subst; clear H. rewrite consumed_app. cbn [matched].
  split; [assumption|]. split; [now exists s'|].
  intros n y Hy. unfold group in Hy. cbn [groups] in Hy.
  destruct (C n y Hy) as [H|H]; [discriminate|assumption].
Qed.

Lemma Matches_name (nm : string) :
  Matches (Lit "--" ++ plus Js.is_word_or_dash)%re nm -> is_variable_name nm.
Proof.
  intros H. inversion H as [| | |r1 r2 x y Hx Hy| | | | | |]; subst.
  inversion Hx; subst. inversion Hy as [| |cls min greedy w Hall Hmin| | | | | | |]; subst.
  exists y. repeat split; [assumption|]. intros ->. simpl in Hmin. lia.
Qed.

End EngineFacts.

(** ** The table: lookups after writes *)

Module MapFacts.

Lemma get_set_same (k : string) (v : CSSVariable) (m : JsMap.t) :
  JsMap.get k (JsMap.set k v m) = Some v.
Proof.
  induction m as [|[k' v'] m IH]; simpl.
  - now rewrite String.eqb_refl.
  - destruct (String.eqb k' k) eqn:E; simpl; now rewrite E.
Qed.

Lemma get_set_other (k k' : string) (v : CSSVariable) (m : JsMap.t) :
  k <> k' -> JsMap.get k (JsMap.set k' v m) = JsMap.get k m.
Proof.
  intros Hne. induction m as [|[k0 v0] m IH]; simpl.
  - destruct (String.eqb_spec k' k); congruence.
  - destruct (String.eqb_spec k0 k'); simpl.
    + subst. destruct (String.eqb_spec k' k); congruence.
    + destruct (String.eqb_spec k0 k); congruence.
Qed.

Lemma has_get (k : string) (m : JsMap.t) :
  JsMap.has k m = true <-> JsMap.get k m <> None.
Proof.
  unfold JsMap.has. destruct (JsMap.get k m); split; congruence.
Qed.

(** One write changes the entry of [nm] as [writeStep] says. *)
Lemma get_applyWrite (nm : string) (m : JsMap.t) (w : write) :
  JsMap.get nm (applyWrite m w) = writeStep nm (JsMap.get nm m) w.
Proof.
  destruct w as [v|v]; simpl.
  - destruct (String.eqb_spec (name v) nm) as [<-|Hne].
    + apply get_set_same.
    + apply get_set_other; congruence.
  - unfold JsMap.has.
    destruct (String.eqb_spec (name v) nm) as [<-|Hne].
    + destruct (JsMap.get (name v) m) eqn:E; [assumption|apply get_set_same].
    + destruct (JsMap.get (name v) m); [reflexivity|].
      apply get_set_other; congruence.
Qed.

Lemma get_fold_writes (nm : string) (ws : list write) :
  forall m, JsMap.get nm (fold_left applyWrite ws m)
            = fold_left (writeStep nm) ws (JsMap.get nm m).
Proof.
  induction ws as [|w ws IH]; intros m; simpl; [reflexivity|].
  now rewrite IH, get_applyWrite.
Qed.

(** Once an unconditional write for [nm] has happened, the entry follows
    the unconditional writes only. *)
Lemma writeStep_follows_puts (nm : string) (ws : list write) :
  forall acc st v,
    (forall x, acc = Some x -> st = Some x) ->
    fold_left (fun a x => if String.eqb (name x) nm then Some x else a)
      (unconditional ws) acc = Some v ->
    fold_left (writeStep nm) ws st = Some v.
Proof.
  induction ws as [|w ws IH]; intros acc st v Hinv H; simpl in *.
  - auto.
  - destruct w as [x|x]; simpl in H.
    + eapply IH; [|exact H]. simpl.
      destruct (String.eqb (name x) nm); [congruence|assumption].
    + eapply IH; [|exact H]. simpl.
      destruct (String.eqb (name x) nm); [|assumption].
      intros y Hy. now rewrite (Hinv y Hy).
Qed.

Lemma lastNamed_wins (nm : string) (ws : list write) (m : JsMap.t) (v : CSSVariable) :
  lastNamed nm (unconditional ws) = Some v ->
  JsMap.get nm (fold_left applyWrite ws m) = Some v.
Proof.
  intros H. rewrite get_fold_writes.
  eapply writeStep_follows_puts; [|exact H]. discriminate.
Qed.

(** [lastNamed] over a concatenation and over its own result. *)
Lemma lastNamed_acc (nm : string) (vs : list CSSVariable) :
  forall acc,
    fold_left (fun a x => if String.eqb (name x) nm then Some x else a) vs acc
    = match lastNamed nm vs with Some v => Some v | None => acc end.
Proof.
  unfold lastNamed.
  induction vs as [|x vs IH]; intros acc; simpl; [reflexivity|].
  rewrite IH. rewrite (IH (if String.eqb (name x) nm then Some x else None)).
  destruct (fold_left _ vs None); [reflexivity|].
  destruct (String.eqb (name x) nm); reflexivity.
Qed.

Lemma lastNamed_app (nm : string) (xs ys : list CSSVariable) :
  lastNamed nm (xs ++ ys)
  = match lastNamed nm ys with Some v => Some v | None => lastNamed nm xs end.
Proof.
  unfold lastNamed at 1. rewrite fold_left_app. apply lastNamed_acc.
Qed.

Lemma lastNamed_cons (nm : string) (x : CSSVariable) (xs : list CSSVariable) :
  lastNamed nm (x :: xs)
  = match lastNamed nm xs with
    | Some v => Some v
    | None => if String.eqb (name x) nm then Some x else None
    end.
Proof.
  unfold lastNamed at 1. simpl. apply lastNamed_acc.
Qed.

Lemma lastNamed_In (nm : string) (vs : list CSSVariable) (v : CSSVariable) :
  lastNamed nm vs = Some v -> In v vs /\ name v = nm.
Proof.
  induction vs as [|x vs IH]; [discriminate|].
  rewrite lastNamed_cons. destruct (lastNamed nm vs) as [y|].
  - intros H; inversion H; subst. destruct IH as [? ?]; [reflexivity|]. simpl; auto.
  - destruct (String.eqb_spec (name x) nm); [|discriminate].
    intros H; inversion H; subst. simpl; auto.
Qed.

Lemma lastNamed_exists (nm : string) (vs : list CSSVariable) (v : CSSVariable) :
  In v vs -> name v = nm -> exists v', lastNamed nm vs = Some v'.
Proof.
  induction vs as [|x vs IH]; [contradiction|].
  intros Hin Hn. rewrite lastNamed_cons.
  destruct (lastNamed nm vs) as [y|] eqn:E; [eauto|].
  destruct Hin as [->|Hin].
  - destruct (String.eqb_spec (name v) nm); [eauto|contradiction].
  - destruct (IH Hin Hn) as [? ?]; discriminate.
Qed.

(** When every declaration of [nm] in the list is the same variable, that
    variable is the last one. *)
Lemma lastNamed_unique (nm : string) (vs : list CSSVariable) (v : CSSVariable) :
  In v vs -> name v = nm ->
  (forall w, In w vs -> name w = nm -> w = v) ->
  lastNamed nm vs = Some v.
Proof.
  intros Hin Hn Huniq.
  destruct (lastNamed_exists nm vs v Hin Hn) as [v' H].
  destruct (lastNamed_In _ _ _ H) as [Hin' Hn']. now rewrite (Huniq v' Hin' Hn') in H.
Qed.

(** The entry of [nm] after the writes [ws] on a table without [nm]: the
    last unconditional write of [nm], else the first guarded one. *)
Lemma writeStep_fold (nm : string) (ws : list write) :
  forall st,
    fold_left (writeStep nm) ws st
    = match lastNamed nm (unconditional ws) with
      | Some v => Some v
      | None => match st with
                | Some x => Some x
                | None => firstNamed nm (conditional ws)
                end
      end.
Proof.
  induction ws as [|w ws IH]; intros st; simpl.
  - now destruct st.
  - rewrite IH. destruct w as [v|v]; simpl.
    + rewrite lastNamed_cons.
      destruct (lastNamed nm (unconditional ws)); [reflexivity|].
      destruct (String.eqb (name v) nm); reflexivity.
    + destruct (lastNamed nm (unconditional ws)); [reflexivity|].
      unfold firstNamed. simpl.
      destruct (String.eqb (name v) nm); [|reflexivity].
      now destruct st.
Qed.

Lemma keys_set (k : string) (v : CSSVariable) (m : JsMap.t) :
  JsMap.keys (JsMap.set k v m)
  = if JsMap.has k m then JsMap.keys m else (JsMap.keys m ++ [k])%list.
Proof.
  unfold JsMap.has, JsMap.keys. induction m as [|[k' v'] m IH]; simpl; [reflexivity|].
  destruct (String.eqb k' k) eqn:E; simpl; [reflexivity|].
  rewrite IH. now destruct (JsMap.get k m).
Qed.

Lemma has_In_keys (k : string) (m : JsMap.t) :
  JsMap.has k m = true <-> In k (JsMap.keys m).
Proof.
  unfold JsMap.has, JsMap.keys. induction m as [|[k' v'] m IH]; simpl.
  - split; [discriminate|contradiction].
  - destruct (String.eqb_spec k' k) as [->|Hne].
    + split; auto.
    + rewrite IH. split; [auto|]. intros [H|H]; [contradiction|assumption].
Qed.

(** Writes keep the keys distinct and equal to the names they index. *)
Lemma applyWrite_keys (m : JsMap.t) (w : write) :
  NoDup (JsMap.keys m) -> (forall k v, In (k, v) m -> name v = k) ->
  NoDup (JsMap.keys (applyWrite m w))
  /\ (forall k v, In (k, v) (applyWrite m w) -> name v = k).
Proof.
  assert (Hset : forall x, NoDup (JsMap.keys m) ->
                           (forall k v, In (k, v) m -> name v = k) ->
                           NoDup (JsMap.keys (JsMap.set (name x) x m))
                           /\ (forall k v, In (k, v) (JsMap.set (name x) x m) ->
                                           name v = k)).
  { intros x Hnd Hkeys. split.
    - rewrite keys_set. destruct (JsMap.has (name x) m) eqn:E; [assumption|].
      apply NoDup_app; [assumption|repeat constructor; auto| ].
      intros k Hk [<-|[]]. apply has_In_keys in Hk. congruence.
    - clear Hnd. induction m as [|[k' v'] m IH]; simpl.
      + intros k v [H|[]]. now inversion H.
      + destruct (String.eqb_spec k' (name x)) as [->|Hne]; simpl.
        * intros k v [H|H]; [now inversion H|]. apply Hkeys. now right.
        * intros k v [H|H]; [apply Hkeys; now left|].
          apply IH; [|assumption]. intros k0 v0 H0. apply Hkeys. now right. }
  intros Hnd Hkeys. destruct w as [x|x]; simpl; [now apply Hset|].
  destruct (JsMap.has (name x) m); [auto|now apply Hset].
Qed.

End MapFacts.

(** ** The rebuild is the fold of its writes *)

Module RebuildFacts.

Import RegexFacts MapFacts.

Lemma flat_map_flat_map {A B C} (f : A -> list B) (g : B -> list C) (xs : list A) :
  flat_map g (flat_map f xs) = flat_map (fun x => flat_map g (f x)) xs.
Proof.
  induction xs as [|x xs IH]; simpl; [reflexivity|].
  now rewrite flat_map_app, IH.
Qed.

Lemma map_collect {A B} (c : A -> B) (f : match_result -> option A)
      (ms : list match_result) :
  flat_map (fun m => map c (listOf (f m))) ms = map c (collect f ms).
Proof.
  unfold collect. induction ms as [|m ms IH]; simpl; [reflexivity|].
  now rewrite map_app, IH.
Qed.

(** A loop whose body performs the writes [W x] and returns. *)
Lemma forEach_writes {A} (W : A -> list write) (body : A -> Eff unit) (xs : list A) :
  (forall x, In x xs ->
             forall m, body x m = (Returned tt, fold_left applyWrite (W x) m)) ->
  forall m, forEach xs body m = (Returned tt, fold_left applyWrite (flat_map W xs) m).
Proof.
  induction xs as [|x xs IH]; intros Hbody m; simpl; [reflexivity|].
  unfold bind. rewrite (Hbody x (or_introl eq_refl)).
  rewrite fold_left_app. apply IH. intros y Hy. apply Hbody. now right.
Qed.

Lemma property_groups (content : string) (m : match_result) :
  In m (matchAll PROPERTY_RULE_PATTERN content) ->
  exists comment nm body,
    group m 1 = Some comment /\ group m 2 = Some nm /\ group m 3 = Some body.
Proof.
  intros H.
  pose proof (matchAll_binds _ _ _ 1 H eq_refl) as H1.
  pose proof (matchAll_binds _ _ _ 2 H eq_refl) as H2.
  pose proof (matchAll_binds _ _ _ 3 H eq_refl) as H3.
  destruct (group m 1), (group m 2), (group m 3); try congruence. eauto 10.
Qed.

Lemma var_groups (content : string) (m : match_result) :
  In m (matchAll CSS_VAR_PATTERN content) -> exists declaration, group m 2 = Some declaration.
Proof.
  intros H. pose proof (matchAll_binds _ _ _ 2 H eq_refl) as H2.
  destruct (group m 2); [eauto|congruence].
Qed.

Lemma cssprop_groups (content : string) (m : match_result) :
  In m (matchAll CSSPROP_DOC_PATTERN content) ->
  exists nm text, group m 1 = Some nm /\ group m 2 = Some text.
Proof.
  intros H.
  pose proof (matchAll_binds _ _ _ 1 H eq_refl) as H1.
  pose proof (matchAll_binds _ _ _ 2 H eq_refl) as H2.
  destruct (group m 1), (group m 2); try congruence. eauto 10.
Qed.

Lemma import_groups (text : string) (m : match_result) :
  In m (matchAll importPattern text) -> exists inner, group m 1 = Some inner.
Proof.
  intros H. pose proof (matchAll_binds _ _ _ 1 H eq_refl) as H1.
  destruct (group m 1); [eauto|congruence].
Qed.

Lemma processPropertyMatch_writes (file content : string) (pm : match_result) :
  In pm (matchAll PROPERTY_RULE_PATTERN content) ->
  forall m, processPropertyMatch file pm m
            = (Returned tt,
               fold_left applyWrite (map Put (listOf (propertyVariable file pm))) m).
Proof.
  intros H m. destruct (property_groups _ _ H) as (c & n & b & H1 & H2 & H3).
  unfold processPropertyMatch, propertyVariable, bind, defined.
  rewrite H1, H2, H3. reflexivity.
Qed.

Lemma processVarMatch_writes (file content : string) (vm : match_result) :
  In vm (matchAll CSS_VAR_PATTERN content) ->
  forall m, processVarMatch file vm m
            = (Returned tt,
               fold_left applyWrite (map PutIfAbsent (listOf (plainVariable file vm))) m).
Proof.
  intros H m. destruct (var_groups _ _ H) as (d & H2).
  unfold processVarMatch, plainVariable, bind, defined. rewrite H2. simpl.
  destruct (exec VAR_NAME_PATTERN d) as [found|]; simpl; [|reflexivity].
  unfold variables_has.
  destruct (matched found) as [|a rest] eqn:E; simpl; [reflexivity|].
  destruct (JsMap.has (String a rest) m); reflexivity.
Qed.

Lemma processCsspropMatch_writes (file content : string) (tm : match_result) :
  In tm (matchAll CSSPROP_DOC_PATTERN content) ->
  forall m, processCsspropMatch file (Path.basename file ".svelte") tm m
            = (Returned tt,
               fold_left applyWrite (map Put (listOf (tagVariable file tm))) m).
Proof.
  intros H m. destruct (cssprop_groups _ _ H) as (n & t & H1 & H2).
  unfold processCsspropMatch, tagVariable, bind, defined.
  rewrite H1, H2. reflexivity.
Qed.

Lemma processCssFile_writes (h : Host) (file : string) (m : JsMap.t) :
  processCssFile h file m = (Returned tt, fold_left applyWrite (cssFileWrites h file) m).
Proof.
  unfold processCssFile, cssFileWrites, whenRead, tryCatch, bind, awaitReadFile.
  destruct (readFile h file) as [content|e]; [|reflexivity].
  rewrite (forEach_writes (fun pm => map Put (listOf (propertyVariable file pm))))
    by (intros; eapply processPropertyMatch_writes; eauto).
  rewrite (forEach_writes (fun vm => map PutIfAbsent (listOf (plainVariable file vm))))
    by (intros; eapply processVarMatch_writes; eauto).
  rewrite !map_collect, fold_left_app. reflexivity.
Qed.

Lemma processSvelteFile_writes (h : Host) (file : string) (m : JsMap.t) :
  processSvelteFile h file m
  = (Returned tt, fold_left applyWrite (svelteFileWrites h file) m).
Proof.
  unfold processSvelteFile, svelteFileWrites, whenRead, tryCatch, bind, awaitReadFile.
  destruct (readFile h file) as [content|e]; [|reflexivity].
  rewrite (forEach_writes (fun tm => map Put (listOf (tagVariable file tm))))
    by (intros; eapply processCsspropMatch_writes; eauto).
  rewrite map_collect. reflexivity.
Qed.

(** The whole rebuild: clear, then every write in traversal order. *)
Lemma updateVariables_writes (h : Host) (m : JsMap.t) :
  updateVariables h m = (Returned tt, fold_left applyWrite (allWrites h) []).
Proof.
  unfold updateVariables, bind, variables_clear, JsMap.clear.
  rewrite (forEach_writes
             (fun pattern =>
                flat_map (cssFileWrites h) (filesOf h (importantCssIncludes h) pattern))).
  2:{ intros pattern _ m'. apply forEach_writes.
      intros file _ m''. apply processCssFile_writes. }
  rewrite (forEach_writes
             (fun pattern =>
                flat_map (svelteFileWrites h)
                  (filesOf h (importantSvelteIncludes h) pattern))).
  2:{ intros pattern _ m'. apply forEach_writes.
      intros file _ m''. apply processSvelteFile_writes. }
  unfold allWrites, cssFiles, svelteFiles.
  now rewrite fold_left_app, !flat_map_flat_map.
Qed.

Lemma rebuilt_writes (h : Host) (m : JsMap.t) :
  rebuilt h m = fold_left applyWrite (allWrites h) [].
Proof.
  unfold rebuilt. now rewrite updateVariables_writes.
Qed.

Lemma unconditional_app (xs ys : list write) :
  unconditional (xs ++ ys) = (unconditional xs ++ unconditional ys)%list.
Proof.
  unfold unconditional. apply flat_map_app.
Qed.

Lemma unconditional_Put (vs : list CSSVariable) : unconditional (map Put vs) = vs.
Proof.
  induction vs as [|v vs IH]; simpl; [reflexivity|]. now f_equal.
Qed.

Lemma unconditional_PutIfAbsent (vs : list CSSVariable) :
  unconditional (map PutIfAbsent vs) = [].
Proof.
  induction vs as [|v vs IH]; simpl; [reflexivity|]. assumption.
Qed.

Lemma unconditional_allWrites (h : Host) :
  unconditional (allWrites h) = unconditionalWrites h.
Proof.
  unfold allWrites, unconditionalWrites, formalWrites, tagWrites.
  rewrite unconditional_app. unfold unconditional at 1 2.
  rewrite !flat_map_flat_map. f_equal.
  - apply flat_map_ext. intros file.
    unfold cssFileWrites, whenRead. destruct (readFile h file); [|reflexivity].
    fold (unconditional (map Put (formalVariables file a)
                         ++ map PutIfAbsent (plainVariables file a))).
    now rewrite unconditional_app, unconditional_Put, unconditional_PutIfAbsent, app_nil_r.
  - apply flat_map_ext. intros file.
    unfold svelteFileWrites, whenRead. destruct (readFile h file); [|reflexivity].
    apply unconditional_Put.
Qed.

(** The entry of [nm] after a rebuild is the last unconditional write of
    [nm], when there is one. *)
Lemma rebuilt_lastNamed (h : Host) (m : JsMap.t) (nm : string) (v : CSSVariable) :
  lastNamed nm (unconditionalWrites h) = Some v ->
  JsMap.get nm (rebuilt h m) = Some v.
Proof.
  intros H. rewrite rebuilt_writes. apply lastNamed_wins.
  now rewrite unconditional_allWrites.
Qed.

Lemma conditional_app (xs ys : list write) :
  conditional (xs ++ ys) = (conditional xs ++ conditional ys)%list.
Proof.
  unfold conditional. apply flat_map_app.
Qed.

Lemma conditional_Put (vs : list CSSVariable) : conditional (map Put vs) = [].
Proof.
  induction vs as [|v vs IH]; simpl; [reflexivity|]. assumption.
Qed.

Lemma conditional_PutIfAbsent (vs : list CSSVariable) :
  conditional (map PutIfAbsent vs) = vs.
Proof.
  induction vs as [|v vs IH]; simpl; [reflexivity|]. now f_equal.
Qed.

Lemma conditional_allWrites (h : Host) : conditional (allWrites h) = plainWrites h.
Proof.
  unfold allWrites, plainWrites.
  rewrite conditional_app. unfold conditional at 1 2.
  rewrite !flat_map_flat_map.
  replace (flat_map (fun x => flat_map _ (svelteFileWrites h x)) (svelteFiles h))
    with (@nil CSSVariable).
  - rewrite app_nil_r. apply flat_map_ext. intros file.
    unfold cssFileWrites, whenRead. destruct (readFile h file); [|reflexivity].
    fold (conditional (map Put (formalVariables file a)
                       ++ map PutIfAbsent (plainVariables file a))).
    now rewrite conditional_app, conditional_Put, conditional_PutIfAbsent.
  - induction (svelteFiles h) as [|file files IH]; simpl; [reflexivity|].
    rewrite <- IH, app_nil_r.
    unfold svelteFileWrites, whenRead. destruct (readFile h file); [|reflexivity].
    symmetry. apply conditional_Put.
Qed.

(** The complete rule for an entry of the rebuilt table: the last formal
    declaration or documentation tag of the name, and without any, the
    first plain declaration of the name. *)
Lemma rebuilt_entry (h : Host) (m : JsMap.t) (nm : string) :
  JsMap.get nm (rebuilt h m)
  = match lastNamed nm (unconditionalWrites h) with
    | Some v => Some v
    | None => firstNamed nm (plainWrites h)
    end.
Proof.
  rewrite rebuilt_writes, get_fold_writes, writeStep_fold.
  now rewrite unconditional_allWrites, conditional_allWrites.
Qed.

(** The keys of a rebuilt table are distinct, and each is the name of its
    variable. *)
Lemma rebuilt_keys (h : Host) (m : JsMap.t) :
  NoDup (JsMap.keys (rebuilt h m))
  /\ (forall k v, In (k, v) (rebuilt h m) -> name v = k).
Proof.
  rewrite rebuilt_writes.
  assert (H : forall ws t,
             NoDup (JsMap.keys t) -> (forall k v, In (k, v) t -> name v = k) ->
             NoDup (JsMap.keys (fold_left applyWrite ws t))
             /\ (forall k v, In (k, v) (fold_left applyWrite ws t) -> name v = k)).
  { induction ws as [|w ws IH]; intros t Hnd Hkeys; simpl; [auto|].
    destruct (applyWrite_keys t w Hnd Hkeys). now apply IH. }
  apply H; [constructor|contradiction].
Qed.

(** A rebuild does not depend on the table it starts from. *)
Lemma rebuilt_independent (h : Host) (m m' : JsMap.t) : rebuilt h m = rebuilt h m'.
Proof.
  now rewrite !rebuilt_writes.
Qed.

(** Membership in the per-file lists. *)
Lemma In_collect {A} (f : match_result -> option A) (ms : list match_result) (a : A) :
  In a (collect f ms) <-> exists m, In m ms /\ f m = Some a.
Proof.
  unfold collect. rewrite in_flat_map. split.
  - intros (m & Hm & Ha). exists m. split; [assumption|].
    destruct (f m); simpl in Ha; [destruct Ha as [->|[]]; reflexivity|contradiction].
  - intros (m & Hm & Ha). exists m. split; [assumption|]. rewrite Ha. now left.
Qed.

Lemma In_formalWrites (h : Host) (v : CSSVariable) :
  In v (formalWrites h) <->
  exists file content pm,
    In file (cssFiles h) /\ readFile h file = Returned content
    /\ In pm (matchAll PROPERTY_RULE_PATTERN content)
    /\ propertyVariable file pm = Some v.
Proof.
  unfold formalWrites, whenRead. rewrite in_flat_map. split.
  - intros (file & Hf & Hv). destruct (readFile h file) as [content|] eqn:E; [|contradiction].
    apply In_collect in Hv as (pm & Hpm & Hv). exists file, content, pm. auto.
  - intros (file & content & pm & Hf & E & Hpm & Hv). exists file. split; [assumption|].
    rewrite E. apply In_collect. eauto.
Qed.

Lemma In_tagWrites (h : Host) (v : CSSVariable) :
  In v (tagWrites h) <->
  exists file content tm,
    In file (svelteFiles h) /\ readFile h file = Returned content
    /\ In tm (matchAll CSSPROP_DOC_PATTERN content)
    /\ tagVariable file tm = Some v.
Proof.
  unfold tagWrites, whenRead. rewrite in_flat_map. split.
  - intros (file & Hf & Hv). destruct (readFile h file) as [content|] eqn:E; [|contradiction].
    apply In_collect in Hv as (tm & Htm & Hv). exists file, content, tm. auto.
  - intros (file & content & tm & Hf & E & Htm & Hv). exists file. split; [assumption|].
    rewrite E. apply In_collect. eauto.
Qed.

End RebuildFacts.

(** ** Symbol index: precedence and collisions *)

Import RegexFacts MapFacts RebuildFacts.

Lemma propertyVariable_name (file : string) (pm : match_result) (v : CSSVariable) :
  propertyVariable file pm = Some v ->
  group pm 2 = Some (name v) /\ source v = global /\ filePath v = file.
Proof.
  unfold propertyVariable.
  destruct (group pm 1), (group pm 2), (group pm 3); try discriminate.
  intros H; inversion H; subst; simpl. auto.
Qed.

Lemma tagVariable_shape (file : string) (tm : match_result) (v : CSSVariable) :
  tagVariable file tm = Some v ->
  group tm 1 = Some (name v) /\ source v = component
  /\ componentName v = Some (Path.basename file ".svelte") /\ filePath v = file.
Proof.
  unfold tagVariable.
  destruct (group tm 1), (group tm 2); try discriminate.
  intros H; inversion H; subst; simpl. auto.
Qed.

Lemma plainVariable_shape (file : string) (vm : match_result) (v : CSSVariable) :
  plainVariable file vm = Some v -> source v = global /\ filePath v = file.
Proof.
  unfold plainVariable.
  destruct (group vm 2); [|discriminate].
  destruct (exec VAR_NAME_PATTERN s); [|discriminate].
  destruct (Js.truthy _); [|discriminate].
  intros H; inversion H; subst; simpl. auto.
Qed.


(** The entry of a name right after one stylesheet has been processed:
    the file's formal declaration of that name, whatever the table held
    before and whatever plain declarations the file holds. *)
Lemma processCssFile_entry (h : Host) (file content : string) (formal : CSSVariable) :
  readFile h file = Returned content ->
  In formal (formalVariables file content) ->
  (forall v, In v (formalVariables file content) -> name v = name formal -> v = formal) ->
  forall m, JsMap.get (name formal) (snd (processCssFile h file m)) = Some formal.
Proof.
  intros Hread Hin Huniq m. rewrite processCssFile_writes. simpl.
  apply lastNamed_wins. unfold cssFileWrites, whenRead. rewrite Hread.
  rewrite unconditional_app, unconditional_Put, unconditional_PutIfAbsent, app_nil_r.
  now apply lastNamed_unique.
Qed.


(** C1, as amended. A stylesheet that is read during a rebuild and holds a
    formal property declaration and a plain declaration of the same name
    [nm].
    Right after the file has been processed, the entry of [nm] is the
    variable of the formal declaration (origin global, description built
    from its comment and the fields of its body), whatever the table held
    before: the plain declaration does not overwrite it.  In the rebuilt
    table the entry of [nm] is always one stored by a formal declaration
    or a documentation tag, never by a plain declaration; and it is the
    variable of this formal declaration unless another formal declaration
    or a documentation tag of the traversal stores something else under
    [nm]. *)
Theorem formal_declaration_suppresses_plain :
  forall (h : Host) (m0 : JsMap.t) (file content : string)
         (pm vm : match_result) (comment nm body declaration : string),
    In file (cssFiles h) ->
    readFile h file = Returned content ->
    In pm (matchAll PROPERTY_RULE_PATTERN content) ->
    group pm 1 = Some comment -> group pm 2 = Some nm -> group pm 3 = Some body ->
    In vm (matchAll CSS_VAR_PATTERN content) ->
    group vm 2 = Some declaration ->
    option_map matched (exec VAR_NAME_PATTERN declaration) = Some nm ->
    let formal :=
      MkVariable nm (Some (propertyDescription comment body)) global None file in
    ((forall v, In v (formalVariables file content) -> name v = nm -> v = formal) ->
     forall m, JsMap.get nm (snd (processCssFile h file m)) = Some formal)
    /\ (exists stored,
           JsMap.get nm (rebuilt h m0) = Some stored
           /\ lastNamed nm (unconditionalWrites h) = Some stored)
    /\ ((forall w, In w (unconditionalWrites h) -> name w = nm -> w = formal) ->
        JsMap.get nm (rebuilt h m0) = Some formal).
Proof.
  intros h m0 file content pm vm comment nm body declaration
         Hfile Hread Hpm G1 G2 G3 _ _ _ formal.
  assert (Hlocal : In formal (formalVariables file content)).
  { apply In_collect. exists pm. split; [assumption|].
    unfold propertyVariable. now rewrite G1, G2, G3. }
  assert (Hin : In formal (unconditionalWrites h)).
  { unfold unconditionalWrites. apply in_or_app. left.
    apply In_formalWrites. exists file, content, pm. repeat split; try assumption.
    unfold propertyVariable. now rewrite G1, G2, G3. }
  split; [|split].
  - intros Huniq m. now apply (processCssFile_entry h file content formal).
  - destruct (lastNamed_exists nm _ formal Hin eq_refl) as [stored H].
    exists stored. split; [|assumption]. now apply rebuilt_lastNamed.
  - intros Huniq. apply rebuilt_lastNamed.
    now apply lastNamed_unique.
Qed.


(** C6, as amended. Whatever the files of a rebuild declare, the entry of
    a name that some formal declaration or documentation tag declares is
    the variable of the last such declaration in traversal order; plain
    declarations, wherever they stand, do not replace it. *)
Theorem last_unconditional_declaration_wins :
  forall (h : Host) (m0 : JsMap.t) (nm : string) (v : CSSVariable),
    lastNamed nm (unconditionalWrites h) = Some v ->
    JsMap.get nm (rebuilt h m0) = Some v.
Proof.
  intros h m0 nm v H. now apply rebuilt_lastNamed.
Qed.

(** C7, as amended. A formal declaration whose body holds none of the
    three fields still yields an entry, and the description built for it
    is the trimmed comment followed by the opening and the closing line of
    the fenced block, with no field line in between.  That variable is the
    entry of the name right after the file has been processed, and in the
    rebuilt table unless another formal declaration or a documentation
    tag stores something else under the name. *)
Theorem fieldless_property_description :
  forall (h : Host) (m0 : JsMap.t) (file content : string)
         (pm : match_result) (comment nm body : string),
    In file (cssFiles h) ->
    readFile h file = Returned content ->
    In pm (matchAll PROPERTY_RULE_PATTERN content) ->
    group pm 1 = Some comment -> group pm 2 = Some nm -> group pm 3 = Some body ->
    exec SYNTAX_PATTERN body = None ->
    exec INHERITS_PATTERN body = None ->
    exec INITIAL_VALUE_PATTERN body = None ->
    let formal := MkVariable nm (Some (emptyFence comment)) global None file in
    propertyDescription comment body = emptyFence comment
    /\ (exists stored, JsMap.get nm (rebuilt h m0) = Some stored)
    /\ ((forall v, In v (formalVariables file content) -> name v = nm -> v = formal) ->
        forall m, JsMap.get nm (snd (processCssFile h file m)) = Some formal)
    /\ ((forall w, In w (unconditionalWrites h) -> name w = nm -> w = formal) ->
        JsMap.get nm (rebuilt h m0) = Some formal).
Proof.
  intros h m0 file content pm comment nm body
         Hfile Hread Hpm G1 G2 G3 Hsyntax Hinherits Hinitial formal.
  assert (Hdesc : propertyDescription comment body = emptyFence comment).
  { unfold propertyDescription, emptyFence, field.
    rewrite Hsyntax, Hinherits, Hinitial. simpl.
    destruct (Js.trim comment); reflexivity. }
  assert (Hlocal : In formal (formalVariables file content)).
  { apply In_collect. exists pm. split; [assumption|].
    unfold propertyVariable, formal. now rewrite G1, G2, G3, Hdesc. }
  assert (Hin : In formal (unconditionalWrites h)).
  { unfold unconditionalWrites. apply in_or_app. left.
    apply In_formalWrites. exists file, content, pm. repeat split; try assumption.
    unfold propertyVariable, formal. now rewrite G1, G2, G3, Hdesc. }
  split; [assumption|]. split; [|split].
  - destruct (lastNamed_exists nm _ formal Hin eq_refl) as [stored H].
    exists stored. now apply rebuilt_lastNamed.
  - intros Huniq m. now apply (processCssFile_entry h file content formal).
  - intros Huniq. apply rebuilt_lastNamed. now apply lastNamed_unique.
Qed.

(** C8. A rebuild does not depend on the table it starts from: run again
    on its own result, with the files unchanged, it returns and leaves
    the very same table. *)
Theorem rebuild_idempotent :
  forall (h : Host) (m0 : JsMap.t),
    updateVariables h (rebuilt h m0) = (Returned tt, rebuilt h m0).
Proof.
  intros h m0. now rewrite updateVariables_writes, rebuilt_writes.
Qed.

(** ** Symbol index: files that cannot be read *)

Lemma values_set (k : string) (x : CSSVariable) (m : JsMap.t) (v : CSSVariable) :
  In v (JsMap.values (JsMap.set k x m)) -> v = x \/ In v (JsMap.values m).
Proof.
  unfold JsMap.values. induction m as [|[k' v'] m IH]; simpl.
  - intros [H|[]]; auto.
  - destruct (String.eqb k' k); simpl; intros [H|H]; auto.
    destruct (IH H); auto.
Qed.

(** Every value of the table after some writes was there before or is the
    variable of one of the writes. *)
Lemma values_fold_writes (ws : list write) :
  forall m v, In v (JsMap.values (fold_left applyWrite ws m)) ->
              In v (JsMap.values m) \/ In v (map written ws).
Proof.
  induction ws as [|w ws IH]; intros m v H; simpl in *; [auto|].
  destruct (IH _ _ H) as [Hm|Hws]; [|auto].
  destruct w as [x|x]; simpl in Hm.
  - destruct (values_set _ _ _ _ Hm); auto.
  - destruct (JsMap.has (name x) m); [auto|].
    destruct (values_set _ _ _ _ Hm); auto.
Qed.

Lemma values_rebuilt (h : Host) (m0 : JsMap.t) (v : CSSVariable) :
  In v (JsMap.values (rebuilt h m0)) -> In v (declarations h).
Proof.
  rewrite rebuilt_writes. intros H.
  destruct (values_fold_writes _ _ _ H) as [[]|H']. exact H'.
Qed.

(** What is known of a declared variable: where it was read and of which
    kind it is. *)
Lemma declarations_origin (h : Host) (v : CSSVariable) :
  In v (declarations h) ->
  (exists content, readFile h (filePath v) = Returned content)
  /\ (source v = global
      \/ (source v = component
          /\ In (filePath v) (svelteFiles h)
          /\ componentName v = Some (Path.basename (filePath v) ".svelte"))).
Proof.
  unfold declarations, allWrites. rewrite map_app, in_app_iff, !in_map_iff.
  intros [(w & <- & Hw)|(w & <- & Hw)]; apply in_flat_map in Hw as (file & Hfile & Hw).
  - unfold cssFileWrites, whenRead in Hw.
    destruct (readFile h file) as [content|] eqn:E; [|contradiction].
    apply in_app_iff in Hw as [Hw|Hw]; apply in_map_iff in Hw as (x & <- & Hx);
      apply In_collect in Hx as (m & _ & Hx); simpl.
    + apply propertyVariable_name in Hx as (_ & Hs & ->). eauto.
    + apply plainVariable_shape in Hx as (Hs & ->). eauto.
  - unfold svelteFileWrites, whenRead in Hw.
    destruct (readFile h file) as [content|] eqn:E; [|contradiction].
    apply in_map_iff in Hw as (x & <- & Hx).
    apply In_collect in Hx as (m & _ & Hx); simpl.
    apply tagVariable_shape in Hx as (_ & Hs & Hc & ->).
    split; [eauto|]. right. auto.
Qed.

Lemma flat_map_filter_skip {A B} (keep : A -> bool) (f : A -> list B) (xs : list A) :
  (forall x, keep x = false -> f x = []) ->
  flat_map f (filter keep xs) = flat_map f xs.
Proof.
  intros Hskip. induction xs as [|x xs IH]; simpl; [reflexivity|].
  destruct (keep x) eqn:E; simpl; rewrite IH; [reflexivity|].
  now rewrite (Hskip x E).
Qed.

Lemma filter_flat_map {A B} (keep : B -> bool) (f : A -> list B) (xs : list A) :
  filter keep (flat_map f xs) = flat_map (fun x => filter keep (f x)) xs.
Proof.
  induction xs as [|x xs IH]; simpl; [reflexivity|].
  now rewrite filter_app, IH.
Qed.

Lemma filesOf_withoutFile (bad : string) (h : Host) (important : list string)
      (pattern : string) :
  filesOf (withoutFile bad h) important pattern
  = filter (fun f => negb (String.eqb f bad)) (filesOf h important pattern).
Proof.
  unfold filesOf. rewrite filter_app, filter_flat_map. reflexivity.
Qed.

Lemma allWrites_withoutFile (bad e : string) (h : Host) :
  readFile h bad = Thrown e -> allWrites (withoutFile bad h) = allWrites h.
Proof.
  intros Hbad.
  assert (Hskip : forall (W : Host -> string -> list write),
             (forall f, W (withoutFile bad h) f = W h f) ->
             W h bad = [] ->
             forall important patterns,
               flat_map (W (withoutFile bad h))
                 (flat_map (filesOf (withoutFile bad h) important) patterns)
               = flat_map (W h) (flat_map (filesOf h important) patterns)).
  { intros W Hsame Hnone important patterns.
    rewrite (flat_map_ext _ _ Hsame).
    rewrite (flat_map_ext _ _ (filesOf_withoutFile bad h important)).
    rewrite <- filter_flat_map. apply flat_map_filter_skip.
    intros f Hf. apply negb_false_iff, String.eqb_eq in Hf. now subst. }
  unfold allWrites, cssFiles, svelteFiles. f_equal.
  - apply (Hskip cssFileWrites); [reflexivity|].
    unfold cssFileWrites, whenRead. now rewrite Hbad.
  - apply (Hskip svelteFileWrites); [reflexivity|].
    unfold svelteFileWrites, whenRead. now rewrite Hbad.
Qed.

(** C9. When reading a file fails, the rebuild still returns; it leaves
    the table it would leave if no search had found that file, and no
    entry of that table comes from the file. *)
Theorem unreadable_file_is_skipped :
  forall (h : Host) (m0 : JsMap.t) (bad e : string),
    readFile h bad = Thrown e ->
    updateVariables h m0 = (Returned tt, rebuilt (withoutFile bad h) m0)
    /\ (forall v, In v (JsMap.values (rebuilt h m0)) -> filePath v <> bad).
Proof.
  intros h m0 bad e Hbad. split.
  - rewrite updateVariables_writes, rebuilt_writes.
    now rewrite (allWrites_withoutFile bad e h Hbad).
  - intros v Hv Heq. apply values_rebuilt, declarations_origin in Hv as [[content Hread] _].
    rewrite Heq in Hread. congruence.
Qed.

(** The rebuild returns whatever the files hold or fail to give. *)
Lemma updateVariables_returns (h : Host) (m0 : JsMap.t) :
  fst (updateVariables h m0) = Returned tt.
Proof.
  now rewrite updateVariables_writes.
Qed.

(** A rebuilt table satisfies the invariant of the data model as soon as
    the component files have a non-empty base name. *)
Lemma rebuilt_table_wf (h : Host) (m0 : JsMap.t) :
  (forall file, In file (svelteFiles h) -> Path.basename file ".svelte" <> EmptyString) ->
  table_wf (rebuilt h m0).
Proof.
  intros Hnames v Hv Hsource.
  apply values_rebuilt, declarations_origin in Hv as [_ [Hg|(_ & Hfile & Hc)]].
  - congruence.
  - exists (Path.basename (filePath v) ".svelte"). auto.
Qed.

(** ** Names in the table *)

Import EngineFacts.

Lemma property_name (content : string) (pm : match_result) (nm : string) :
  In pm (matchAll PROPERTY_RULE_PATTERN content) -> group pm 2 = Some nm ->
  is_variable_name nm.
Proof.
  intros Hpm Hnm. apply matchAll_from_anchored in Hpm as [s Hs].
  apply match_at_sound in Hs as (_ & _ & Hgroups).
  destruct (Hgroups 2 nm Hnm) as (g & Hg & Mg). simpl in Hg.
  repeat match type of Hg with
         | _ \/ _ => destruct Hg as [Hg|Hg]
         | _ /\ _ => destruct Hg as [Hk Hg]; try discriminate
         | False => contradiction
         end.
  subst g. now apply Matches_name.
Qed.

Lemma cssprop_name (content : string) (tm : match_result) (nm : string) :
  In tm (matchAll CSSPROP_DOC_PATTERN content) -> group tm 1 = Some nm ->
  is_variable_name nm.
Proof.
  intros Htm Hnm. apply matchAll_from_anchored in Htm as [s Hs].
  apply match_at_sound in Hs as (_ & _ & Hgroups).
  destruct (Hgroups 1 nm Hnm) as (g & Hg & Mg). simpl in Hg.
  repeat match type of Hg with
         | _ \/ _ => destruct Hg as [Hg|Hg]
         | _ /\ _ => destruct Hg as [Hk Hg]; try discriminate
         | False => contradiction
         end.
  subst g. now apply Matches_name.
Qed.

Lemma found_name (declaration : string) (found : match_result) :
  exec VAR_NAME_PATTERN declaration = Some found -> is_variable_name (matched found).
Proof.
  intros H. apply exec_anchored in H as [s Hs].
  apply match_at_sound in Hs as (M & _ & _). now apply Matches_name.
Qed.

(** The name invariant of the data model: every declared variable, and
    so every entry of a rebuilt table, is named by two dashes followed by
    word characters and dashes. *)
Lemma declarations_names (h : Host) (v : CSSVariable) :
  In v (declarations h) -> is_variable_name (name v).
Proof.
  unfold declarations, allWrites. rewrite map_app, in_app_iff, !in_map_iff.
  intros [(w & <- & Hw)|(w & <- & Hw)]; apply in_flat_map in Hw as (file & Hfile & Hw).
  - unfold cssFileWrites, whenRead in Hw.
    destruct (readFile h file) as [content|] eqn:E; [|contradiction].
    apply in_app_iff in Hw as [Hw|Hw]; apply in_map_iff in Hw as (x & <- & Hx);
      apply In_collect in Hx as (m & Hm & Hx); simpl.
    + apply propertyVariable_name in Hx as (Hx & _). eapply property_name; eauto.
    + unfold plainVariable in Hx.
      destruct (group m 2) as [declaration|]; [|discriminate].
      destruct (exec VAR_NAME_PATTERN declaration) as [found|] eqn:Hfound; [|discriminate].
      destruct (Js.truthy _); [|discriminate].
      inversion Hx; subst; simpl. eapply found_name; eauto.
  - unfold svelteFileWrites, whenRead in Hw.
    destruct (readFile h file) as [content|] eqn:E; [|contradiction].
    apply in_map_iff in Hw as (x & <- & Hx).
    apply In_collect in Hx as (m & Hm & Hx); simpl.
    apply tagVariable_shape in Hx as (Hx & _). eapply cssprop_name; eauto.
Qed.

Lemma rebuilt_names (h : Host) (m0 : JsMap.t) (v : CSSVariable) :
  In v (JsMap.values (rebuilt h m0)) -> is_variable_name (name v).
Proof.
  intros H. apply (declarations_names h). now apply (values_rebuilt h m0).
Qed.

(** The component name stored for a tag of the file [dir/Stem.svelte] is
    [Stem]; with such files every rebuilt table satisfies the invariant of
    the data model. *)
Lemma tagVariable_componentName (dir stem : string) (tm : match_result) (v : CSSVariable) :
  Js.all (Js.not_char "/") stem = true -> stem <> EmptyString ->
  tagVariable (dir ++ "/" ++ stem ++ ".svelte") tm = Some v ->
  componentName v = Some stem.
Proof.
  intros Hplain Hgiven Hv. apply tagVariable_shape in Hv as (_ & _ & -> & _).
  now rewrite PathFacts.basename_of_component.
Qed.

Lemma rebuilt_table_wf_components (h : Host) (m0 : JsMap.t) :
  (forall file, In file (svelteFiles h) ->
                exists dir stem,
                  file = dir ++ "/" ++ stem ++ ".svelte"
                  /\ Js.all (Js.not_char "/") stem = true /\ stem <> EmptyString) ->
  table_wf (rebuilt h m0).
Proof.
  intros Hfiles. apply rebuilt_table_wf. intros file Hfile.
  destruct (Hfiles file Hfile) as (dir & stem & -> & Hplain & Hgiven).
  now rewrite PathFacts.basename_of_component.
Qed.

(** ** Completion resolver *)

Lemma collectImports_returns (ms : list match_result) :
  (forall m, In m ms -> exists inner, group m 1 = Some inner) ->
  forall acc, exists components, collectImports ms acc = Returned components.
Proof.
  induction ms as [|m ms IH]; intros Hgroups acc; simpl; [eauto|].
  destruct (Hgroups m (or_introl eq_refl)) as [inner ->].
  apply IH. intros m' Hm'. apply Hgroups. now right.
Qed.

(** Collecting the imports of a document never throws. *)
Lemma getCurrentComponentImports_returns (document : TextDocument) :
  exists components, getCurrentComponentImports document = Returned components.
Proof.
  apply collectImports_returns. intros m Hm. eapply import_groups; eauto.
Qed.

Lemma JsSet_has_In (x : string) (s : JsSet.t) : JsSet.has x s = true <-> In x s.
Proof.
  unfold JsSet.has. rewrite existsb_exists. split.
  - intros (y & Hy & Heq). apply String.eqb_eq in Heq. now subst.
  - intros H. exists x. split; [assumption|apply String.eqb_refl].
Qed.

(** A completion request returns, and leaves the table as it was. *)
Lemma provideCompletionItems_returns (h : Host) (document : TextDocument)
      (position : Position) (variables : JsMap.t) :
  exists items,
    provideCompletionItems h document position variables = (Returned items, variables).
Proof.
  unfold provideCompletionItems.
  destruct (negb _ && negb _ && negb _); [eauto|].
  destruct (getCurrentComponentImports_returns document) as [components ->]. eauto.
Qed.

(** Without any of the three tests of the code holding, the result is the
    empty list. *)
Lemma no_pattern_no_items (h : Host) (document : TextDocument) (position : Position)
      (variables : JsMap.t) :
  let linePrefix := linePrefixOf document position in
  isVarPattern linePrefix = false ->
  isDirectPattern linePrefix = false ->
  isSvelteAttributePattern linePrefix = false ->
  provideCompletionItems h document position variables = (Returned [], variables).
Proof.
  intros linePrefix Hvar Hdirect Hattr. unfold provideCompletionItems.
  fold linePrefix. now rewrite Hvar, Hdirect, Hattr.
Qed.

(** What a request returns once one of the tests holds. *)
Lemma provideCompletionItems_items (h : Host) (document : TextDocument)
      (position : Position) (variables : JsMap.t) (components : JsSet.t) :
  let linePrefix := linePrefixOf document position in
  isVarPattern linePrefix || isDirectPattern linePrefix
  || isSvelteAttributePattern linePrefix = true ->
  getCurrentComponentImports document = Returned components ->
  provideCompletionItems h document position variables
  = (Returned (map (toCompletionItem h linePrefix)
                 (filter (eligible components) (JsMap.values variables))),
     variables).
Proof.
  intros linePrefix Htrigger Himports. unfold provideCompletionItems.
  fold linePrefix. rewrite Himports.
  destruct (isVarPattern linePrefix), (isDirectPattern linePrefix),
    (isSvelteAttributePattern linePrefix); simpl in *; try reflexivity; discriminate.
Qed.

(** Items are built from table entries by [toCompletionItem]. *)
Lemma provideCompletionItems_item (h : Host) (document : TextDocument)
      (position : Position) (variables variables' : JsMap.t)
      (items : list CompletionItem) (item : CompletionItem) :
  provideCompletionItems h document position variables = (Returned items, variables') ->
  In item items ->
  exists variable,
    In variable (JsMap.values variables)
    /\ item = toCompletionItem h (linePrefixOf document position) variable.
Proof.
  unfold provideCompletionItems.
  destruct (negb _ && negb _ && negb _).
  - intros H; inversion H; subst. contradiction.
  - destruct (getCurrentComponentImports document) as [components|e]; [|discriminate].
    intros H; inversion H; subst. intros Hin.
    apply in_map_iff in Hin as (variable & <- & Hv).
    apply filter_In in Hv as [Hv _]. eauto.
Qed.

(** C2, at the inputs where the code departs from it. On the prefix
    [color: var(-], which ends in neither [var(--] nor [--], and on the
    prefix [width: var(--a); margin: -], whose only [var(] call is closed,
    the request returns one candidate per eligible variable. *)
Theorem var_test_accepts_single_dash :
  let request text :=
    fst (provideCompletionItems Sample.project (Sample.documentWithLine text)
           (Sample.endOfLine text) (rebuilt Sample.project [])) in
  let outcome_labels (o : outcome (list CompletionItem)) :=
    match o with
    | Returned items => Some (map label items)
    | Thrown _ => None
    end in
  Js.endsWith "var(--" "color: var(-" = false
  /\ isDirectPattern "color: var(-" = false
  /\ isSvelteAttributePattern "color: var(-" = false
  /\ outcome_labels (request "color: var(-")
     = Some ["--brand"; "--gap"; "--foo"; "--btn-size"]
  /\ Js.endsWith "var(--" "width: var(--a); margin: -" = false
  /\ isDirectPattern "width: var(--a); margin: -" = false
  /\ isSvelteAttributePattern "width: var(--a); margin: -" = false
  /\ outcome_labels (request "width: var(--a); margin: -")
     = Some ["--brand"; "--gap"; "--foo"; "--btn-size"].
Proof.
  vm_compute. repeat split.
Qed.

(** The inserted text by the tests of the code. For an eligible variable
    named [--rest], a request on a matching prefix returns a candidate
    whose label is the full name and whose inserted text is [rest)] when
    the var test holds, else [rest] when the attribute test holds, else
    the full name. *)
Theorem insertion_text_by_trigger :
  forall (h : Host) (document : TextDocument) (position : Position)
         (variables : JsMap.t) (components : JsSet.t)
         (variable : CSSVariable) (rest : string),
    let linePrefix := linePrefixOf document position in
    getCurrentComponentImports document = Returned components ->
    In variable (JsMap.values variables) ->
    eligible components variable = true ->
    name variable = "--" ++ rest ->
    isVarPattern linePrefix || isDirectPattern linePrefix
    || isSvelteAttributePattern linePrefix = true ->
    exists items item,
      provideCompletionItems h document position variables = (Returned items, variables)
      /\ In item items
      /\ label item = "--" ++ rest
      /\ insertedText item
         = if isVarPattern linePrefix then rest ++ ")"
           else if isSvelteAttributePattern linePrefix then rest
                else "--" ++ rest.
Proof.
  intros h document position variables components variable rest linePrefix
         Himports Hin Heligible Hname Htrigger.
  exists (map (toCompletionItem h linePrefix)
            (filter (eligible components) (JsMap.values variables))),
    (toCompletionItem h linePrefix variable).
  split; [now apply provideCompletionItems_items|].
  split; [apply in_map, filter_In; auto|].
  split; [exact Hname|].
  unfold insertedText, toCompletionItem; simpl. rewrite Hname.
  destruct (isVarPattern linePrefix); [reflexivity|].
  destruct (isSvelteAttributePattern linePrefix); reflexivity.
Qed.

(** C3, at inputs where the code departs from it.  The prefixes end in a
    blank followed by two dashes, the attribute trigger, and in no
    [var(--]; the code's var test holds because a closed [var(] call
    stands earlier on the line, and the inserted text is the one of the
    var trigger, with the parenthesis. *)
Theorem attribute_trigger_inserts_parenthesis :
  let request text :=
    fst (provideCompletionItems Sample.project (Sample.documentWithLine text)
           (Sample.endOfLine text) [("--foo-bar", Sample.fooBar)]) in
  let inserted (o : outcome (list CompletionItem)) :=
    match o with
    | Returned items => Some (map (fun item => (label item, insertedText item)) items)
    | Thrown _ => None
    end in
  isSvelteAttributePattern "width: var(--a); --" = true
  /\ Js.endsWith "var(--" "width: var(--a); --" = false
  /\ inserted (request "width: var(--a); --") = Some [("--foo-bar", "foo-bar)")]
  /\ isSvelteAttributePattern "<Button style='width: var(--a)' --" = true
  /\ Js.endsWith "var(--" "<Button style='width: var(--a)' --" = false
  /\ inserted (request "<Button style='width: var(--a)' --")
     = Some [("--foo-bar", "foo-bar)")].
Proof.
  vm_compute. repeat split.
Qed.

(** What the filter callback tests, on any variable. *)
Lemma eligible_spec (importedComponents : JsSet.t) (variable : CSSVariable) :
  eligible importedComponents variable = true
  <-> source variable = global
      \/ (source variable = component
          /\ exists c, componentName variable = Some c /\ c <> EmptyString
                       /\ In c importedComponents).
Proof.
  unfold eligible. destruct (source variable); split.
  - now left.
  - reflexivity.
  - destruct (componentName variable) as [c|]; [|discriminate].
    intros [Hc HS]%andb_true_iff. right. split; [reflexivity|].
    exists c. split; [reflexivity|]. split; [|now apply JsSet_has_In].
    now destruct c.
  - intros [H|(_ & c & -> & Hne & HS)]; [discriminate|].
    apply andb_true_iff. split; [destruct c; [contradiction|reflexivity]|].
    now apply JsSet_has_In.
Qed.


(** C10. The insertion text of every candidate follows the var test
    first, the attribute test second: when the prefix contains [var(-]
    anywhere and ends with a dash the text is the label without its first
    two characters followed by a closing parenthesis, whatever the other
    tests say; otherwise the attribute test decides between the stripped
    name and no insertion text of its own. *)
Theorem var_pattern_has_priority :
  forall (h : Host) (document : TextDocument) (position : Position)
         (variables variables' : JsMap.t) (items : list CompletionItem)
         (item : CompletionItem),
    let linePrefix := linePrefixOf document position in
    provideCompletionItems h document position variables = (Returned items, variables') ->
    In item items ->
    (Js.includes "var(-" linePrefix = true -> Js.endsWith "-" linePrefix = true ->
     insertText item = Some (Js.substringFrom 2 (label item) ++ ")"))
    /\ (isVarPattern linePrefix = false -> isSvelteAttributePattern linePrefix = true ->
        insertText item = Some (Js.substringFrom 2 (label item)))
    /\ (isVarPattern linePrefix = false -> isSvelteAttributePattern linePrefix = false ->
        insertText item = None).
Proof.
  intros h document position variables variables' items item linePrefix Hrun Hin.
  destruct (provideCompletionItems_item _ _ _ _ _ _ _ Hrun Hin) as (variable & _ & ->).
  fold linePrefix. unfold toCompletionItem; simpl. repeat split.
  - intros Hinc Hend. unfold isVarPattern. now rewrite Hinc, Hend.
  - intros Hvar Hattr. now rewrite Hvar, Hattr.
  - intros Hvar Hattr. now rewrite Hvar, Hattr.
Qed.

(** ** The documented syntax, end to end *)

Import JsFacts SyntaxFacts.

(** X11. A component file whose text holds a tag of the documented form, with
    no [@] before it: unless another documentation tag stores something
    else under the name, the rebuilt table holds the tag's variable. *)
Lemma documented_tag_indexed :
  forall (h : Host) (m0 : JsMap.t) (file pre blank1 nm blank2 blank3 text rest : string),
    In file (svelteFiles h) ->
    readFile h file
    = Returned (pre ++ "@cssprop" ++ blank1 ++ "--" ++ nm ++ blank2 ++ "-" ++ blank3
                ++ text ++ rest) ->
    Js.all (Js.not_char "@") pre = true ->
    Js.all Js.is_space blank1 = true -> blank1 <> EmptyString ->
    Js.all Js.is_word_or_dash nm = true -> nm <> EmptyString ->
    Js.all Js.is_space blank2 = true -> blank2 <> EmptyString ->
    Js.all Js.is_space blank3 = true ->
    Js.all (Js.not_char "010") text = true ->
    Js.starts (fun a => negb (Js.is_space a)) text ->
    Js.stops (Js.not_char "010") rest ->
    let tag :=
      MkVariable ("--" ++ nm) (Some (Js.trim text)) component
        (Some (Path.basename file ".svelte")) file in
    (forall w, In w (tagWrites h) -> name w = "--" ++ nm -> w = tag) ->
    JsMap.get ("--" ++ nm) (rebuilt h m0) = Some tag.
Proof.
  intros h m0 file pre blank1 nm blank2 blank3 text rest Hfile Hread Hpre
         Hb1 Hn1 Hnm Hn2 Hb2 Hn3 Hb3 Htext Hstart Hrest tag Huniq.
  pose proof (cssprop_tag_recognised blank1 nm blank2 blank3 text rest
                Hb1 Hn1 Hnm Hn2 Hb2 Hn3 Hb3 Htext Hstart Hrest) as Hmatch.
  assert (Hin : In tag (tagWrites h)).
  { apply In_tagWrites. eexists file, _, _. split; [assumption|].
    split; [eassumption|]. split.
    - unfold matchAll. rewrite matchAll_from_skip.
      + apply matchAll_head. exact Hmatch.
      + intros a s Ha. apply cssprop_needs_at. eapply all_In; eauto.
    - reflexivity. }
  apply rebuilt_lastNamed. unfold unconditionalWrites.
  pose proof (lastNamed_unique ("--" ++ nm) _ tag Hin eq_refl Huniq) as Hlast.
  now rewrite lastNamed_app, Hlast.
Qed.


(** X17. What the three tests of the code amount to: a non-empty result needs a
    prefix that contains [var(-] and ends with a dash, or ends with two
    dashes. *)
Lemma items_need_pattern (h : Host) (document : TextDocument) (position : Position)
      (variables variables' : JsMap.t) (items : list CompletionItem) :
  let linePrefix := linePrefixOf document position in
  provideCompletionItems h document position variables = (Returned items, variables') ->
  items <> [] ->
  (Js.includes "var(-" linePrefix = true /\ Js.endsWith "-" linePrefix = true)
  \/ Js.endsWith "--" linePrefix = true.
Proof.
  intros linePrefix Hrun Hitems. unfold provideCompletionItems in Hrun.
  fold linePrefix in Hrun.
  destruct (isVarPattern linePrefix) eqn:Hvar.
  - left. now apply andb_true_iff.
  - right. destruct (isDirectPattern linePrefix) eqn:Hdirect; [exact Hdirect|].
    destruct (isSvelteAttributePattern linePrefix) eqn:Hattr.
    + apply attribute_implies_direct in Hattr. congruence.
    + simpl in Hrun. inversion Hrun; subst. contradiction.
Qed.

(** ** The theorems at sample inputs *)

Ltac by_computation := vm_compute; auto 10.

(** Feeds the hypotheses of an instantiated theorem by computation. *)
Ltac feed H :=
  repeat (lapply H; [clear H; intros H|solve [by_computation]]).

(** Closes a goal with a fact equal to it by computation. *)
Ltac conclude H := vm_compute in H; vm_compute; exact H.

Ltac only_declaration :=
  let w := fresh "w" in
  let Hw := fresh "Hw" in
  let Hn := fresh "Hn" in
  intros w Hw Hn; vm_compute in Hw;
  repeat (destruct Hw as [Hw|Hw];
          [subst w; try reflexivity; vm_compute in Hn; discriminate|]);
  destruct Hw.

Lemma formal_declaration_suppresses_plain_witness :
  JsMap.get "--brand" (rebuilt Sample.project [])
  = Some (MkVariable "--brand"
            (Some ("Brand color" ++ nl ++ "```css" ++ nl ++ "syntax: <color>" ++ nl
                   ++ "inherits: false" ++ nl ++ "initial-value: red" ++ nl ++ "```"))
            global None "/w/theme.css").
Proof.
  pose proof (formal_declaration_suppresses_plain Sample.project [] "/w/theme.css"
                Sample.themeCss
                (nth 0 (matchAll PROPERTY_RULE_PATTERN Sample.themeCss) (MkMatch "" []))
                (nth 0 (matchAll CSS_VAR_PATTERN Sample.themeCss) (MkMatch "" []))
                " Brand color " "--brand"
                " syntax: '<color>'; inherits: false; initial-value: red; "
                (nl ++ ":root { --brand: blue;")) as H.
  feed H. destruct H as (_ & _ & H).
  lapply H; [clear H; intros H; conclude H|only_declaration].
Defined.

(** C1 as stated fails: the stylesheet holds a formal and a plain
    declaration of [--brand], a component file processed later holds a
    documentation tag of the same name, and the entry is the tag's, of
    origin component. *)
Lemma formal_declaration_replaced_by_tag :
  cssFiles Scenario.shadowedProject = ["/w/theme.css"]
  /\ svelteFiles Scenario.shadowedProject = ["/w/Badge.svelte"]
  /\ map name (formalVariables "/w/theme.css" Sample.themeCss) = ["--brand"]
  /\ map name (plainVariables "/w/theme.css" Sample.themeCss) = ["--brand"; "--gap"]
  /\ JsMap.get "--brand" (rebuilt Scenario.shadowedProject [])
     = Some (MkVariable "--brand" (Some "Badge color") component (Some "Badge")
               "/w/Badge.svelte")
  /\ ~ formalDeclarationIndexed Scenario.shadowedProject.
Proof.
  repeat split; try (vm_compute; reflexivity).
  intros Hclaim.
  pose proof (Hclaim "/w/theme.css" Sample.themeCss
                (nth 0 (matchAll PROPERTY_RULE_PATTERN Sample.themeCss) (MkMatch "" []))
                (nth 0 (matchAll CSS_VAR_PATTERN Sample.themeCss) (MkMatch "" []))
                " Brand color " "--brand"
                " syntax: '<color>'; inherits: false; initial-value: red; "
                (nl ++ ":root { --brand: blue;")) as H.
  feed H. destruct H as (v & Hget & Hsource & _).
  vm_compute in Hget. injection Hget as <-. discriminate.
Qed.



Lemma last_unconditional_declaration_wins_witness :
  JsMap.get "--x" (rebuilt Sample.collidingProject [])
  = Some (MkVariable "--x"
            (Some ("first" ++ nl ++ "```css" ++ nl ++ "syntax: <length>" ++ nl ++ "```"))
            global None "/w/a.css").
Proof.
  pose proof (last_unconditional_declaration_wins Sample.collidingProject [] "--x"
                (MkVariable "--x"
                   (Some ("first" ++ nl ++ "```css" ++ nl ++ "syntax: <length>" ++ nl
                          ++ "```"))
                   global None "/w/a.css")) as H.
  feed H. conclude H.
Defined.

(** C6 as stated fails: the second stylesheet is the last to declare
    [--x], yet the entry is the one of the first. *)
Lemma last_declaration_does_not_win :
  cssFiles Sample.collidingProject = ["/w/a.css"; "/w/b.css"]
  /\ map filePath (declarations Sample.collidingProject) = ["/w/a.css"; "/w/b.css"]
  /\ map name (declarations Sample.collidingProject) = ["--x"; "--x"]
  /\ option_map filePath (JsMap.get "--x" (rebuilt Sample.collidingProject []))
     = Some "/w/a.css"
  /\ ~ lastDeclarationWins Sample.collidingProject.
Proof.
  repeat split; try (vm_compute; reflexivity).
  intros Hclaim.
  specialize (Hclaim "--x" (MkVariable "--x" (Some "second") global None "/w/b.css")).
  vm_compute in Hclaim. specialize (Hclaim eq_refl). discriminate.
Qed.

Lemma fieldless_property_description_witness :
  JsMap.get "--brand" (rebuilt Sample.bareProject [])
  = Some (MkVariable "--brand" (Some ("Brand" ++ nl ++ "```css" ++ nl ++ "```"))
            global None "/w/bare.css").
Proof.
  pose proof (fieldless_property_description Sample.bareProject [] "/w/bare.css"
                Sample.bareCss
                (nth 0 (matchAll PROPERTY_RULE_PATTERN Sample.bareCss) (MkMatch "" []))
                " Brand " "--brand" " color: red; ") as H.
  feed H. destruct H as (_ & _ & _ & H).
  lapply H; [clear H; intros H; conclude H|only_declaration].
Defined.

(** C7 as stated fails: the body [ color: red; ] holds none of the three
    fields, and the stored description is not the comment alone. *)
Lemma fieldless_property_keeps_fence :
  field SYNTAX_PATTERN " color: red; " = None
  /\ field INHERITS_PATTERN " color: red; " = None
  /\ field INITIAL_VALUE_PATTERN " color: red; " = None
  /\ option_map description (JsMap.get "--brand" (rebuilt Sample.bareProject []))
     = Some (Some ("Brand" ++ nl ++ "```css" ++ nl ++ "```"))
  /\ option_map description (JsMap.get "--brand" (rebuilt Sample.bareProject []))
     <> Some (Some "Brand")
  /\ option_map description (JsMap.get "--brand" (rebuilt Sample.bareProject []))
     <> Some (Some " Brand ").
Proof.
  repeat split; try (vm_compute; reflexivity); vm_compute; discriminate.
Qed.

Lemma unreadable_file_is_skipped_witness :
  readFile Sample.project "/w/gone.css" = Thrown "ENOENT"
  /\ In "/w/gone.css" (cssFiles Sample.project)
  /\ updateVariables Sample.project []
     = (Returned tt, rebuilt (withoutFile "/w/gone.css" Sample.project) []).
Proof.
  split; [reflexivity|]. split; [vm_compute; auto|].
  pose proof (unreadable_file_is_skipped Sample.project [] "/w/gone.css" "ENOENT") as H.
  feed H. exact (proj1 H).
Defined.

Lemma insertion_text_by_trigger_witness :
  (exists items item,
      provideCompletionItems Sample.project (Sample.documentWithLine "color: var(--")
        (Sample.endOfLine "color: var(--") [("--foo-bar", Sample.fooBar)]
      = (Returned items, [("--foo-bar", Sample.fooBar)])
      /\ In item items /\ label item = "--foo-bar" /\ insertedText item = "foo-bar)")
  /\ (exists items item,
         provideCompletionItems Sample.project (Sample.documentWithLine "<Button --")
           (Sample.endOfLine "<Button --") [("--foo-bar", Sample.fooBar)]
         = (Returned items, [("--foo-bar", Sample.fooBar)])
         /\ In item items /\ label item = "--foo-bar" /\ insertedText item = "foo-bar")
  /\ (exists items item,
         provideCompletionItems Sample.project (Sample.documentWithLine "--")
           (Sample.endOfLine "--") [("--foo-bar", Sample.fooBar)]
         = (Returned items, [("--foo-bar", Sample.fooBar)])
         /\ In item items /\ label item = "--foo-bar" /\ insertedText item = "--foo-bar").
Proof.
  pose proof (fun text =>
                insertion_text_by_trigger Sample.project (Sample.documentWithLine text)
                  (Sample.endOfLine text) [("--foo-bar", Sample.fooBar)] ["Button"]
                  Sample.fooBar "foo-bar") as H.
  pose proof (H "color: var(--") as Hvar.
  pose proof (H "<Button --") as Hattribute.
  pose proof (H "--") as Hdirect. clear H.
  feed Hvar. feed Hattribute. feed Hdirect.
  destruct Hvar as (items1 & item1 & R1 & I1 & L1 & T1).
  destruct Hattribute as (items2 & item2 & R2 & I2 & L2 & T2).
  destruct Hdirect as (items3 & item3 & R3 & I3 & L3 & T3).
  split; [|split]; eexists; eexists; (split; [eassumption|]);
    (split; [eassumption|]); (split; [eassumption|]); assumption.
Defined.


Lemma var_pattern_has_priority_witness :
  isSvelteAttributePattern "width: var(--a); --" = true
  /\ isDirectPattern "width: var(--a); --" = true
  /\ insertText (toCompletionItem Sample.project "width: var(--a); --" Sample.fooBar)
     = Some "foo-bar)".
Proof.
  split; [vm_compute; reflexivity|]. split; [vm_compute; reflexivity|].
  pose proof (var_pattern_has_priority Sample.project
                (Sample.documentWithLine "width: var(--a); --")
                (Sample.endOfLine "width: var(--a); --")
                [("--foo-bar", Sample.fooBar)] [("--foo-bar", Sample.fooBar)]
                [toCompletionItem Sample.project "width: var(--a); --" Sample.fooBar]
                (toCompletionItem Sample.project "width: var(--a); --" Sample.fooBar))
    as H.
  feed H. destruct H as [H _]. feed H. conclude H.
Defined.

(** ** The scenarios of the specification *)

(** Trigger detection on the four sample prefixes. *)
Example trigger_detection :
  isVarPattern "color: var(--" = true
  /\ (isVarPattern "--" = false /\ isDirectPattern "--" = true
      /\ isSvelteAttributePattern "--" = false)
  /\ (isVarPattern "  --" = false /\ isSvelteAttributePattern "  --" = true)
  /\ (isVarPattern "margin: 1px" = false /\ isDirectPattern "margin: 1px" = false
      /\ isSvelteAttributePattern "margin: 1px" = false)
  /\ provideCompletionItems Sample.project (Sample.documentWithLine "margin: 1px")
       (Sample.endOfLine "margin: 1px") (rebuilt Sample.project [])
     = (Returned [], rebuilt Sample.project []).
Proof.
  vm_compute. repeat split.
Qed.

(** A plain declaration with its comment. *)
Example brand_color_scenario :
  rebuilt
    (Sample.workspace ["**/*.css"] [] [("**/*.css", ["/w/brand.css"])]
       [("/w/brand.css", "/* Brand color */" ++ nl ++ "--brand: #123;")]) []
  = [("--brand", MkVariable "--brand" (Some "Brand color") global None "/w/brand.css")].
Proof.
  vm_compute. reflexivity.
Qed.

(** The tag of Button.svelte, and who may complete it. *)
Example button_scenario :
  JsMap.get "--btn-size" (rebuilt Sample.project [])
  = Some (MkVariable "--btn-size" (Some "Controls button size") component (Some "Button")
            "/w/node_modules/lutra/Button.svelte")
  /\ getCurrentComponentImports (Sample.documentWithLine "--") = Returned ["Button"]
  /\ eligible ["Button"]
       (MkVariable "--btn-size" (Some "Controls button size") component (Some "Button")
          "/w/node_modules/lutra/Button.svelte") = true
  /\ eligible ["Card"; "Input"]
       (MkVariable "--btn-size" (Some "Controls button size") component (Some "Button")
          "/w/node_modules/lutra/Button.svelte") = false.
Proof.
  vm_compute. repeat split.
Qed.

(** The documented forms at the texts of the samples. *)
Example documented_forms_apply :
  match_at CSSPROP_DOC_PATTERN ("@cssprop --foo - bar baz" ++ nl ++ "-->")
  = Some (MkMatch "@cssprop --foo - bar baz" [(2, "bar baz"); (1, "--foo")])
  /\ match_at PROPERTY_RULE_PATTERN
       ("/** Brand */" ++ nl ++ "@property --brand { color: red; }")
     = Some (MkMatch ("/** Brand */" ++ nl ++ "@property --brand { color: red; }")
               [(3, " color: red; "); (2, "--brand"); (1, " Brand ")])
  /\ match_at CSS_VAR_PATTERN ("/* Brand color */" ++ nl ++ "--brand: #123;")
     = Some (MkMatch ("/* Brand color */" ++ nl ++ "--brand: #123;")
               [(2, "--brand: #123;"); (1, " Brand color ")])
  /\ option_map matched (exec VAR_NAME_PATTERN "--brand: #123;") = Some "--brand".
Proof.
  split; [|split; [|split]].
  - apply (cssprop_tag_recognised " " "foo" " " " " "bar baz" (nl ++ "-->"));
      vm_compute; congruence.
  - apply (property_rule_recognised " Brand " nl " " "brand" " " " color: red; " "");
      vm_compute; congruence.
  - apply (commented_declaration_recognised " Brand color " nl "brand" " " "#123" "");
      vm_compute; congruence.
  - apply (declaration_name "brand" ": #123;"); vm_compute; congruence.
Qed.

(** [trim] on sample texts. *)
Example trim_samples :
  Js.trim "  bar baz  " = "bar baz"
  /\ Js.trim (" Brand color " ++ nl) = "Brand color"
  /\ Js.trim "   " = ""
  /\ Js.trim "a" = "a".
Proof.
  vm_compute. repeat split.
Qed.

(** * Further properties

    Properties of the rebuild, of the completion resolver and of the
    activation beyond the statements above. *)

Import RegexFacts JsFacts SyntaxFacts MapFacts RebuildFacts.

(** Feeds the hypotheses of an instantiated theorem by computation, also
    the ones that say two texts differ. *)
Ltac supply H :=
  repeat (lapply H; [clear H; intros H|solve [vm_compute; auto 10; congruence]]).

(** ** The table of a rebuild *)

Module TableFacts.

Lemma get_In (k : string) (v : CSSVariable) (m : JsMap.t) :
  JsMap.get k m = Some v -> In (k, v) m.
Proof.
  induction m as [|[k' v'] m IH]; simpl; [discriminate|].
  destruct (String.eqb k' k) eqn:E.
  - apply String.eqb_eq in E. intros [= ->]. left. now subst.
  - intros H. right. now apply IH.
Qed.

Lemma In_get (k : string) (v : CSSVariable) (m : JsMap.t) :
  NoDup (JsMap.keys m) -> In (k, v) m -> JsMap.get k m = Some v.
Proof.
  induction m as [|[k' v'] m IH]; simpl; [intros _ []|].
  intros Hnd [H|H].
  - injection H as -> ->. now rewrite String.eqb_refl.
  - inversion Hnd as [|? ? Hnot Hnd']; subst.
    destruct (String.eqb k' k) eqn:E.
    + apply String.eqb_eq in E. subst. exfalso. apply Hnot.
      apply in_map_iff. now exists (k, v).
    + now apply IH.
Qed.

Lemma get_None (k : string) (m : JsMap.t) :
  JsMap.get k m = None <-> ~ In k (JsMap.keys m).
Proof.
  rewrite <- MapFacts.has_In_keys. unfold JsMap.has.
  destruct (JsMap.get k m); split; try congruence; intros H; now destruct H.
Qed.

Lemma firstNamed_None (nm : string) (vs : list CSSVariable) :
  firstNamed nm vs = None <-> forall v, In v vs -> name v <> nm.
Proof.
  unfold firstNamed. split.
  - intros H v Hv E. apply (find_none _ _ H) in Hv.
    apply String.eqb_eq in E. congruence.
  - intros H. destruct (find _ vs) as [v|] eqn:E; [|reflexivity].
    apply find_some in E as (Hv & E). apply String.eqb_eq in E.
    now destruct (H v Hv).
Qed.

Lemma lastNamed_None (nm : string) (vs : list CSSVariable) :
  lastNamed nm vs = None <-> forall v, In v vs -> name v <> nm.
Proof.
  split.
  - intros H v Hv E. destruct (MapFacts.lastNamed_exists nm vs v Hv E) as (v' & Hv').
    congruence.
  - intros H. destruct (lastNamed nm vs) as [v|] eqn:E; [|reflexivity].
    apply MapFacts.lastNamed_In in E as (Hv & E). now destruct (H v Hv).
Qed.

Lemma declarations_split (h : Host) (v : CSSVariable) :
  In v (declarations h) <-> In v (unconditionalWrites h) \/ In v (plainWrites h).
Proof.
  rewrite <- RebuildFacts.unconditional_allWrites, <- RebuildFacts.conditional_allWrites.
  unfold declarations, unconditional, conditional.
  rewrite in_map_iff, !in_flat_map. split.
  - intros ([w|w] & <- & Hw); [left|right]; eexists; (split; [exact Hw|now left]).
  - intros [([w|w] & Hw & Hv)|([w|w] & Hw & Hv)]; simpl in Hv;
      try contradiction; destruct Hv as [<-|[]]; eexists; (split; [|exact Hw]); reflexivity.
Qed.

Lemma declarations_provenance (h : Host) (v : CSSVariable) :
  In v (declarations h) -> provenance h v.
Proof.
  unfold declarations, allWrites, provenance.
  rewrite map_app, in_app_iff, !in_map_iff.
  intros [(w & <- & Hw)|(w & <- & Hw)]; apply in_flat_map in Hw as (file & Hfile & Hw).
  - unfold cssFileWrites, whenRead in Hw.
    destruct (readFile h file) as [content|] eqn:E; [|contradiction].
    apply in_app_iff in Hw as [Hw|Hw]; apply in_map_iff in Hw as (x & <- & Hx);
      apply RebuildFacts.In_collect in Hx as (m & _ & Hx); simpl.
    + unfold propertyVariable in Hx.
      destruct (group m 1), (group m 2), (group m 3); try discriminate.
      injection Hx as <-. simpl. split; [eauto|]. left. auto.
    + unfold plainVariable in Hx.
      destruct (group m 2); [|discriminate].
      destruct (exec VAR_NAME_PATTERN s); [|discriminate].
      destruct (Js.truthy _); [|discriminate].
      injection Hx as <-. simpl. split; [eauto|]. left. auto.
  - unfold svelteFileWrites, whenRead in Hw.
    destruct (readFile h file) as [content|] eqn:E; [|contradiction].
    apply in_map_iff in Hw as (x & <- & Hx).
    apply RebuildFacts.In_collect in Hx as (m & _ & Hx); simpl.
    unfold tagVariable in Hx.
    destruct (group m 1), (group m 2); try discriminate.
    injection Hx as <-. simpl. split; [eauto|]. right. auto.
Qed.

Lemma In_filesOf_important (h : Host) (important : list string) (pattern ip file : string) :
  In ip important -> In file (findFiles h ip None) -> In file (filesOf h important pattern).
Proof.
  intros Hi Hf. unfold filesOf. apply in_app_iff. right.
  apply in_flat_map. now exists ip.
Qed.

End TableFacts.

Import TableFacts.

(** X1. Lookup and storage agree in a rebuilt table: a lookup under a key
    finds a variable exactly when the table stores that variable and the
    key is the variable's name. *)
Theorem lookup_finds_stored_variable (h : Host) (m : JsMap.t) (k : string) (v : CSSVariable) :
  JsMap.get k (rebuilt h m) = Some v
  <-> In v (JsMap.values (rebuilt h m)) /\ name v = k.
Proof.
  destruct (RebuildFacts.rebuilt_keys h m) as (Hnd & Hname). split.
  - intros H. apply get_In in H. split; [|now apply Hname].
    apply in_map_iff. now exists (k, v).
  - intros (Hv & <-). apply in_map_iff in Hv as ((k & v') & Hs & Hin).
    simpl in Hs. subst v'. rewrite (Hname _ _ Hin). now apply In_get.
Qed.

(** X2. The keys of a rebuilt table are pairwise distinct, and each is two
    dashes followed by one or more word characters or dashes. *)
Theorem index_keys_are_custom_property_names (h : Host) (m : JsMap.t) :
  NoDup (JsMap.keys (rebuilt h m))
  /\ Forall is_variable_name (JsMap.keys (rebuilt h m)).
Proof.
  destruct (RebuildFacts.rebuilt_keys h m) as (Hnd & Hname). split; [exact Hnd|].
  apply Forall_forall. intros k Hk. apply in_map_iff in Hk as ((k' & v) & Hs & Hin).
  simpl in Hs. subst k'. rewrite <- (Hname _ _ Hin).
  apply (rebuilt_names h m). apply in_map_iff. now exists (k, v).
Qed.

(** X3. A rebuilt table has no entry under a name exactly when none of the
    records the rebuild builds from the files it could read carries the
    name.  The records are those of the matches of the three patterns,
    named as the code names them: by the name group of a formal
    declaration or of a documentation tag, and by the first name found in
    a match of the plain pattern. *)
Theorem index_absent_iff_no_record (h : Host) (m : JsMap.t) (nm : string) :
  JsMap.get nm (rebuilt h m) = None
  <-> forall v, In v (declarations h) -> name v <> nm.
Proof.
  rewrite RebuildFacts.rebuilt_entry. split.
  - intros H v Hv. apply declarations_split in Hv.
    destruct (lastNamed nm (unconditionalWrites h)) eqn:E; [discriminate|].
    destruct Hv as [Hv|Hv].
    + now apply (proj1 (lastNamed_None _ _) E).
    + now apply (proj1 (firstNamed_None _ _) H).
  - intros H.
    assert (E : lastNamed nm (unconditionalWrites h) = None).
    { apply lastNamed_None. intros v Hv. apply H, declarations_split. now left. }
    rewrite E. apply firstNamed_None. intros v Hv. apply H, declarations_split. now right.
Qed.

(** The names of the records are the ones the code extracts: of a match
    of the plain pattern the first name in the match, here the referenced
    [--other] and not the declared [--brand]. *)
Example reference_taken_for_declaration :
  map name (declarations Scenario.referenceProject) = ["--other"]
  /\ JsMap.keys (rebuilt Scenario.referenceProject []) = ["--other"].
Proof.
  vm_compute. split; reflexivity.
Qed.

(** X4. When no formal declaration and no documentation tag stores a
    record under a name, the entry of the name is the first record of that
    name among the records of the matches of the plain pattern, in
    traversal order, the name of such a record being the first name found
    in the match; later records of the name are ignored. *)
Theorem first_plain_record_kept (h : Host) (m : JsMap.t) (nm : string) :
  (forall v, In v (unconditionalWrites h) -> name v <> nm) ->
  JsMap.get nm (rebuilt h m) = firstNamed nm (plainWrites h).
Proof.
  intros H. rewrite RebuildFacts.rebuilt_entry.
  now rewrite (proj2 (lastNamed_None _ _) H).
Qed.

Lemma first_plain_record_kept_witness :
  JsMap.get "--x" (rebuilt Scenario.twiceProject [])
  = Some (MkVariable "--x" None global None "/w/a.css")
  /\ plainWrites Scenario.twiceProject
     = [MkVariable "--x" None global None "/w/a.css";
        MkVariable "--x" None global None "/w/b.css"].
Proof.
  split; [|vm_compute; reflexivity].
  pose proof (first_plain_record_kept Scenario.twiceProject [] "--x") as H.
  lapply H; [clear H; intros H; conclude H|].
  intros v Hv. vm_compute in Hv. destruct Hv.
Defined.

(** X5. Every variable of a rebuilt table comes from a file the rebuild
    visited and could read: a global one from a stylesheet and without
    component name, a component one from a component file and with the
    file's base name without the svelte suffix as component name. *)
Theorem index_entries_provenance (h : Host) (m : JsMap.t) :
  Forall (provenance h) (JsMap.values (rebuilt h m)).
Proof.
  apply Forall_forall. intros v Hv.
  now apply declarations_provenance, (values_rebuilt h m).
Qed.

(** X6. A component variable read from [dir/Stem.svelte] carries the
    component name [Stem]. *)
Theorem component_entry_named_after_file
        (h : Host) (m : JsMap.t) (v : CSSVariable) (dir stem : string) :
  In v (JsMap.values (rebuilt h m)) ->
  source v = component ->
  filePath v = dir ++ "/" ++ stem ++ ".svelte" ->
  Js.all (Js.not_char "/") stem = true ->
  stem <> "" ->
  componentName v = Some stem.
Proof.
  intros Hv Hs Hf Hall Hne.
  apply (values_rebuilt h m), declarations_provenance in Hv.
  destruct Hv as (_ & [(Hg & _)|(_ & Hc & _)]); [congruence|].
  now rewrite Hc, Hf, PathFacts.basename_of_component.
Qed.

Lemma component_entry_named_after_file_witness :
  componentName (MkVariable "--foo" (Some "bar baz") component (Some "Button")
                   "/w/node_modules/lutra/Button.svelte")
  = Some "Button".
Proof.
  apply (component_entry_named_after_file Sample.project []
           (MkVariable "--foo" (Some "bar baz") component (Some "Button")
              "/w/node_modules/lutra/Button.svelte")
           "/w/node_modules/lutra" "Button").
  - vm_compute. auto 10.
  - reflexivity.
  - reflexivity.
  - reflexivity.
  - discriminate.
Defined.

(** X7. While the configured stylesheet patterns contain the library's
    pattern, every file that pattern finds without exclusion is visited,
    whatever the exclusion list says, and once for each configured pattern
    at least. *)
Theorem library_stylesheets_bypass_exclusion (h : Host) (file : string) :
  In IMPORTANT_CSS (cssGlobPatterns h) ->
  In file (findFiles h IMPORTANT_CSS None) ->
  List.length (cssGlobPatterns h) <= count_occ string_dec (cssFiles h) file.
Proof.
  intros Hp Hf. unfold cssFiles.
  assert (Hi : In IMPORTANT_CSS (importantCssIncludes h)).
  { unfold importantCssIncludes, array_includes.
    replace (existsb _ _) with true; [now left|].
    symmetry. apply existsb_exists. exists IMPORTANT_CSS. split; [exact Hp|].
    apply String.eqb_refl. }
  generalize (cssGlobPatterns h) as patterns.
  induction patterns as [|pattern patterns IH]; simpl; [lia|].
  rewrite count_occ_app.
  assert (1 <= count_occ string_dec (filesOf h (importantCssIncludes h) pattern) file).
  { apply count_occ_In. now apply (In_filesOf_important h _ pattern IMPORTANT_CSS). }
  lia.
Qed.

Lemma library_stylesheets_bypass_exclusion_witness :
  2 <= count_occ string_dec (cssFiles Scenario.defaultProject)
         "/w/node_modules/lutra/theme.css".
Proof.
  apply (library_stylesheets_bypass_exclusion Scenario.defaultProject
           "/w/node_modules/lutra/theme.css").
  - vm_compute. auto.
  - vm_compute. auto.
Defined.

Lemma allWrites_withUnexcluded (found : string -> list string) (h : Host) :
  ~ In IMPORTANT_CSS (cssGlobPatterns h) ->
  ~ In IMPORTANT_SVELTE (svelteGlobPatterns h) ->
  allWrites (withUnexcluded found h) = allWrites h.
Proof.
  intros Hcss Hsvelte.
  assert (Hnone : forall x xs, ~ In x xs -> array_includes x xs = false).
  { intros x xs Hn. unfold array_includes. apply not_true_is_false. intros H.
    apply existsb_exists in H as (y & Hy & E). apply String.eqb_eq in E. now subst. }
  unfold allWrites, cssFiles, svelteFiles, importantCssIncludes, importantSvelteIncludes.
  cbn [withUnexcluded cssGlobPatterns svelteGlobPatterns].
  rewrite (Hnone _ _ Hcss), (Hnone _ _ Hsvelte).
  reflexivity.
Qed.

(** X8. With neither pattern of the library among the configured
    patterns, a rebuild makes no search without the exclude glob:
    whatever such a search would find, the rebuild returns with the table
    built from the files the configured patterns find under the exclude
    glob. *)
Theorem excluded_files_stay_out_without_library_patterns
        (found : string -> list string) (h : Host) (m m' : JsMap.t) :
  ~ In IMPORTANT_CSS (cssGlobPatterns h) ->
  ~ In IMPORTANT_SVELTE (svelteGlobPatterns h) ->
  updateVariables (withUnexcluded found h) m = (Returned tt, rebuilt h m').
Proof.
  intros Hcss Hsvelte.
  rewrite updateVariables_writes, (rebuilt_writes h m').
  now rewrite allWrites_withUnexcluded.
Qed.

Lemma excluded_files_stay_out_without_library_patterns_witness :
  updateVariables
    (withUnexcluded (fun _ => ["/w/node_modules/lutra/theme.css"]) Scenario.appOnlyProject) []
  = (Returned tt, [("--app", MkVariable "--app" None global None "/w/app.css")]).
Proof.
  pose proof (excluded_files_stay_out_without_library_patterns
                (fun _ => ["/w/node_modules/lutra/theme.css"]) Scenario.appOnlyProject [] [])
    as H.
  lapply H; [clear H; intros H|vm_compute; intros [E|[]]; discriminate].
  lapply H; [clear H; intros H|vm_compute; intros [E|[]]; discriminate].
  rewrite H. vm_compute. reflexivity.
Defined.

(** ** Visiting files again *)

Module RevisitFacts.

Lemma keys_applyWrite (m : JsMap.t) (w : write) :
  JsMap.keys (applyWrite m w)
  = if JsMap.has (name (written w)) m then JsMap.keys m
    else (JsMap.keys m ++ [name (written w)])%list.
Proof.
  destruct w as [v|v]; simpl.
  - apply keys_set.
  - destruct (JsMap.has (name v) m) eqn:E; [reflexivity|].
    now rewrite keys_set, E.
Qed.

Lemma NoDup_applyWrite (m : JsMap.t) (w : write) :
  NoDup (JsMap.keys m) -> NoDup (JsMap.keys (applyWrite m w)).
Proof.
  intros H. rewrite keys_applyWrite.
  destruct (JsMap.has _ m) eqn:E; [assumption|].
  apply NoDup_app; [assumption|repeat constructor; intros []|].
  intros k Hk [<-|[]]. apply has_In_keys in Hk. congruence.
Qed.

Lemma NoDup_fold_writes (ws : list write) :
  forall m, NoDup (JsMap.keys m) -> NoDup (JsMap.keys (fold_left applyWrite ws m)).
Proof.
  induction ws as [|w ws IH]; intros m H; simpl; [assumption|].
  now apply IH, NoDup_applyWrite.
Qed.

Lemma has_applyWrite (k : string) (m : JsMap.t) (w : write) :
  JsMap.has k m = true -> JsMap.has k (applyWrite m w) = true.
Proof.
  rewrite !has_In_keys, keys_applyWrite.
  destruct (JsMap.has _ m); [auto|]. intros H. apply in_app_iff. now left.
Qed.

Lemma has_written (m : JsMap.t) (w : write) :
  JsMap.has (name (written w)) (applyWrite m w) = true.
Proof.
  rewrite has_In_keys, keys_applyWrite.
  destruct (JsMap.has _ m) eqn:E; [now apply has_In_keys|].
  apply in_app_iff. right. now left.
Qed.

Lemma has_fold_writes (k : string) (ws : list write) :
  forall m, JsMap.has k m = true -> JsMap.has k (fold_left applyWrite ws m) = true.
Proof.
  induction ws as [|w ws IH]; intros m H; simpl; [assumption|].
  now apply IH, has_applyWrite.
Qed.

Lemma written_has (ws : list write) (w : write) :
  In w ws ->
  forall m, JsMap.has (name (written w)) (fold_left applyWrite ws m) = true.
Proof.
  induction ws as [|w' ws IH]; intros Hin m; [destruct Hin|].
  simpl. destruct Hin as [->|Hin]; [|now apply IH].
  apply has_fold_writes, has_written.
Qed.

(** Writes to names the table has leave the keys as they are. *)
Lemma keys_fold_present (ws : list write) :
  forall m,
    (forall w, In w ws -> JsMap.has (name (written w)) m = true) ->
    JsMap.keys (fold_left applyWrite ws m) = JsMap.keys m.
Proof.
  induction ws as [|w ws IH]; intros m H; simpl; [reflexivity|].
  assert (Hk : JsMap.keys (applyWrite m w) = JsMap.keys m).
  { rewrite keys_applyWrite. now rewrite (H w (or_introl eq_refl)). }
  rewrite IH, Hk; [reflexivity|].
  intros w' Hw'. apply has_applyWrite, H. now right.
Qed.

(** Two tables with the same keys in the same order and the same lookups
    are the same table. *)
Lemma table_ext (m1 : JsMap.t) :
  forall m2,
    NoDup (JsMap.keys m1) ->
    JsMap.keys m1 = JsMap.keys m2 ->
    (forall k, JsMap.get k m1 = JsMap.get k m2) ->
    m1 = m2.
Proof.
  induction m1 as [|[k v1] m1 IH]; intros [|[k' v2] m2] Hnd Hkeys Hget;
    try discriminate; [reflexivity|].
  simpl in Hkeys. injection Hkeys as <- Hkeys.
  inversion Hnd as [|? ? Hnot Hnd']; subst.
  pose proof (Hget k) as Hk. simpl in Hk. rewrite String.eqb_refl in Hk.
  injection Hk as <-. f_equal. apply IH; [assumption|assumption|].
  intros k'. destruct (String.eqb k k') eqn:E.
  - apply String.eqb_eq in E. subst k'.
    rewrite (proj2 (get_None k m1) Hnot).
    symmetry. apply get_None. now rewrite <- Hkeys.
  - pose proof (Hget k') as Hk'. simpl in Hk'. now rewrite E in Hk'.
Qed.

Lemma writeStep_twice (nm : string) (ws : list write) (st : option CSSVariable) :
  fold_left (writeStep nm) ws (fold_left (writeStep nm) ws st)
  = fold_left (writeStep nm) ws st.
Proof.
  rewrite !writeStep_fold.
  destruct (lastNamed nm (unconditional ws)); [reflexivity|].
  destruct st; [reflexivity|].
  now destruct (firstNamed nm (conditional ws)).
Qed.

(** Applying a list of writes a second time right after the first changes
    nothing. *)
Lemma writes_twice (ws : list write) (m : JsMap.t) :
  NoDup (JsMap.keys m) ->
  fold_left applyWrite (ws ++ ws) m = fold_left applyWrite ws m.
Proof.
  intros Hnd. rewrite fold_left_app.
  symmetry. apply table_ext.
  - now apply NoDup_fold_writes.
  - symmetry. apply keys_fold_present. intros w Hw. now apply written_has.
  - intros k. rewrite !get_fold_writes. symmetry. apply writeStep_twice.
Qed.

End RevisitFacts.

Import RevisitFacts.

(** X9. Visiting a list of files a second time right after the first, as
    happens to the library's files under the default patterns, leaves the
    table as the first visit made it; this holds for stylesheets and for
    component files. *)
Theorem revisiting_files_changes_nothing (h : Host) (files : list string) (m : JsMap.t) :
  NoDup (JsMap.keys m) ->
  visited (processCssFile h) (files ++ files) m = visited (processCssFile h) files m
  /\ visited (processSvelteFile h) (files ++ files) m
     = visited (processSvelteFile h) files m.
Proof.
  intros Hnd. unfold visited.
  rewrite !(forEach_writes (cssFileWrites h) (processCssFile h))
    by (intros; apply processCssFile_writes).
  rewrite !(forEach_writes (svelteFileWrites h) (processSvelteFile h))
    by (intros; apply processSvelteFile_writes).
  cbn [snd]. rewrite !flat_map_app. split; now apply writes_twice.
Qed.

Lemma revisiting_files_changes_nothing_witness :
  visited (processCssFile Sample.project) (["/w/theme.css"] ++ ["/w/theme.css"]) []
  = visited (processCssFile Sample.project) ["/w/theme.css"] []
  /\ visited (processSvelteFile Sample.project) (["/w/theme.css"] ++ ["/w/theme.css"]) []
     = visited (processSvelteFile Sample.project) ["/w/theme.css"] [].
Proof.
  apply (revisiting_files_changes_nothing Sample.project ["/w/theme.css"] []).
  constructor.
Defined.

(** ** Plain declarations and their comments *)

Module LeadFacts.

(** A lazy repetition passes over a run in which what follows cannot
    start. *)
Lemma rep_lazy_pass {R} (cls : ascii -> bool) (k : @cont R) (rest : string)
      (c : captures) (r : R) :
  k rest c = Some r ->
  forall w,
    Js.all cls w = true ->
    (forall a s, In a (list_ascii_of_string w) -> k (String a s) c = None) ->
    rep cls false 0 k (w ++ rest) c = Some r.
Proof.
  intros Hk. induction w as [|a w IH]; intros Hall Hfail.
  - simpl. destruct rest; simpl; now rewrite Hk.
  - simpl in Hall. apply andb_true_iff in Hall as [Ha Hall].
    cbn [append rep]. rewrite Ha, (Hfail a _ (or_introl eq_refl)). simpl.
    apply IH; [assumption|]. intros b s Hb. apply Hfail. now right.
Qed.

Lemma lit_other {R} (a b : ascii) (l : string) (k : @cont R) (s : string) (c : captures) :
  Js.not_char a b = true -> lit (String a l) k (String b s) c = None.
Proof.
  unfold Js.not_char. cbn [lit]. intros H.
  destruct (Ascii.eqb a b) eqn:E; [|reflexivity].
  apply Ascii.eqb_eq in E. subst. rewrite Ascii.eqb_refl in H. discriminate.
Qed.

Lemma all_and (f g : ascii -> bool) (s : string) :
  Js.all (fun a => f a && g a) s = true ->
  Js.all f s = true /\ Js.all g s = true.
Proof.
  induction s as [|a s IH]; simpl; [auto|].
  rewrite !andb_true_iff. intros ((Hf & Hg) & H). destruct (IH H). auto.
Qed.

(** A plain declaration after a lead that holds neither a closing brace
    nor a dash and does not start with a slash: the match starts with the
    lead, and a comment inside the lead is not captured. *)
Lemma led_declaration_recognised (lead nm blank value rest : string) :
  Js.all no_brace_no_dash lead = true ->
  Js.starts (Js.not_char "/") lead ->
  Js.all Js.is_word_or_dash nm = true -> nm <> EmptyString ->
  Js.all Js.is_space blank = true ->
  Js.all (Js.not_char ";") value = true ->
  Js.starts (fun a => negb (Js.is_space a)) value ->
  match_at CSS_VAR_PATTERN
    (lead ++ "--" ++ nm ++ ":" ++ blank ++ value ++ ";" ++ rest)
  = Some (MkMatch (lead ++ "--" ++ nm ++ ":" ++ blank ++ value ++ ";")
            [(2, lead ++ "--" ++ nm ++ ":" ++ blank ++ value ++ ";")]).
Proof.
  intros Hlead Hslash Hnm Hn Hblank Hvalue Hstart.
  apply all_and in Hlead as (Hbrace & Hdash).
  unfold match_at, CSS_VAR_PATTERN, plus, star, lazy_star. cbn [run].
  match goal with
  | |- orElse ?body _ = _ => replace body with (@None match_result)
  end.
  2:{ destruct lead as [|a lead]; [destruct Hslash|].
      symmetry. apply lit_other. exact Hslash. }
  cbn [orElse].
  apply rep_lazy_pass; [|assumption|].
  2:{ intros a s Ha. apply lit_other. eapply all_In; eauto. }
  rewrite lit_app.
  apply rep_greedy_munch;
    [simpl; reflexivity| |assumption|now apply length_positive].
  rewrite lit_app.
  apply rep_greedy_munch; [now apply starts_stops| |assumption|lia].
  apply rep_greedy_munch;
    [simpl; reflexivity| |assumption|eapply starts_length; eauto].
  rewrite lit_app.
  rewrite !(consumed_eq _ rest (lead ++ "--" ++ nm ++ ":" ++ blank ++ value ++ ";"))
    by now rewrite !append_assoc.
  reflexivity.
Qed.

(** A search for the first match passes over text in which no match can
    start. *)
Lemma exec_skip (r : regex) (rest : string) :
  forall pre,
    (forall a s, In a (list_ascii_of_string pre) -> match_at r (String a s) = None) ->
    rest <> EmptyString ->
    exec r (pre ++ rest) = exec r rest.
Proof.
  induction pre as [|a pre IH]; intros Hnone Hne; [reflexivity|].
  cbn [append exec].
  rewrite (Hnone a (pre ++ rest)) by now left.
  apply IH; [|assumption]. intros b s Hb. apply Hnone. now right.
Qed.

Lemma name_needs_dash (a : ascii) (s : string) :
  Js.not_char "-" a = true -> match_at VAR_NAME_PATTERN (String a s) = None.
Proof.
  intros H. unfold match_at, VAR_NAME_PATTERN. cbn [run]. now apply lit_other.
Qed.

(** The name of a declaration behind a lead without dashes. *)
Lemma led_declaration_name (lead nm more : string) :
  Js.all (Js.not_char "-") lead = true ->
  Js.all Js.is_word_or_dash nm = true -> nm <> EmptyString ->
  Js.stops Js.is_word_or_dash more ->
  option_map matched (exec VAR_NAME_PATTERN (lead ++ "--" ++ nm ++ more))
  = Some ("--" ++ nm).
Proof.
  intros Hlead Hnm Hn Hmore.
  rewrite exec_skip; [now apply declaration_name| |discriminate].
  intros a s Ha. apply name_needs_dash. eapply all_In; eauto.
Qed.

(** The variable stored for a plain declaration, from the two facts
    above. *)
Lemma plainVariable_of_match (file lead nm more : string) (comment : option string)
      (m : match_result) :
  group m 2 = Some (lead ++ "--" ++ nm ++ more) ->
  group m 1 = comment ->
  Js.all (Js.not_char "-") lead = true ->
  Js.all Js.is_word_or_dash nm = true -> nm <> EmptyString ->
  Js.stops Js.is_word_or_dash more ->
  plainVariable file m
  = Some (MkVariable ("--" ++ nm) (option_map Js.trim comment) global None file).
Proof.
  intros H2 H1 Hlead Hnm Hn Hmore. unfold plainVariable. rewrite H2.
  pose proof (led_declaration_name lead nm more Hlead Hnm Hn Hmore) as Hname.
  destruct (exec VAR_NAME_PATTERN _) as [found|]; [|discriminate].
  simpl in Hname. injection Hname as Hname. rewrite Hname, H1. reflexivity.
Qed.

Lemma In_plainWrites (h : Host) (v : CSSVariable) :
  In v (plainWrites h) <->
  exists file content vm,
    In file (cssFiles h) /\ readFile h file = Returned content
    /\ In vm (matchAll CSS_VAR_PATTERN content) /\ plainVariable file vm = Some v.
Proof.
  unfold plainWrites, whenRead, plainVariables. rewrite in_flat_map. split.
  - intros (file & Hfile & Hv).
    destruct (readFile h file) as [content|] eqn:E; [|contradiction].
    apply In_collect in Hv as (vm & Hvm & Hv). now exists file, content, vm.
  - intros (file & content & vm & Hfile & Hread & Hvm & Hv).
    exists file. split; [assumption|]. rewrite Hread. apply In_collect. now exists vm.
Qed.

Lemma firstNamed_unique (nm : string) (vs : list CSSVariable) (v : CSSVariable) :
  In v vs -> name v = nm ->
  (forall w, In w vs -> name w = nm -> w = v) ->
  firstNamed nm vs = Some v.
Proof.
  intros Hv Hn Huniq. unfold firstNamed.
  destruct (find _ vs) as [w|] eqn:E.
  - apply find_some in E as (Hw & E). apply String.eqb_eq in E.
    now rewrite (Huniq w Hw E).
  - apply (find_none _ _ E) in Hv. rewrite Hn, String.eqb_refl in Hv. discriminate.
Qed.

(** A plain declaration that is the only declaration of its name is
    stored. *)
Lemma only_plain_declaration_stored (h : Host) (m0 : JsMap.t) (v : CSSVariable) :
  In v (plainWrites h) ->
  (forall w, In w (unconditionalWrites h) -> name w = name v -> w = v) ->
  (forall w, In w (plainWrites h) -> name w = name v -> w = v) ->
  JsMap.get (name v) (rebuilt h m0) = Some v.
Proof.
  intros Hv Hu Hp. rewrite rebuilt_entry.
  destruct (lastNamed (name v) (unconditionalWrites h)) as [w|] eqn:E.
  - apply lastNamed_In in E as (Hw & E). now rewrite (Hu w Hw E).
  - now apply firstNamed_unique.
Qed.

End LeadFacts.

Import LeadFacts.



(** X13. A plain declaration at the start of a stylesheet behind a lead that
    holds neither a closing brace nor a dash and does not start with a
    slash, such as a line break, a selector or a comment after a blank:
    unless another declaration stores something else under the name, the
    table holds the declaration without description, whatever comment the
    lead holds. *)
Theorem comment_inside_lead_is_dropped :
  forall (h : Host) (m0 : JsMap.t) (file lead nm blank value rest : string),
    In file (cssFiles h) ->
    readFile h file
    = Returned (lead ++ "--" ++ nm ++ ":" ++ blank ++ value ++ ";" ++ rest) ->
    Js.all no_brace_no_dash lead = true ->
    Js.starts (Js.not_char "/") lead ->
    Js.all Js.is_word_or_dash nm = true -> nm <> EmptyString ->
    Js.all Js.is_space blank = true ->
    Js.all (Js.not_char ";") value = true ->
    Js.starts (fun a => negb (Js.is_space a)) value ->
    let plain := MkVariable ("--" ++ nm) None global None file in
    (forall w, In w (declarations h) -> name w = "--" ++ nm -> w = plain) ->
    JsMap.get ("--" ++ nm) (rebuilt h m0) = Some plain.
Proof.
  intros h m0 file lead nm blank value rest Hfile Hread Hlead Hslash
         Hnm Hn Hblank Hvalue Hstart plain Huniq.
  pose proof (led_declaration_recognised lead nm blank value rest
                Hlead Hslash Hnm Hn Hblank Hvalue Hstart) as Hmatch.
  assert (Hin : In plain (plainWrites h)).
  { apply In_plainWrites. eexists file, _, _. split; [assumption|].
    split; [eassumption|]. split; [apply matchAll_head; exact Hmatch|].
    apply (plainVariable_of_match file lead nm (":" ++ blank ++ value ++ ";") None);
      auto; try reflexivity.
    now apply all_and in Hlead. }
  apply (only_plain_declaration_stored h m0 plain Hin); intros w Hw; apply Huniq;
    apply declarations_split; auto.
Qed.

Lemma comment_inside_lead_is_dropped_witness :
  JsMap.get "--brand" (rebuilt Scenario.rootProject [])
  = Some (MkVariable "--brand" None global None "/w/root.css").
Proof.
  pose proof (comment_inside_lead_is_dropped Scenario.rootProject []
                "/w/root.css" (":root {" ++ nl ++ "  /* Brand color */" ++ nl ++ "  ")
                "brand" " " "#123" (nl ++ "}")) as H.
  supply H. cbv zeta in H.
  lapply H; [clear H; intros H; conclude H|only_declaration].
Defined.

(** ** Imports and completion *)

Module CompletionFacts.

Lemma add_all_spec (imports : list string) :
  forall (components : JsSet.t),
    NoDup components ->
    NoDup (fold_left (fun acc imp => JsSet.add imp acc) imports components)
    /\ forall c, In c (fold_left (fun acc imp => JsSet.add imp acc) imports components)
                 <-> In c components \/ In c imports.
Proof.
  induction imports as [|imp imports IH]; intros components Hnd; simpl.
  - split; [assumption|]. intros c. tauto.
  - assert (Hadd : NoDup (JsSet.add imp components)
                   /\ forall c, In c (JsSet.add imp components)
                                <-> In c components \/ c = imp).
    { unfold JsSet.add. destruct (JsSet.has imp components) eqn:E.
      - split; [assumption|]. intros c. split; [auto|].
        intros [H| ->]; [assumption|]. now apply JsSet_has_In.
      - split.
        + apply NoDup_app; [assumption|repeat constructor; intros []|].
          intros x Hx [<-|[]]. apply JsSet_has_In in Hx. congruence.
        + intros c. rewrite in_app_iff. simpl. intuition (subst; auto). }
    destruct Hadd as (Hnd' & Hin).
    destruct (IH _ Hnd') as (Hnd'' & Hin'). split; [assumption|].
    intros c. rewrite Hin', Hin. split; intros H; intuition (subst; auto).
Qed.

Lemma collectImports_spec (ms : list match_result) :
  (forall m, In m ms -> exists inner, group m 1 = Some inner) ->
  forall acc,
    NoDup acc ->
    exists components,
      collectImports ms acc = Returned components
      /\ NoDup components
      /\ forall c, In c components
                   <-> In c acc
                       \/ In c (flat_map (fun m => match group m 1 with
                                                   | Some inner =>
                                                       map Js.trim (Js.split "," inner)
                                                   | None => []
                                                   end) ms).
Proof.
  induction ms as [|m ms IH]; intros Hgroups acc Hnd; simpl.
  - exists acc. repeat split; auto. intros [H|[]]. exact H.
  - destruct (Hgroups m (or_introl eq_refl)) as [inner ->].
    destruct (add_all_spec (map Js.trim (Js.split "," inner)) acc Hnd) as (Hnd' & Hin).
    destruct (IH (fun m' Hm' => Hgroups m' (or_intror Hm')) _ Hnd')
      as (components & -> & Hnd'' & Hin').
    exists components. repeat split; auto.
    + intros Hc. apply Hin' in Hc as [Hc|Hc].
      * apply Hin in Hc as [Hc|Hc]; [now left|]. right. apply in_app_iff. now left.
      * right. apply in_app_iff. now right.
    + intros [Hc|Hc]; apply Hin'.
      * left. apply Hin. now left.
      * apply in_app_iff in Hc as [Hc|Hc]; [left; apply Hin; now right|now right].
Qed.

Lemma imports_spec (document : TextDocument) :
  exists components,
    getCurrentComponentImports document = Returned components
    /\ NoDup components
    /\ forall c, In c components <-> In c (importedNames (getText document)).
Proof.
  destruct (collectImports_spec (matchAll importPattern (getText document))
              (fun m Hm => import_groups _ m Hm) [] (NoDup_nil _))
    as (components & Hrun & Hnd & Hin).
  exists components. repeat split; auto.
  - intros Hc. apply Hin in Hc as [[]|Hc]. exact Hc.
  - intros Hc. apply Hin. now right.
Qed.

Lemma values_names (m : JsMap.t) :
  (forall k v, In (k, v) m -> name v = k) ->
  map name (JsMap.values m) = JsMap.keys m.
Proof.
  unfold JsMap.values, JsMap.keys. rewrite map_map.
  intros H. apply map_ext_in. intros (k, v) Hin. simpl. now apply H.
Qed.

Lemma NoDup_map_filter {A B} (f : A -> B) (keep : A -> bool) (xs : list A) :
  NoDup (map f xs) -> NoDup (map f (filter keep xs)).
Proof.
  induction xs as [|x xs IH]; simpl; [auto|].
  intros H. inversion H as [|? ? Hnot Hnd]; subst.
  destruct (keep x); simpl; [|now apply IH].
  constructor; [|now apply IH].
  intros Hin. apply Hnot. apply in_map_iff in Hin as (y & Hy & Hin).
  apply filter_In in Hin as (Hin & _). apply in_map_iff. now exists y.
Qed.

(** The outcome of a request in terms of the table's values. *)
Lemma provideCompletionItems_filter (h : Host) (document : TextDocument)
      (position : Position) (variables : JsMap.t) :
  exists keep,
    provideCompletionItems h document position variables
    = (Returned (map (toCompletionItem h (linePrefixOf document position))
                   (filter keep (JsMap.values variables))),
       variables).
Proof.
  unfold provideCompletionItems.
  destruct (negb _ && negb _ && negb _).
  - exists (fun _ => false). f_equal. f_equal.
    induction (JsMap.values variables); simpl; auto.
  - destruct (getCurrentComponentImports_returns document) as [components ->].
    now exists (eligible components).
Qed.

Lemma lit_prefix {R} (l : string) :
  forall (k : @cont R) s c res,
    lit l k s c = Some res -> prefix l s = true.
Proof.
  induction l as [|a l IH]; intros k s c res H.
  - now destruct s.
  - destruct s as [|b s]; simpl in H; [discriminate|].
    simpl. destruct (Ascii.eqb a b) eqn:E; [|discriminate].
    apply Ascii.eqb_eq in E. subst. destruct (ascii_dec b b); [|congruence].
    now apply IH in H.
Qed.

Lemma import_needs_word (s : string) :
  prefix "import" s = false -> match_at importPattern s = None.
Proof.
  intros H. destruct (match_at importPattern s) as [m|] eqn:E; [|reflexivity].
  unfold match_at, importPattern in E. cbn [run] in E.
  apply lit_prefix in E. congruence.
Qed.

Lemma matchAll_from_none (r : regex) (sub : string) :
  (forall s, prefix sub s = false -> match_at r s = None) ->
  forall s skip, Js.includes sub s = false -> matchAll_from r skip s = [].
Proof.
  intros Hr. induction s as [|a s IH]; intros skip Hs.
  - cbn [Js.includes] in Hs. apply orb_false_iff in Hs as (Hp & _).
    destruct skip; cbn [matchAll_from]; [|reflexivity]. now rewrite (Hr _ Hp).
  - cbn [Js.includes] in Hs. apply orb_false_iff in Hs as (Hp & Hs).
    destruct skip; cbn [matchAll_from]; [|now apply IH].
    rewrite (Hr _ Hp). now apply IH.
Qed.

(** The word import does not overlap itself: where it starts inside a
    text followed by the word, it lies inside the text. *)
Lemma import_no_overlap (p t : string) :
  p <> EmptyString ->
  prefix "import" (p ++ "import" ++ t) = true -> prefix "import" p = true.
Proof.
  intros Hne H.
  destruct p as [|a1 p]; [contradiction|].
  cbn [append prefix] in H. cbn [prefix].
  destruct (ascii_dec "i" a1); [|discriminate].
  destruct p as [|a2 p]; [discriminate H|].
  cbn [append prefix] in H.
  destruct (ascii_dec "m" a2); [|discriminate].
  destruct p as [|a3 p]; [discriminate H|].
  cbn [append prefix] in H.
  destruct (ascii_dec "p" a3); [|discriminate].
  destruct p as [|a4 p]; [discriminate H|].
  cbn [append prefix] in H.
  destruct (ascii_dec "o" a4); [|discriminate].
  destruct p as [|a5 p]; [discriminate H|].
  cbn [append prefix] in H.
  destruct (ascii_dec "r" a5); [|discriminate].
  destruct p as [|a6 p]; [discriminate H|].
  cbn [append prefix] in H.
  destruct (ascii_dec "t" a6); [|discriminate].
  subst. cbn [prefix].
  repeat (destruct (ascii_dec _ _); [|congruence]). now destruct p.
Qed.

(** A search for imports passes over a text without the word import that
    is followed by the word. *)
Lemma matchAll_from_before_import (t : string) :
  forall pre,
    Js.includes "import" pre = false ->
    matchAll_from importPattern 0 (pre ++ "import" ++ t)
    = matchAll_from importPattern 0 ("import" ++ t).
Proof.
  induction pre as [|a pre IH]; intros Hpre; [reflexivity|].
  cbn [Js.includes] in Hpre. apply orb_false_iff in Hpre as (Hp & Hpre).
  change ((String a pre) ++ "import" ++ t) with (String a (pre ++ "import" ++ t)).
  cbn [matchAll_from].
  rewrite import_needs_word; [now apply IH|].
  destruct (prefix "import" (String a (pre ++ "import" ++ t))) eqn:E; [|reflexivity].
  apply (import_no_overlap (String a pre) t) in E; [congruence|discriminate].
Qed.

Lemma eligible_nil (v : CSSVariable) : eligible [] v = isGlobal v.
Proof.
  unfold eligible, isGlobal. destruct (source v); [reflexivity|].
  destruct (componentName v); [|reflexivity]. apply andb_false_r.
Qed.

(** An import statement of the documented form is recognised where it
    starts, with the text between the braces as its group. *)
Lemma import_recognised (blank1 inner blank2 blank3 rest : string) (q1 q2 : ascii) :
  Js.all Js.is_space blank1 = true -> blank1 <> EmptyString ->
  Js.all (Js.not_char "}") inner = true -> inner <> EmptyString ->
  Js.all Js.is_space blank2 = true -> blank2 <> EmptyString ->
  Js.all Js.is_space blank3 = true -> blank3 <> EmptyString ->
  Js.is_quote q1 = true -> Js.is_quote q2 = true ->
  exists m,
    match_at importPattern
      ("import" ++ blank1 ++ "{" ++ inner ++ "}" ++ blank2 ++ "from" ++ blank3
       ++ String q1 ("lutra" ++ String q2 rest))
    = Some m
    /\ group m 1 = Some inner.
Proof.
  intros Hb1 Hn1 Hinner Hni Hb2 Hn2 Hb3 Hn3 Hq1 Hq2.
  set (tail := "}" ++ blank2 ++ "from" ++ blank3 ++ String q1 ("lutra" ++ String q2 rest)).
  assert (Hend : exists matchedText,
             run (Opt (Lit ";"))
               (fun s' c =>
                  Some (MkMatch
                          (consumed ("import" ++ blank1 ++ "{" ++ inner ++ tail) s') c))
               rest [(1, inner)]
             = Some (MkMatch matchedText [(1, inner)])).
  { cbn [run]. destruct rest as [|a rest].
    - eexists. reflexivity.
    - cbn [lit]. destruct (Ascii.eqb ";" a).
      + replace (String.length rest =? String.length (String a rest))%nat with false.
        * eexists. reflexivity.
        * symmetry. apply Nat.eqb_neq. simpl. lia.
      + eexists. reflexivity. }
  destruct Hend as (matchedText & Hend).
  exists (MkMatch matchedText [(1, inner)]). split; [|reflexivity].
  unfold match_at, importPattern, plus. cbn [run]. fold tail.
  rewrite lit_app.
  apply rep_greedy_munch; [reflexivity| |assumption|now apply length_positive].
  rewrite lit_app.
  apply rep_greedy_munch; [reflexivity| |assumption|now apply length_positive].
  rewrite consumed_app. unfold tail.
  rewrite lit_app.
  apply rep_greedy_munch; [reflexivity| |assumption|now apply length_positive].
  rewrite lit_app.
  apply rep_greedy_munch; [|  |assumption|now apply length_positive].
  { simpl. destruct q1 as [[] [] [] [] [] [] [] []]; try discriminate; reflexivity. }
  rewrite Hq1. rewrite lit_app. rewrite Hq2.
  exact Hend.
Qed.

Lemma importedNames_here (pre blank1 inner blank2 blank3 rest : string) (q1 q2 : ascii) (c : string) :
  Js.includes "import" pre = false ->
  Js.all Js.is_space blank1 = true -> blank1 <> EmptyString ->
  Js.all (Js.not_char "}") inner = true -> inner <> EmptyString ->
  Js.all Js.is_space blank2 = true -> blank2 <> EmptyString ->
  Js.all Js.is_space blank3 = true -> blank3 <> EmptyString ->
  Js.is_quote q1 = true -> Js.is_quote q2 = true ->
  In c (map Js.trim (Js.split "," inner)) ->
  In c (importedNames
          (pre ++ "import" ++ blank1 ++ "{" ++ inner ++ "}" ++ blank2 ++ "from" ++ blank3
           ++ String q1 ("lutra" ++ String q2 rest))).
Proof.
  intros Hpre Hb1 Hn1 Hinner Hni Hb2 Hn2 Hb3 Hn3 Hq1 Hq2 Hc.
  destruct (import_recognised blank1 inner blank2 blank3 rest q1 q2
              Hb1 Hn1 Hinner Hni Hb2 Hn2 Hb3 Hn3 Hq1 Hq2) as (m & Hm & Hg).
  unfold importedNames. apply in_flat_map. exists m. split.
  - unfold matchAll. rewrite matchAll_from_before_import by assumption.
    now apply matchAll_head.
  - now rewrite Hg.
Qed.

End CompletionFacts.

Import CompletionFacts.

(** X15. A completion request never fails and never changes the table; its
    items are made, in table order, from a selection of the table's
    variables, each at most once, and carry the variable's name as
    label. *)
Theorem completion_reads_the_table (h : Host) (document : TextDocument)
        (position : Position) (variables : JsMap.t) :
  exists (items : list CompletionItem) (keep : CSSVariable -> bool),
    provideCompletionItems h document position variables = (Returned items, variables)
    /\ items = map (toCompletionItem h (linePrefixOf document position))
                 (filter keep (JsMap.values variables))
    /\ map label items = map name (filter keep (JsMap.values variables)).
Proof.
  destruct (provideCompletionItems_filter h document position variables) as (keep & H).
  eexists _, keep. split; [exact H|]. split; [reflexivity|].
  rewrite map_map. reflexivity.
Qed.

(** X16. On a rebuilt table no two items of a completion result carry the
    same label. *)
Theorem completion_labels_distinct (h : Host) (m0 : JsMap.t) (document : TextDocument)
        (position : Position) :
  exists items,
    provideCompletionItems h document position (rebuilt h m0)
    = (Returned items, rebuilt h m0)
    /\ NoDup (map label items).
Proof.
  destruct (provideCompletionItems_filter h document position (rebuilt h m0))
    as (keep & H).
  eexists. split; [exact H|].
  rewrite map_map. apply (NoDup_map_filter name).
  destruct (rebuilt_keys h m0) as (Hnd & Hname).
  now rewrite (values_names _ Hname).
Qed.

(** X14. The components a document imports are collected without error and
    without repetition, and they are exactly the trimmed pieces between
    commas of the braces of the document's import statements from the
    library. *)
Theorem imported_components_characterised (document : TextDocument) :
  exists components,
    getCurrentComponentImports document = Returned components
    /\ NoDup components
    /\ forall c, In c components <-> In c (importedNames (getText document)).
Proof.
  apply imports_spec.
Qed.

(** X18. In a document that does not contain the word import, a request at
    a trigger offers the global variables of the table and no component
    variable. *)
Theorem without_import_only_globals (h : Host) (document : TextDocument)
        (position : Position) (variables : JsMap.t) :
  let linePrefix := linePrefixOf document position in
  Js.includes "import" (getText document) = false ->
  isVarPattern linePrefix || isDirectPattern linePrefix = true ->
  provideCompletionItems h document position variables
  = (Returned (map (toCompletionItem h linePrefix)
                 (filter isGlobal (JsMap.values variables))),
     variables).
Proof.
  intros linePrefix Htext Htrigger.
  assert (Hnone : getCurrentComponentImports document = Returned []).
  { unfold getCurrentComponentImports, matchAll.
    now rewrite (matchAll_from_none importPattern "import" import_needs_word). }
  rewrite (provideCompletionItems_items h document position variables [] );
    [|fold linePrefix; now rewrite Htrigger|exact Hnone].
  fold linePrefix. now rewrite (filter_ext _ _ eligible_nil).
Qed.

Lemma without_import_only_globals_witness :
  provideCompletionItems Sample.project Scenario.sheet (MkPosition 0 13) Scenario.table
  = (Returned (map (toCompletionItem Sample.project "a { color: --")
                 (filter isGlobal (JsMap.values Scenario.table))),
     Scenario.table).
Proof.
  pose proof (without_import_only_globals Sample.project Scenario.sheet
                (MkPosition 0 13) Scenario.table) as H.
  cbv zeta in H. supply H. conclude H.
Defined.

(** X19. A component variable is offered at a trigger when the first
    occurrence of the word import in the document starts an import
    statement from the library that lists the variable's component
    between its braces. *)
Theorem imported_component_is_offered
        (h : Host) (document : TextDocument) (position : Position) (variables : JsMap.t)
        (pre blank1 inner blank2 blank3 rest : string) (q1 q2 : ascii)
        (v : CSSVariable) (c : string) :
  let linePrefix := linePrefixOf document position in
  getText document
  = pre ++ "import" ++ blank1 ++ "{" ++ inner ++ "}" ++ blank2 ++ "from" ++ blank3
    ++ String q1 ("lutra" ++ String q2 rest) ->
  Js.includes "import" pre = false ->
  Js.all Js.is_space blank1 = true -> blank1 <> EmptyString ->
  Js.all (Js.not_char "}") inner = true -> inner <> EmptyString ->
  Js.all Js.is_space blank2 = true -> blank2 <> EmptyString ->
  Js.all Js.is_space blank3 = true -> blank3 <> EmptyString ->
  Js.is_quote q1 = true -> Js.is_quote q2 = true ->
  In c (map Js.trim (Js.split "," inner)) ->
  c <> EmptyString ->
  In v (JsMap.values variables) ->
  source v = component ->
  componentName v = Some c ->
  isVarPattern linePrefix || isDirectPattern linePrefix = true ->
  exists items,
    provideCompletionItems h document position variables = (Returned items, variables)
    /\ In (toCompletionItem h linePrefix v) items.
Proof.
  intros linePrefix Htext Hpre Hb1 Hn1 Hinner Hni Hb2 Hn2 Hb3 Hn3 Hq1 Hq2 Hc Hne
         Hv Hs Hcn Htrigger.
  destruct (imports_spec document) as (components & Hrun & _ & Hin).
  rewrite (provideCompletionItems_items h document position variables components);
    [|fold linePrefix; now rewrite Htrigger|exact Hrun].
  eexists. split; [reflexivity|]. fold linePrefix.
  apply in_map, filter_In. split; [assumption|].
  apply eligible_spec. right. split; [assumption|]. exists c.
  split; [assumption|]. split; [assumption|].
  apply Hin. rewrite Htext. now apply importedNames_here.
Qed.

Lemma imported_component_is_offered_witness :
  exists items,
    provideCompletionItems Sample.project Scenario.page (MkPosition 4 10) Scenario.table
    = (Returned items, Scenario.table)
    /\ In (toCompletionItem Sample.project "<Button --"
             (MkVariable "--foo" (Some "bar baz") component (Some "Button")
                "/w/node_modules/lutra/Button.svelte"))
          items.
Proof.
  pose proof (imported_component_is_offered Sample.project Scenario.page
                (MkPosition 4 10) Scenario.table
                ("<script>" ++ nl ++ "  ") " " " Button, Card " " " " "
                (";" ++ nl ++ "</script>" ++ nl ++ "<Button --") "039" "039"
                (MkVariable "--foo" (Some "bar baz") component (Some "Button")
                   "/w/node_modules/lutra/Button.svelte")
                "Button") as H.
  cbv zeta in H.
  supply H.
  destruct H as (items & Hrun & Hin). exists items. split; [exact Hrun|].
  vm_compute in Hin. vm_compute. exact Hin.
Defined.

(** ** Activation *)

Module ActivationFacts.

Lemma truthy_lutra (dependencies : option Json) :
  jsonTruthy dependencies = true ->
  exists version,
    getProperty dependencies "lutra" = Returned version
    /\ (jsonTruthy version = true <-> lists_lutra dependencies).
Proof.
  unfold lists_lutra.
  destruct dependencies as [[|b|z|s|items|properties]|]; cbn; intros H;
    try discriminate;
    try (exists None; split; [reflexivity|];
         split; [discriminate|intros (? & ? & [=] & _)]).
  exists (ownProperty "lutra" properties). split; [reflexivity|].
  split.
  - intros Hv. destruct (ownProperty "lutra" properties) as [version|] eqn:E;
      [|discriminate]. now exists properties, version.
  - intros (ps & version & [= <-] & -> & Hv). exact Hv.
Qed.

Lemma dependsOnLutra_object (properties : list (string * Json)) (field : string) :
  exists b,
    dependsOnLutra (JObject properties) field = Returned b
    /\ (b = true <-> lists_lutra (ownProperty field properties)).
Proof.
  unfold dependsOnLutra. cbn [getProperty].
  destruct (jsonTruthy (ownProperty field properties)) eqn:Ht.
  - destruct (truthy_lutra _ Ht) as (version & -> & Hv).
    exists (jsonTruthy version). now split.
  - exists false. split; [reflexivity|]. split; [discriminate|].
    intros (ps & version & E & _). rewrite E in Ht. discriminate.
Qed.

Lemma isLutra_spec (v : option Json) :
  isLutra v = true <-> v = Some (JString "lutra").
Proof.
  destruct v as [[|b|z|s|items|properties]|]; cbn; try (split; discriminate).
  rewrite String.eqb_eq. split; [now intros ->|now intros [= ->]].
Qed.

Lemma declaresLutra_object (properties : list (string * Json)) :
  exists b,
    declaresLutra (JObject properties) = Returned b
    /\ (b = true <->
        ownProperty "name" properties = Some (JString "lutra")
        \/ lists_lutra (ownProperty "dependencies" properties)
        \/ lists_lutra (ownProperty "devDependencies" properties)).
Proof.
  unfold declaresLutra. cbn [getProperty].
  destruct (isLutra (ownProperty "name" properties)) eqn:Hn.
  - exists true. split; [reflexivity|]. split; [|reflexivity].
    intros _. left. now apply isLutra_spec.
  - assert (Hn' : ownProperty "name" properties <> Some (JString "lutra")).
    { intros E. apply isLutra_spec in E. congruence. }
    destruct (dependsOnLutra_object properties "dependencies") as (b & -> & Hb).
    destruct b.
    + exists true. split; [reflexivity|]. split; [|reflexivity].
      intros _. right. left. now apply Hb.
    + destruct (dependsOnLutra_object properties "devDependencies") as (b' & -> & Hb').
      exists b'. split; [reflexivity|]. rewrite Hb'. split.
      * intros H. right. now right.
      * intros [H|[H|H]]; [contradiction| |exact H].
        apply Hb in H. discriminate.
Qed.

Lemma declaresLutra_throws (packageJson : Json) (error : string) :
  declaresLutra packageJson = Thrown error -> packageJson = JNull.
Proof.
  destruct packageJson as [|b|z|s|items|properties]; try discriminate; [reflexivity|].
  destruct (declaresLutra_object properties) as (b & -> & _). discriminate.
Qed.

Lemma hasLutra_cases (e : Editor) (files : list string) :
  (hasLutra e files = Returned false /\ Forall (silent e) files)
  \/ (hasLutra e files = Returned true
      /\ exists before file after,
           files = (before ++ file :: after)%list
           /\ Forall (silent e) before /\ declaring e file)
  \/ (exists error,
        hasLutra e files = Thrown error
        /\ exists before file after,
             files = (before ++ file :: after)%list
             /\ Forall (silent e) before /\ unusable e file).
Proof.
  induction files as [|file rest IH]; [left; now split|].
  cbn [hasLutra].
  destruct (readFile (workspace e) file) as [content|error] eqn:Hr.
  2:{ right. right. exists error. split; [reflexivity|].
      exists [], file, rest. repeat split; [constructor|]. left. now exists error. }
  destruct (parseJson e content) as [packageJson|error] eqn:Hp.
  2:{ right. right. exists error. split; [reflexivity|].
      exists [], file, rest. repeat split; [constructor|].
      right. left. now exists content, error. }
  destruct (declaresLutra packageJson) as [[|]|error] eqn:Hd.
  - right. left. split; [reflexivity|].
    exists [], file, rest. repeat split; [constructor|].
    exists packageJson. split; [now exists content|exact Hd].
  - assert (Hs : silent e file).
    { exists packageJson. split; [now exists content|exact Hd]. }
    destruct IH as [(-> & Hall)|[(-> & before & f & after & -> & Hb & Hf)
                                |(error & -> & before & f & after & -> & Hb & Hf)]].
    + left. split; [reflexivity|now constructor].
    + right. left. split; [reflexivity|].
      exists (file :: before), f, after. repeat split; [now constructor|exact Hf].
    + right. right. exists error. split; [reflexivity|].
      exists (file :: before), f, after. repeat split; [now constructor|exact Hf].
  - right. right. exists error. split; [reflexivity|].
    exists [], file, rest. repeat split; [constructor|].
    right. right. exists content. apply declaresLutra_throws in Hd. subst. now split.
Qed.

Lemma hasLutra_prefix (e : Editor) (before : list string) (rest : list string) :
  Forall (silent e) before ->
  hasLutra e (before ++ rest) = hasLutra e rest.
Proof.
  induction 1 as [|file before (p & (c & Hr & Hp) & Hd) _ IH]; [reflexivity|].
  cbn [app hasLutra]. now rewrite Hr, Hp, Hd.
Qed.

Lemma hasLutra_declaring (e : Editor) (file : string) (after : list string) :
  declaring e file -> hasLutra e (file :: after) = Returned true.
Proof.
  intros (p & (c & Hr & Hp) & Hd). cbn [hasLutra]. now rewrite Hr, Hp, Hd.
Qed.

Lemma hasLutra_unusable (e : Editor) (file : string) (after : list string) :
  unusable e file -> exists error, hasLutra e (file :: after) = Thrown error.
Proof.
  intros [(error & H)|[(c' & error & Hr' & Hp')|(c' & Hr' & Hp')]]; cbn [hasLutra].
  - rewrite H. now exists error.
  - rewrite Hr', Hp'. now exists error.
  - rewrite Hr', Hp'. now exists "TypeError".
Qed.

End ActivationFacts.

Import ActivationFacts.

(** X20. The test of a package file throws only on the JSON value null; on
    every other value it answers, and it answers yes exactly for an
    object whose name is lutra or whose dependencies or devDependencies
    is an object with a truthy own property lutra. *)
Theorem declaresLutra_characterised (packageJson : Json) :
  (packageJson = JNull /\ declaresLutra packageJson = Thrown "TypeError")
  \/ (packageJson <> JNull
      /\ exists answer,
           declaresLutra packageJson = Returned answer
           /\ (answer = true <->
               exists properties,
                 packageJson = JObject properties
                 /\ (ownProperty "name" properties = Some (JString "lutra")
                     \/ lists_lutra (ownProperty "dependencies" properties)
                     \/ lists_lutra (ownProperty "devDependencies" properties)))).
Proof.
  destruct packageJson as [|b|z|s|items|properties];
    [left; now split| | | | |];
    right; (split; [discriminate|]).
  5:{ destruct (declaresLutra_object properties) as (b & Hb & Hs).
      exists b. split; [exact Hb|]. rewrite Hs. split.
      - intros H. now exists properties.
      - now intros (ps & [= <-] & H). }
  all: exists false; split; [reflexivity|];
    split; [discriminate|intros (ps & [=] & _)].
Qed.

(** X21. Activation adds subscriptions only in an open workspace one of
    whose package files, with every package file before it readable,
    parsed and declaring nothing, declares the library. *)
Theorem activation_needs_lutra (e : Editor) (subscriptions subscriptions' : list Subscription)
        (result : outcome unit) :
  activate e subscriptions = (result, subscriptions') ->
  subscriptions' <> subscriptions ->
  (exists folder folders, workspaceFolders e = Some (folder :: folders))
  /\ exists before file after,
       packageJsonFiles e = (before ++ file :: after)%list
       /\ Forall (silent e) before /\ declaring e file.
Proof.
  unfold activate. intros H Hne.
  destruct (workspaceFolders e) as [[|folder folders]|];
    try (injection H as _ <-; contradiction).
  split; [now exists folder, folders|].
  destruct (hasLutra_cases e (packageJsonFiles e))
    as [(E & _)|[(E & Hex)|(error & E & _)]]; rewrite E in H;
    try (injection H as _ <-; contradiction).
  exact Hex.
Qed.

Lemma activation_needs_lutra_witness :
  (exists folder folders,
      workspaceFolders
        (Scenario.editor ["/w/tool/package.json"; "/w/app/package.json"] (Returned tt))
      = Some (folder :: folders))
  /\ exists before file after,
       packageJsonFiles
         (Scenario.editor ["/w/tool/package.json"; "/w/app/package.json"] (Returned tt))
       = (before ++ file :: after)%list
       /\ Forall
            (silent (Scenario.editor ["/w/tool/package.json"; "/w/app/package.json"]
                       (Returned tt)))
            before
       /\ declaring
            (Scenario.editor ["/w/tool/package.json"; "/w/app/package.json"]
               (Returned tt))
            file.
Proof.
  apply (activation_needs_lutra
           (Scenario.editor ["/w/tool/package.json"; "/w/app/package.json"] (Returned tt))
           [] [CompletionProvider selector "-"; Command "lutra.rescanCSSVariables"]
           (Returned tt)).
  - vm_compute. reflexivity.
  - discriminate.
Defined.

(** X22. In an open workspace, activation stops at the first package file
    that declares the library: whatever follows it in the search result,
    the completion provider for css and svelte files with trigger
    character dash and then the rescan command are registered. *)
Theorem activation_at_first_declaring_package
        (e : Editor) (subscriptions : list Subscription)
        (folder : string) (folders before after : list string) (file : string) :
  workspaceFolders e = Some (folder :: folders) ->
  packageJsonFiles e = (before ++ file :: after)%list ->
  Forall (silent e) before ->
  declaring e file ->
  newProvider e = Returned tt ->
  registerCompletionItemProvider e = Returned tt ->
  registerCommand e = Returned tt ->
  activate e subscriptions
  = (Returned tt,
     (subscriptions ++ [CompletionProvider [("file", "css"); ("file", "svelte")] "-";
                        Command "lutra.rescanCSSVariables"])%list).
Proof.
  intros Hw Hf Hb Hd Hn Hr Hc. unfold activate.
  rewrite Hw, Hf, (hasLutra_prefix e before _ Hb), (hasLutra_declaring e file after Hd).
  rewrite Hn, Hr, Hc. now rewrite <- app_assoc.
Qed.

Lemma activation_at_first_declaring_package_witness :
  activate
    (Scenario.editor ["/w/tool/package.json"; "/w/app/package.json";
                       "/w/broken/package.json"] (Returned tt))
    []
  = (Returned tt,
     [CompletionProvider [("file", "css"); ("file", "svelte")] "-";
      Command "lutra.rescanCSSVariables"]).
Proof.
  apply (activation_at_first_declaring_package
           (Scenario.editor ["/w/tool/package.json"; "/w/app/package.json";
                              "/w/broken/package.json"] (Returned tt))
           [] "/w" [] ["/w/tool/package.json"] ["/w/broken/package.json"]
           "/w/app/package.json").
  - reflexivity.
  - reflexivity.
  - constructor; [|constructor].
    eexists. split; [exists "tool"; split; reflexivity|reflexivity].
  - eexists. split; [exists "app"; split; reflexivity|reflexivity].
  - reflexivity.
  - reflexivity.
  - reflexivity.
Defined.

(** X23. A package file that cannot be read, is not JSON or is the JSON
    value null, met before any declaring one, ends activation without an
    error and without a subscription, also when a later package file
    declares the library. *)
Theorem unusable_package_blocks_activation
        (e : Editor) (subscriptions : list Subscription)
        (before after : list string) (file : string) :
  packageJsonFiles e = (before ++ file :: after)%list ->
  Forall (silent e) before ->
  unusable e file ->
  activate e subscriptions = (Returned tt, subscriptions).
Proof.
  intros Hf Hb Hu. unfold activate.
  destruct (workspaceFolders e) as [[|folder folders]|]; try reflexivity.
  rewrite Hf, (hasLutra_prefix e before _ Hb).
  destruct (hasLutra_unusable e file after Hu) as (error & ->). reflexivity.
Qed.

Lemma unusable_package_blocks_activation_witness :
  activate
    (Scenario.editor ["/w/tool/package.json"; "/w/broken/package.json";
                       "/w/app/package.json"] (Returned tt))
    []
  = (Returned tt, []).
Proof.
  apply (unusable_package_blocks_activation
           (Scenario.editor ["/w/tool/package.json"; "/w/broken/package.json";
                              "/w/app/package.json"] (Returned tt))
           [] ["/w/tool/package.json"] ["/w/app/package.json"]
           "/w/broken/package.json").
  - reflexivity.
  - constructor; [|constructor].
    eexists. split; [exists "tool"; split; reflexivity|reflexivity].
  - right. left. exists "{", "SyntaxError". split; reflexivity.
Defined.

(** X24. Activation fails only with the error of the provider's
    construction or of a registration, after the library was found: no
    error of reading, parsing or testing a package file leaves it, and
    the rescan command is not registered. *)
Theorem activation_fails_only_in_registration
        (e : Editor) (subscriptions subscriptions' : list Subscription) (error : string) :
  activate e subscriptions = (Thrown error, subscriptions') ->
  hasLutra e (packageJsonFiles e) = Returned true
  /\ ((newProvider e = Thrown error /\ subscriptions' = subscriptions)
      \/ (registerCompletionItemProvider e = Thrown error /\ subscriptions' = subscriptions)
      \/ (registerCommand e = Thrown error
          /\ subscriptions'
             = (subscriptions ++ [CompletionProvider selector "-"])%list)).
Proof.
  unfold activate. intros H.
  destruct (workspaceFolders e) as [[|folder folders]|]; try discriminate.
  destruct (hasLutra e (packageJsonFiles e)) as [[|]|err]; try discriminate.
  split; [reflexivity|].
  destruct (newProvider e) as [[]|err1].
  2:{ injection H as -> <-. now left. }
  destruct (registerCompletionItemProvider e) as [[]|err2].
  2:{ injection H as -> <-. right. now left. }
  destruct (registerCommand e) as [[]|err3]; [discriminate|].
  injection H as -> <-. right. now right.
Qed.

Lemma activation_fails_only_in_registration_witness :
  hasLutra (Scenario.editor ["/w/app/package.json"] (Thrown "no watcher"))
    (packageJsonFiles (Scenario.editor ["/w/app/package.json"] (Thrown "no watcher")))
  = Returned true
  /\ ((newProvider (Scenario.editor ["/w/app/package.json"] (Thrown "no watcher"))
       = Thrown "no watcher" /\ @nil Subscription = [])
      \/ (registerCompletionItemProvider
            (Scenario.editor ["/w/app/package.json"] (Thrown "no watcher"))
          = Thrown "no watcher" /\ @nil Subscription = [])
      \/ (registerCommand (Scenario.editor ["/w/app/package.json"] (Thrown "no watcher"))
          = Thrown "no watcher"
          /\ [] = ([] ++ [CompletionProvider selector "-"])%list)).
Proof.
  apply (activation_fails_only_in_registration
           (Scenario.editor ["/w/app/package.json"] (Thrown "no watcher")) [] []
           "no watcher").
  vm_compute. reflexivity.
Defined.

(** ** The documented forms and the trigger at sample inputs *)

Lemma documented_tag_indexed_witness :
  JsMap.get "--size" (rebuilt Scenario.cardProject [])
  = Some (MkVariable "--size" (Some "-->") component (Some "Card") "/w/Card.svelte").
Proof.
  pose proof (documented_tag_indexed Scenario.cardProject [] "/w/Card.svelte"
                "<!-- " " " "size" " " nl "-->" "") as H.
  supply H. cbv zeta in H.
  lapply H; [clear H; intros H; conclude H|only_declaration].
Defined.


Lemma items_need_pattern_witness :
  (Js.includes "var(-" "color: --" = true /\ Js.endsWith "-" "color: --" = true)
  \/ Js.endsWith "--" "color: --" = true.
Proof.
  pose proof (items_need_pattern Sample.project (Sample.documentWithLine "color: --")
                (Sample.endOfLine "color: --") Scenario.table Scenario.table
                (map (toCompletionItem Sample.project "color: --")
                   (JsMap.values Scenario.table))) as H.
  cbv zeta in H.
  lapply H; [clear H; intros H|vm_compute; reflexivity].
  lapply H; [clear H; intros H; conclude H|vm_compute; discriminate].
Defined.
